(** * STAR-CCM+ batch script: template instantiation and batch execution

    A shallow embedding of [STARCCM+_BatchScript.py] and the properties of
    its case generator ([process_required_templates],
    [process_custom_templates]), its batch executor ([process_sim_command])
    and its output-folder helper ([CreatOutputFolder]).

    A Python [str] is the [string] of the bytes of its UTF-8 encoding, and a
    file holds bytes: reading a file as text decodes it, which fails on
    bytes that are not UTF-8, and writing text stores its encoding.  [dict]s
    are association lists in insertion order (the order in which Python
    iterates them); the file system, the log and the external tool are an
    explicit [world] threaded through a state-and-exception monad. *)

From Stdlib Require Import String Ascii List Arith ZArith Lia Bool Permutation.
Import ListNotations.
Local Open Scope list_scope.
Local Open Scope string_scope.

(* ================================================================== *)
(** * Part I: definitions                                               *)
(* ================================================================== *)

(** ** Python string primitives *)

Module PyStr.

(** [s[n:]] *)
Fixpoint drop (n : nat) (s : string) : string :=
  match n, s with
  | 0, _ => s
  | S _, EmptyString => EmptyString
  | S n', String _ s' => drop n' s'
  end.

(** A continuation byte of the UTF-8 encoding, [10xxxxxx]: every byte of a
    character but its first.  A character starts at every other byte. *)
Definition is_continuation (c : ascii) : bool :=
  Nat.leb 128 (nat_of_ascii c) && Nat.ltb (nat_of_ascii c) 192.

(** [new.join(s)] framed by [new] on both sides: what [s.replace("", new)]
    returns.  [new] goes in front of every character, that is in front of
    every byte that is not a continuation byte, and behind the last one. *)
Fixpoint intersperse (new s : string) : string :=
  match s with
  | EmptyString => new
  | String c s' =>
      (if is_continuation c then "" else new) ++ String c (intersperse new s')
  end.

(** Left-to-right scan of [s.replace(old, new)] for a non-empty [old]: at
    each position either [old] starts here, and the scan resumes after it,
    or one byte is kept.  On encodings the scan by bytes finds what the scan
    by characters finds: the encoding of [old] begins with the first byte of
    a character, which no byte inside a character of [s] is. *)
Fixpoint replace_scan (fuel : nat) (old new s : string) : string :=
  match fuel with
  | 0 => s
  | S fuel' =>
      match s with
      | EmptyString => EmptyString
      | String c s' =>
          if prefix old s
          then new ++ replace_scan fuel' old new (drop (String.length old) s)
          else String c (replace_scan fuel' old new s')
      end
  end.

(** [s.replace(old, new)] *)
Definition replace (old new s : string) : string :=
  if (old =? "")%string then intersperse new s
  else replace_scan (String.length s) old new s.

(** [p in s] *)
Fixpoint contains (p s : string) : bool :=
  prefix p s ||
  match s with
  | EmptyString => false
  | String _ s' => contains p s'
  end.

(** [c in s] for a single character *)
Fixpoint mem_char (c : ascii) (s : string) : bool :=
  match s with
  | EmptyString => false
  | String d s' => Ascii.eqb c d || mem_char c s'
  end.

(** No character of [a] occurs in [b]. *)
Fixpoint disjoint_chars (a b : string) : bool :=
  match a with
  | EmptyString => true
  | String c a' => negb (mem_char c b) && disjoint_chars a' b
  end.

(** [s.endswith(suffix)] *)
Definition endswith (s suffix : string) : bool :=
  Nat.leb (String.length suffix) (String.length s) &&
  (drop (String.length s - String.length suffix) s =? suffix)%string.

Fixpoint zeros (n : nat) : string :=
  match n with
  | 0 => EmptyString
  | S n' => String "0"%char (zeros n')
  end.

Definition digit_char (d : nat) : ascii := ascii_of_nat (48 + d).

(** Digits of [n], least significant first, pushed in front of [acc]. *)
Fixpoint str_digits (fuel n : nat) (acc : string) : string :=
  match fuel with
  | 0 => acc
  | S fuel' =>
      let acc' := String (digit_char (n mod 10)) acc in
      if Nat.ltb n 10 then acc' else str_digits fuel' (n / 10) acc'
  end.

(** [str(n)] for a non-negative [int] *)
Definition str_nat (n : nat) : string := str_digits (S n) n "".

(** [str(z)] for an [int] *)
Definition str_Z (z : Z) : string :=
  if (z <? 0)%Z then "-" ++ str_nat (Z.to_nat (- z)) else str_nat (Z.to_nat z).

(** [f"{n:0{w}d}"] for a non-negative [n]: at least [w] characters, padded
    with zeros on the left, never truncated. *)
Definition format_0d (w n : nat) : string :=
  zeros (w - String.length (str_nat n)) ++ str_nat n.

(** Value of a string of decimal digits, [None] on any other character. *)
Definition digit_val (c : ascii) : option nat :=
  let k := nat_of_ascii c in
  if Nat.leb 48 k && Nat.leb k 57 then Some (k - 48) else None.

Fixpoint dec_value_from (acc : nat) (s : string) : option nat :=
  match s with
  | EmptyString => Some acc
  | String c s' =>
      match digit_val c with
      | Some d => dec_value_from (10 * acc + d) s'
      | None => None
      end
  end.

Definition dec_value (s : string) : option nat :=
  match s with
  | EmptyString => None
  | _ => dec_value_from 0 s
  end.

(** The second byte that the first byte [lead] of a character of three or
    four bytes admits: [E0] and [F0] exclude the overlong forms, [ED] the
    surrogates, [F4] the code points above [10FFFF]. *)
Definition second_byte_ok (lead : nat) (c : ascii) : bool :=
  let n := nat_of_ascii c in
  if Nat.eqb lead 224 then Nat.leb 160 n && Nat.ltb n 192
  else if Nat.eqb lead 237 then Nat.leb 128 n && Nat.ltb n 160
  else if Nat.eqb lead 240 then Nat.leb 144 n && Nat.ltb n 192
  else if Nat.eqb lead 244 then Nat.leb 128 n && Nat.ltb n 144
  else is_continuation c.

(** [bytes.decode('utf-8')] goes through: the bytes are a sequence of
    well-formed characters of one to four bytes. *)
Fixpoint valid_utf8 (s : string) : bool :=
  match s with
  | EmptyString => true
  | String c s1 =>
      let lead := nat_of_ascii c in
      if Nat.ltb lead 128 then valid_utf8 s1
      else if Nat.ltb lead 194 then false
      else if Nat.ltb lead 224 then
        match s1 with
        | String c1 s2 => is_continuation c1 && valid_utf8 s2
        | _ => false
        end
      else if Nat.ltb lead 240 then
        match s1 with
        | String c1 (String c2 s3) =>
            second_byte_ok lead c1 && is_continuation c2 && valid_utf8 s3
        | _ => false
        end
      else if Nat.ltb lead 245 then
        match s1 with
        | String c1 (String c2 (String c3 s4)) =>
            second_byte_ok lead c1 && is_continuation c2 && is_continuation c3
            && valid_utf8 s4
        | _ => false
        end
      else false
  end.

End PyStr.

Import PyStr.

(** ** Cell values of the parameter table *)

(** What [df[col].tolist()] hands over: integers, text cells, and floats,
    a float carried by the text that [str] gives it. *)
Inductive pyval : Type :=
| PyInt (z : Z)
| PyStr (s : string)
| PyFloat (text : string).

(** [str(v)] *)
Definition py_str (v : pyval) : string :=
  match v with
  | PyInt z => str_Z z
  | PyStr s => s
  | PyFloat text => text
  end.

(** [MacroParamToReplaceValue]: placeholder -> column of per-case values,
    in dict insertion order. *)
Definition param_table : Type := list (string * list pyval).

(** ** Paths and case identifiers *)

(** The backslash and the double quote, by code point. *)
Definition backslash : ascii := ascii_of_nat 92.
Definition dquote : string := String (ascii_of_nat 34) "".

(** [normalize_path]: every backslash becomes a forward slash. *)
Definition normalize_path (path : string) : string :=
  replace (String backslash "") "/" path.

(** [min(len(v) for v in table.values())]; [None] stands for the
    [ValueError] that [min] raises on an empty sequence. *)
Fixpoint min_list (l : list nat) : option nat :=
  match l with
  | [] => None
  | x :: l' =>
      match min_list l' with
      | None => Some x
      | Some m => Some (Nat.min x m)
      end
  end.

Definition num_rows_of (table : param_table) : option nat :=
  min_list (map (fun kv => List.length (snd kv)) table).

(** [len(str(num_rows))] *)
Definition num_digits (num_rows : nat) : nat := String.length (str_nat num_rows).

(** [f"Case{row_index + 1:0{num_digits}d}"] *)
Definition case_number (num_rows row_index : nat) : string :=
  "Case" ++ format_0d (num_digits num_rows) (row_index + 1).

(** ** [os.path.splitext]

    The generic algorithm of Python's [genericpath._splitext] with the
    separators of the Windows flavour of [os.path] (the script drives the
    tool through [cmd]): the extension starts at the last dot, provided that
    dot comes after the last separator and is preceded, within the file
    name, by a character that is not a dot. *)

Definition is_sep (c : ascii) : bool :=
  Ascii.eqb c backslash || Ascii.eqb c "/"%char.

Definition is_dot (c : ascii) : bool := Ascii.eqb c "."%char.

(** [s.rfind(...)]: position of the last character satisfying [f], counted
    from [i]. *)
Fixpoint rfind_from (i : nat) (f : ascii -> bool) (s : string) : option nat :=
  match s with
  | EmptyString => None
  | String c s' =>
      match rfind_from (S i) f s' with
      | Some j => Some j
      | None => if f c then Some i else None
      end
  end.

Definition rfind (f : ascii -> bool) (s : string) : option nat :=
  rfind_from 0 f s.

Fixpoint forallb_string (f : ascii -> bool) (s : string) : bool :=
  match s with
  | EmptyString => true
  | String c s' => f c && forallb_string f s'
  end.

Definition splitext (p : string) : string * string :=
  match rfind is_dot p with
  | None => (p, "")
  | Some dotIndex =>
      let filenameIndex :=
        match rfind is_sep p with None => 0 | Some k => S k end in
      if Nat.leb filenameIndex dotIndex
         && negb (forallb_string is_dot
                    (substring filenameIndex (dotIndex - filenameIndex) p))
      then (substring 0 dotIndex p, drop dotIndex p)
      else (p, "")
  end.

(** ** The world: files, directories and the log *)

Inductive exn : Type :=
| ValueError          (* [min()] of an empty sequence, a worker pool of size <= 0 *)
| IndexError
| FileNotFoundError
| FileExistsError
| SameFileError
| PermissionError
| UnboundLocalError
| OSError
| UnicodeDecodeError. (* in Python a subclass of [ValueError]; nothing in the
                         script catches either by name *)

Inductive log_event : Type :=
| Info_output_header
| Info_default_output (default_folder : string)
| Info_user_output (user_config_path : string)
| Info_output_confirmed (output_path : string)
| Error_output_failed (e : exn)
| Error_check_path
| Error_count_mismatch (n_sim n_java : nat)
| Info_count_match (n_sim n_java : nat)
| Info_case_start (case : string)
| Info_case_log (log_file : string)
| Info_case_ok (case : string)
| Error_case_exit (case : string) (exit_code : Z)
| Error_case_exception (sim_file : string) (e : exn)
| Info_batch_done (success_count total : nat).

(** What one run of [execute_case] leaves behind: the command handed to
    [os.system], the backup file it removed, its log lines and the value it
    returned. *)
Record job_report : Type := mkReport {
  job_command : string;
  job_removed : option string;
  job_log : list log_event;
  job_returned : bool
}.

(** Paths are compared as text.  [files] maps a path to the bytes of the
    regular file there; [unwritable] marks paths at which creating or
    opening a file for writing is denied; [dirs] are the directories made so
    far; [runs] are the finished jobs of the batch executor, in order of
    completion.  The folder that a path lies in is taken to exist, and no
    directory to sit at a path that a file is copied to. *)
Record world : Type := mkWorld {
  files : string -> option string;
  unwritable : string -> bool;
  dirs : string -> bool;
  log : list log_event;
  runs : list job_report
}.

Definition set_file (path content : string) (w : world) : world :=
  mkWorld (fun q => if (q =? path)%string then Some content else files w q)
          (unwritable w) (dirs w) (log w) (runs w).

Definition add_dir (path : string) (w : world) : world :=
  mkWorld (files w) (unwritable w)
          (fun q => (q =? path)%string || dirs w q) (log w) (runs w).

Definition add_log (ev : log_event) (w : world) : world :=
  mkWorld (files w) (unwritable w) (dirs w) (log w ++ [ev])%list (runs w).

Definition add_runs (rs : list job_report) (w : world) : world :=
  mkWorld (files w) (unwritable w) (dirs w) (log w) (runs w ++ rs)%list.

(** ** State and exceptions *)

Inductive outcome (A : Type) : Type :=
| Ok (a : A)
| Raise (e : exn).
Arguments Ok {A} a.
Arguments Raise {A} e.

Definition M (A : Type) : Type := world -> world * outcome A.

Definition ret {A} (a : A) : M A := fun w => (w, Ok a).

Definition raise {A} (e : exn) : M A := fun w => (w, Raise e).

Definition bind {A B} (m : M A) (k : A -> M B) : M B :=
  fun w =>
    match m w with
    | (w', Ok a) => k a w'
    | (w', Raise e) => (w', Raise e)
    end.

(** [try: body  except Exception as e: handler(e)] *)
Definition try_except {A} (body : M A) (handler : exn -> M A) : M A :=
  fun w =>
    match body w with
    | (w', Ok a) => (w', Ok a)
    | (w', Raise e) => handler e w'
    end.

Declare Scope py_scope.
Delimit Scope py_scope with py.
Notation "x <- m ;; k" := (bind m (fun x => k))
  (at level 61, m at next level, right associativity) : py_scope.
Notation "m ;;; k" := (bind m (fun _ => k))
  (at level 61, right associativity) : py_scope.
Local Open Scope py_scope.

(** [for x in l: s = body(x, s)], the locals carried along in [s]; an
    exception leaves the loop at once. *)
Fixpoint for_each {X S : Type} (l : list X) (body : X -> S -> M S) (s : S)
  : M S :=
  match l with
  | [] => ret s
  | x :: l' => s' <- body x s ;; for_each l' body s'
  end.

Definition logging (ev : log_event) : M unit :=
  fun w => (add_log ev w, Ok tt).

(** [shutil.copy(src, dst)] between two file paths *)
Definition shutil_copy (src dst : string) : M unit :=
  fun w =>
    if (src =? dst)%string then (w, Raise SameFileError)
    else match files w src with
         | None => (w, Raise FileNotFoundError)
         | Some content =>
             if unwritable w dst then (w, Raise PermissionError)
             else (set_file dst content w, Ok tt)
         end.

(** [open(path, 'r+', encoding='utf-8', newline='\n')] followed by
    [file.read()]: the bytes of the file are decoded, and no line ending is
    translated. *)
Definition read_file (path : string) : M string :=
  fun w =>
    match files w path with
    | None => (w, Raise FileNotFoundError)
    | Some content =>
        if unwritable w path then (w, Raise PermissionError)
        else if valid_utf8 content then (w, Ok content)
        else (w, Raise UnicodeDecodeError)
    end.

(** [file.seek(0); file.write(content); file.truncate()]: the encoding of
    [content] becomes the whole file. *)
Definition write_file (path content : string) : M unit :=
  fun w =>
    if unwritable w path then (w, Raise PermissionError)
    else (set_file path content w, Ok tt).

(** [os.makedirs(path, exist_ok=True)] *)
Definition os_makedirs (path : string) : M unit :=
  fun w =>
    if dirs w path then (w, Ok tt)
    else match files w path with
         | Some _ => (w, Raise FileExistsError)
         | None =>
             if unwritable w path then (w, Raise PermissionError)
             else (add_dir path w, Ok tt)
         end.

(** [column_value[row_index]] *)
Definition getitem {A} (l : list A) (i : nat) : M A :=
  match nth_error l i with
  | Some a => ret a
  | None => raise IndexError
  end.

(** [min(len(v) for v in MacroParamToReplaceValue.values())] *)
Definition num_rows_M (table : param_table) : M nat :=
  match num_rows_of table with
  | Some n => ret n
  | None => raise ValueError
  end.

(** ** [process_required_templates] *)

(** The loop [for column_name, column_value in table.items()] of the macro
    branch. *)
Definition substitute_params (table : param_table) (row_index : nat)
    (content : string) : M string :=
  for_each table
    (fun kv content =>
       v <- getitem (snd kv) row_index ;;
       ret (replace (fst kv) (py_str v) content))
    content.

Definition sim_output_path (output_folder_path case : string) : string :=
  normalize_path (output_folder_path ++ "/" ++ (case ++ ".sim")).

Definition suffixed_filename (display_name case : string) : string :=
  fst (splitext display_name) ++ "_" ++ case ++ snd (splitext display_name).

Definition suffixed_output_path (output_folder_path display_name case : string)
  : string :=
  normalize_path (output_folder_path ++ "/" ++ suffixed_filename display_name case).

(** The three fixed replacements of the macro branch, in source order. *)
Definition macro_fixed_passes (output_folder_path output_filename case content : string)
  : string :=
  let content := replace "CaseName" case content in
  let content := replace "template_Macro" (fst (splitext output_filename)) content in
  replace "SavePath" (sim_output_path output_folder_path case) content.

(** Body of [for display_name, template_path in required_templates.items()];
    the locals are [(sim_files, java_files)]. *)
Definition required_template_body (table : param_table)
    (output_folder_path : string) (row_index : nat) (case : string)
    (tpl : string * string) (lists : list string * list string)
  : M (list string * list string) :=
  let display_name := fst tpl in
  let template_path := snd tpl in
  if endswith display_name ".sim" then
    let output_path := sim_output_path output_folder_path case in
    shutil_copy template_path output_path ;;;
    ret ((fst lists ++ [output_path])%list, snd lists)
  else if endswith display_name ".java" then
    let output_filename := suffixed_filename display_name case in
    let output_path := normalize_path (output_folder_path ++ "/" ++ output_filename) in
    shutil_copy template_path output_path ;;;
    let java_files := (snd lists ++ [output_path])%list in
    content <- read_file output_path ;;
    content <- substitute_params table row_index
                 (macro_fixed_passes output_folder_path output_filename case content) ;;
    write_file output_path content ;;;
    ret (fst lists, java_files)
  else ret lists.

(** Body of [for row_index in range(num_rows)] *)
Definition required_row_body (required_templates : list (string * string))
    (table : param_table) (output_folder_path : string) (num_rows : nat)
    (row_index : nat) (lists : list string * list string)
  : M (list string * list string) :=
  for_each required_templates
    (required_template_body table output_folder_path row_index
       (case_number num_rows row_index))
    lists.

Definition process_required_templates
    (required_templates : list (string * string)) (table : param_table)
    (output_folder_path : string) : M (list string * list string) :=
  num_rows <- num_rows_M table ;;
  for_each (seq 0 num_rows)
    (required_row_body required_templates table output_folder_path num_rows)
    ([], []).

(** The dict built by [get_required_templates], in its literal order. *)
Definition required_templates_at (macro_path case_path : string)
  : list (string * string) :=
  [("Macro.java", macro_path); ("Case.sim", case_path)].

(** ** [get_custom_templates] and [process_custom_templates] *)

(** [d[k] = v]: an existing key keeps its place, a new key goes last. *)
Fixpoint dict_set (k v : string) (d : list (string * string))
  : list (string * string) :=
  match d with
  | [] => [(k, v)]
  | (k', v') :: d' =>
      if (k' =? k)%string then (k, v) :: d' else (k', v') :: dict_set k v d'
  end.

(** [d.update(other)] *)
Definition dict_update (d other : list (string * string))
  : list (string * string) :=
  fold_left (fun acc kv => dict_set (fst kv) (snd kv) acc) other d.

Fixpoint dict_get (k : string) (d : list (string * string)) : option string :=
  match d with
  | [] => None
  | (k', v') :: d' => if (k' =? k)%string then Some v' else dict_get k d'
  end.

Definition required_template_names : list string :=
  ["template_Macro.java"; "template_Case.sim"].

Definition default_replace_rules : list (string * string) :=
  [("CaseName", "CASE_NUMBER")].

(** [listing] is [os.listdir(search_dir)], each name with the answer of
    [os.path.isfile]; [template_abspath] is
    [os.path.abspath(os.path.join(search_dir, filename))].  The two
    [logging.info] lines per template found are left out. *)
Definition get_custom_templates (listing : list (string * bool))
    (template_abspath : string -> string)
    (replace_rules : option (list (string * string)))
  : list (string * string) * list (string * string) :=
  let custom_templates :=
    fold_left
      (fun acc entry =>
         let filename := fst entry in
         if existsb (String.eqb filename) required_template_names then acc
         else if prefix "template_" filename && snd entry
              then dict_set (drop 9 filename) (template_abspath filename) acc
              else acc)
      listing [] in
  match custom_templates with
  | [] => ([], [])
  | _ =>
      (custom_templates,
       match replace_rules with
       | None => default_replace_rules
       | Some rules => dict_update default_replace_rules rules
       end)
  end.

(** The loop [for old, new in replace_rules.items()] *)
Definition apply_rules (replace_rules : list (string * string))
    (case content : string) : string :=
  fold_left
    (fun content rule =>
       let new := if (snd rule =? "CASE_NUMBER")%string then case else snd rule in
       replace (fst rule) new content)
    replace_rules content.

(** The replacements applied to one auxiliary template, in source order. *)
Definition custom_passes (replace_rules : list (string * string))
    (display_name output_filename case content : string) : string :=
  let content := replace "CaseName" case content in
  let content := apply_rules replace_rules case content in
  replace ("template_" ++ fst (splitext display_name))
          (fst (splitext output_filename)) content.

Definition custom_template_body (replace_rules : list (string * string))
    (output_folder_path : string) (case : string)
    (tpl : string * string) (generated_files : list string)
  : M (list string) :=
  let display_name := fst tpl in
  let template_path := snd tpl in
  let output_filename := suffixed_filename display_name case in
  let output_path := normalize_path (output_folder_path ++ "/" ++ output_filename) in
  shutil_copy template_path output_path ;;;
  let generated_files := (generated_files ++ [output_path])%list in
  content <- read_file output_path ;;
  write_file output_path
    (custom_passes replace_rules display_name output_filename case content) ;;;
  ret generated_files.

Definition process_custom_templates
    (custom_templates : list (string * string)) (table : param_table)
    (output_folder_path : string) (replace_rules : list (string * string))
  : M (list string) :=
  num_rows <- num_rows_M table ;;
  for_each (seq 0 num_rows)
    (fun row_index generated_files =>
       for_each custom_templates
         (custom_template_body replace_rules output_folder_path
            (case_number num_rows row_index))
         generated_files)
    [].

(** ** [process_sim_command] *)

(** The path functions of [os.path] whose result depends on the platform
    and the working directory. *)
Record ospath : Type := mkOsPath {
  basename : string -> string;
  join : string -> string -> string;
  abspath : string -> string;
  script_dir : string
}.

(** What one job meets while it runs: the clock, the external tool, the
    backup file. *)
Record job_oracle : Type := mkOracle {
  timestamp : string;
  os_system : string -> outcome Z;
  backup_exists : string -> bool;
  os_remove : string -> outcome unit
}.

Definition starccm_command (os : ospath) (output_folder_path : string)
    (SimParallelNumber : Z) (sim_file java_file log_file : string) : string :=
  "cd /d " ++ dquote ++ output_folder_path ++ dquote ++ " && " ++
  "starccm+ -np " ++ str_Z SimParallelNumber ++
  " -power " ++ dquote ++ basename os sim_file ++ dquote ++ " " ++
  "-batch " ++ dquote ++ basename os java_file ++ dquote ++ " " ++
  ">> " ++ dquote ++ log_file ++ dquote ++ " 2>&1".

(** The nested function [execute_case]: everything between [try] and
    [except Exception] either returns [True]/[False] or raises, and what it
    raises is turned into [False]. *)
Definition execute_case (os : ospath) (output_folder_path log_dir : string)
    (SimParallelNumber : Z) (o : job_oracle) (sim_file java_file : string)
  : job_report :=
  let case := fst (splitext (basename os sim_file)) in
  let log_file := join os log_dir (case ++ "_" ++ timestamp o ++ ".log") in
  let command :=
    starccm_command os output_folder_path SimParallelNumber
      sim_file java_file log_file in
  let started := [Info_case_start case; Info_case_log log_file] in
  match os_system o command with
  | Raise e =>
      mkReport command None
        (started ++ [Error_case_exception sim_file e])%list false
  | Ok exit_code =>
      if (exit_code =? 0)%Z then
        let backup_file := join os output_folder_path (case ++ ".sim~") in
        if backup_exists o backup_file then
          match os_remove o backup_file with
          | Ok _ =>
              mkReport command (Some backup_file)
                (started ++ [Info_case_ok case])%list true
          | Raise e =>
              mkReport command None
                (started ++ [Info_case_ok case; Error_case_exception sim_file e])%list
                false
          end
        else mkReport command None (started ++ [Info_case_ok case])%list true
      else
        mkReport command None
          (started ++ [Error_case_exit case exit_code])%list false
  end.

(** [executor.submit(execute_case, sim, java) for sim, java in zip(...)]:
    job [i] meets [tool i]. *)
Fixpoint submit_all (os : ospath) (output_folder_path log_dir : string)
    (SimParallelNumber : Z) (tool : nat -> job_oracle) (i : nat)
    (jobs : list (string * string)) : list job_report :=
  match jobs with
  | [] => []
  | (sim, java) :: jobs' =>
      execute_case os output_folder_path log_dir SimParallelNumber
        (tool i) sim java
      :: submit_all os output_folder_path log_dir SimParallelNumber
           tool (S i) jobs'
  end.

(** [for future in as_completed(futures): if future.result(): success_count += 1] *)
Definition count_successes (completed : list job_report) : nat :=
  fold_left (fun success_count r =>
               if job_returned r then success_count + 1 else success_count)
            completed 0.

(** [as_completed] is the order in which the pool hands the futures back. *)
Definition process_sim_command (os : ospath) (tool : nat -> job_oracle)
    (as_completed : list job_report -> list job_report)
    (sim_files java_files : list string) (output_folder_path : string)
    (SimParallelNumber max_threads : Z) : M unit :=
  if negb (List.length sim_files =? List.length java_files)%nat then
    logging (Error_count_mismatch (List.length sim_files) (List.length java_files))
  else
    logging (Info_count_match (List.length sim_files) (List.length java_files)) ;;;
    let log_dir := join os output_folder_path "execution_logs" in
    os_makedirs log_dir ;;;
    (if (max_threads <=? 0)%Z then raise ValueError else ret tt) ;;;
    let futures :=
      submit_all os output_folder_path log_dir SimParallelNumber tool 0
        (combine sim_files java_files) in
    let completed := as_completed futures in
    (fun w => (add_runs completed w, Ok tt)) ;;;
    logging (Info_batch_done (count_successes completed) (List.length sim_files)).

(** ** [CreatOutputFolder] *)

(** The local [output_path] is bound only under [if OutputFolderPath:];
    [None] is the unbound local, and the result [None] is Python's [None]
    of a function that falls off its end. *)
Definition CreatOutputFolder (os : ospath) (OutputFolderPath : string)
  : M (option string) :=
  let default_folder := join os (script_dir os) "batch_cases" in
  logging Info_output_header ;;;
  logging (Info_default_output default_folder) ;;;
  output_path <-
    (if negb (OutputFolderPath =? "")%string then
       let user_config_path := abspath os OutputFolderPath in
       logging (Info_user_output user_config_path) ;;;
       ret (Some user_config_path)
     else ret None) ;;
  try_except
    (match output_path with
     | None => raise UnboundLocalError
     | Some p =>
         os_makedirs p ;;;
         logging (Info_output_confirmed p) ;;;
         ret (Some p)
     end)
    (fun e =>
       logging (Error_output_failed e) ;;;
       logging Error_check_path ;;;
       ret None).

(** ** Notions used to state and prove the properties *)

(** The [k] low decimal digits of [n], most significant first, in front of
    [acc]: the fixed-width rendering that [format_0d] is compared with. *)
Fixpoint fixed_digits (k n : nat) (acc : string) : string :=
  match k with
  | 0 => acc
  | S k' => fixed_digits k' (n / 10) (String (digit_char (n mod 10)) acc)
  end.

(** [weave new s r]: [r] is [s] with some substrings taken out and [new] put
    in their place, every other character kept in order. *)
Inductive weave (new : string) : string -> string -> Prop :=
| weave_nil : weave new "" ""
| weave_keep c s r : weave new s r -> weave new (String c s) (String c r)
| weave_ins u s r : weave new s r -> weave new (u ++ s) (new ++ r).

(** [substituted old new s r]: reading [s] from the left, [r] has [new]
    wherever a copy of [old] starts, the scan resuming after the copy, and
    every other character as it was. *)
Inductive substituted (old new : string) : string -> string -> Prop :=
| substituted_nil : substituted old new "" ""
| substituted_hit s r :
    substituted old new s r -> substituted old new (old ++ s) (new ++ r)
| substituted_skip c s r :
    prefix old (String c s) = false ->
    substituted old new s r ->
    substituted old new (String c s) (String c r).

(** [p] and [q] differ at a position that both have: neither is a prefix
    of the other, whatever follows them. *)
Fixpoint clash (p q : string) : bool :=
  match p, q with
  | String a p', String b q' => if Ascii.eqb a b then clash p' q' else true
  | _, _ => false
  end.

(** Every non-empty suffix of [p] clashes with [q]: no copy of [q] can
    begin inside [p], and no text that begins with [q] continues a copy of
    [p] that is under way. *)
Fixpoint suffixes_clash (p q : string) : bool :=
  match p with
  | EmptyString => true
  | String _ p' => clash p q && suffixes_clash p' q
  end.

(** Neither text gets in the way of the other.  For a non-empty [p]: [v]
    is not empty, neither occurs in the other, and no ending of one is a
    beginning of the other.  Putting [v] into a text then neither completes
    nor begins a copy of [p]. *)
Definition no_overlap (p v : string) : bool :=
  suffixes_clash p v && suffixes_clash v p.

Definition is_digit (c : ascii) : bool :=
  Nat.leb 48 (nat_of_ascii c) && Nat.leb (nat_of_ascii c) 57.

(** *** [str.replace] and [str], described without the functions above

    What the passes of the generators are measured against. *)

(** [framed new s r]: [r] is [s] with [new] in front of every character and
    behind the last one, the result of [s.replace("", new)]. *)
Inductive framed (new : string) : string -> string -> Prop :=
| framed_nil : framed new "" new
| framed_first c s r :
    is_continuation c = false ->
    framed new s r -> framed new (String c s) (new ++ String c r)
| framed_inside c s r :
    is_continuation c = true ->
    framed new s r -> framed new (String c s) (String c r).

(** [replaced old new s r]: [r] is the result of [s.replace(old, new)]. *)
Definition replaced (old new s r : string) : Prop :=
  match old with
  | EmptyString => framed new s r
  | String _ _ => substituted old new s r
  end.

(** [decimal_of n digits]: [digits] is the decimal numeral of [n], without
    sign and without leading zeros. *)
Definition decimal_of (n : nat) (digits : string) : Prop :=
  dec_value digits = Some n /\
  (n = 0 -> digits = "0") /\
  (0 < n -> 10 ^ (String.length digits - 1) <= n).

(** [str_of v text]: [text] is [str(v)]. *)
Inductive str_of : pyval -> string -> Prop :=
| str_of_nat n digits :
    decimal_of n digits -> str_of (PyInt (Z.of_nat n)) digits
| str_of_negative n digits :
    0 < n -> decimal_of n digits ->
    str_of (PyInt (- Z.of_nat n)) ("-" ++ digits)
| str_of_text s : str_of (PyStr s) s
| str_of_float text : str_of (PyFloat text) text.

(** [params_substituted row_index table content final]: entry by entry in
    the order of the table, each placeholder has been replaced, over the
    whole content left by the entries before it, by [str] of its value in
    row [row_index]. *)
Inductive params_substituted (row_index : nat)
  : param_table -> string -> string -> Prop :=
| params_done content : params_substituted row_index [] content content
| params_entry placeholder column table v text content content' final :
    nth_error column row_index = Some v ->
    str_of v text ->
    replaced placeholder text content content' ->
    params_substituted row_index table content' final ->
    params_substituted row_index ((placeholder, column) :: table)
      content final.

(** [rules_substituted case replace_rules content final]: rule by rule in
    the order of the dict, each old text has been replaced, over the whole
    content left by the rules before it, by its new text, the new text
    [CASE_NUMBER] standing for the case identifier. *)
Inductive rules_substituted (case : string)
  : list (string * string) -> string -> string -> Prop :=
| rules_done content : rules_substituted case [] content content
| rules_entry old new replace_rules content content' final :
    replaced old (if (new =? "CASE_NUMBER")%string then case else new)
      content content' ->
    rules_substituted case replace_rules content' final ->
    rules_substituted case ((old, new) :: replace_rules) content final.

(** The passes over an auxiliary template in their order: [CaseName], then
    the rules, then the template's own name. *)
Definition custom_passes_spec (replace_rules : list (string * string))
    (display_name case content final : string) : Prop :=
  exists c1 c2,
    replaced "CaseName" case content c1 /\
    rules_substituted case replace_rules c1 c2 /\
    replaced ("template_" ++ fst (splitext display_name))
      (fst (splitext (suffixed_filename display_name case))) c2 final.

(** The passes of the macro branch in their order: [CaseName], then
    [template_Macro], then [SavePath], then the table. *)
Definition macro_passes_spec (table : param_table) (row_index : nat)
    (case macro_base save_path content final : string) : Prop :=
  exists c1 c2 c3,
    replaced "CaseName" case content c1 /\
    replaced "template_Macro" macro_base c1 c2 /\
    replaced "SavePath" save_path c2 c3 /\
    params_substituted row_index table c3 final.

(** The value that the parameter loop substitutes for one table entry at
    one row; the empty text stands in where the column is too short (the
    loop raises [IndexError] there). *)
Definition cell_text (column_value : list pyval) (row_index : nat) : string :=
  match nth_error column_value row_index with
  | Some v => py_str v
  | None => ""
  end.

(** The parameter loop as a function of the content. *)
Definition params_pass (table : param_table) (row_index : nat)
    (content : string) : string :=
  fold_left
    (fun content kv => replace (fst kv) (cell_text (snd kv) row_index) content)
    table content.

(** Characters that are neither a separator nor a dot. *)
Definition plain (c : ascii) : bool := negb (is_sep c) && negb (is_dot c).

(** The path that [required_template_body] writes for a template, by the
    extension of its display name. *)
Definition template_output_path (out display_name case : string) : string :=
  if endswith display_name ".sim" then sim_output_path out case
  else suffixed_output_path out display_name case.

(** The two files that a run over the templates of [get_required_templates]
    generates for case [i] of [N]. *)
Definition case_output_path (out : string) (N i : nat) : string :=
  sim_output_path out (case_number N i).

Definition macro_output_path (out : string) (N i : nat) : string :=
  suffixed_output_path out "Macro.java" (case_number N i).

(** The content of the generated macro file of case [i]: the three fixed
    passes, then the parameter loop, over the macro template [mc]. *)
Definition macro_content (table : param_table) (out : string) (N i : nat)
    (mc : string) : string :=
  params_pass table i
    (macro_fixed_passes out
       (suffixed_filename "Macro.java" (case_number N i))
       (case_number N i) mc).

(** The world is ready for a run of [N] cases: both templates exist, the
    macro template is UTF-8 text, every path to be generated can be written
    and is not a template. *)
Definition ready (w : world) (macro_path case_path mc cc out : string)
    (N : nat) : Prop :=
  files w macro_path = Some mc /\
  valid_utf8 mc = true /\
  files w case_path = Some cc /\
  forall i q, i < N ->
    q = case_output_path out N i \/ q = macro_output_path out N i ->
    unwritable w q = false /\ q <> macro_path /\ q <> case_path.

(** What generating case [i] does to the world, and a run of cases. *)
Definition row_effect (table : param_table) (out : string) (N : nat)
    (mc cc : string) (i : nat) (w : world) : world :=
  set_file (case_output_path out N i) cc
    (set_file (macro_output_path out N i) (macro_content table out N i mc)
       (set_file (macro_output_path out N i) mc w)).

Definition rows_effect (table : param_table) (out : string) (N : nat)
    (mc cc : string) (rows : list nat) (w : world) : world :=
  fold_left (fun w i => row_effect table out N mc cc i w) rows w.

(** The pieces of [execute_case] by name: the log directory of a batch,
    the command line of a job, its backup file, and the two facts its result
    depends on. *)
Definition log_dir_of (os : ospath) (output_folder_path : string) : string :=
  join os output_folder_path "execution_logs".

Definition case_of (os : ospath) (sim_file : string) : string :=
  fst (splitext (basename os sim_file)).

Definition command_of (os : ospath) (output_folder_path : string)
    (SimParallelNumber : Z) (o : job_oracle) (sim_file java_file : string)
  : string :=
  starccm_command os output_folder_path SimParallelNumber sim_file java_file
    (join os (log_dir_of os output_folder_path)
       (case_of os sim_file ++ "_" ++ timestamp o ++ ".log")).

Definition backup_of (os : ospath) (output_folder_path sim_file : string)
  : string :=
  join os output_folder_path (case_of os sim_file ++ ".sim~").

(** The tool was launched and exited with code 0. *)
Definition exit_code_zero (os : ospath) (output_folder_path : string)
    (SimParallelNumber : Z) (o : job_oracle) (sim_file java_file : string)
  : bool :=
  match os_system o
          (command_of os output_folder_path SimParallelNumber o
             sim_file java_file) with
  | Ok exit_code => (exit_code =? 0)%Z
  | Raise _ => false
  end.

(** The backup file was there and removing it raised. *)
Definition cleanup_raises (os : ospath) (output_folder_path : string)
    (o : job_oracle) (sim_file : string) : bool :=
  backup_exists o (backup_of os output_folder_path sim_file) &&
  match os_remove o (backup_of os output_folder_path sim_file) with
  | Ok _ => false
  | Raise _ => true
  end.

(** The reports of the jobs of a batch, in order of submission. *)
Definition batch_reports (os : ospath) (tool : nat -> job_oracle)
    (sim_files java_files : list string) (output_folder_path : string)
    (SimParallelNumber : Z) : list job_report :=
  submit_all os output_folder_path (log_dir_of os output_folder_path)
    SimParallelNumber tool 0 (combine sim_files java_files).

(** [os.makedirs(path, exist_ok=True)] goes through. *)
Definition can_makedirs (w : world) (path : string) : Prop :=
  dirs w path = true \/ (files w path = None /\ unwritable w path = false).

(** The world after the four log lines of a call of [CreatOutputFolder]
    with the empty path. *)
Definition after_empty_path (os : ospath) (w : world) : world :=
  add_log Error_check_path
    (add_log (Error_output_failed UnboundLocalError)
       (add_log (Info_default_output (join os (script_dir os) "batch_cases"))
          (add_log Info_output_header w))).

(** ** A concrete run

    Two templates on disk, nothing generated yet, every path writable. *)

Definition macro_template_path : string := "tpl/template_Macro.java".
Definition case_template_path : string := "tpl/template_Case.sim".

Definition macro_template_text : string :=
  "run template_Macro; export CaseName; save SavePath; temp = T".

Definition case_template_text : string := "inlet_temp = T".

Definition fresh_world : world :=
  mkWorld
    (fun q =>
       if (q =? macro_template_path)%string then Some macro_template_text
       else if (q =? case_template_path)%string then Some case_template_text
       else None)
    (fun _ => false) (fun _ => false) [] [].

(** The same disk, except that [out/Case2.sim] cannot be written. *)
Definition locked_world : world :=
  mkWorld (files fresh_world) (fun q => (q =? "out/Case2.sim")%string)
          (fun _ => false) [] [].

(** The same disk with a macro template saved in GBK: [D6 D0] is one
    Chinese character there, and no character of UTF-8. *)
Definition gbk_macro_text : string :=
  "// " ++ String (ascii_of_nat 214) (String (ascii_of_nat 208) "")
  ++ " CaseName".

Definition gbk_world : world :=
  mkWorld
    (fun q =>
       if (q =? macro_template_path)%string then Some gbk_macro_text
       else files fresh_world q)
    (fun _ => false) (fun _ => false) [] [].

Definition two_cases : param_table := [("T", [PyInt 300; PyInt 350])].

(** Values that hold the text of their own placeholder. *)
Definition echo_cases : param_table := [("T", [PyStr "T1"; PyStr "T2"])].

(** A placeholder and a value with a character in common. *)
Definition temp_macro_text : string := "dt = Temp; save SavePath".

Definition temp_world : world :=
  mkWorld
    (fun q =>
       if (q =? macro_template_path)%string then Some temp_macro_text
       else files fresh_world q)
    (fun _ => false) (fun _ => false) [] [].

Definition temp_cases : param_table :=
  [("Temp", [PyFloat "1e-05"; PyFloat "2e-05"])].

Definition three_cases : param_table := [("T", [PyInt 1; PyInt 2; PyInt 3])].

(** Columns of lengths 5, 3 and 5. *)
Definition ragged_table : param_table :=
  [("A", [PyInt 1; PyInt 2; PyInt 3; PyInt 4; PyInt 5]);
   ("B", [PyInt 6; PyInt 7; PyInt 8]);
   ("D", [PyInt 1; PyInt 2; PyInt 3; PyInt 4; PyInt 5])].

Definition standard_templates : list (string * string) :=
  required_templates_at macro_template_path case_template_path.

(** ** A concrete batch *)

(** Path functions of a POSIX-like platform whose working directory is
    [/work]. *)
Definition work_os : ospath :=
  mkOsPath
    (fun p => match rfind is_sep p with Some k => drop (S k) p | None => p end)
    (fun a b => a ++ "/" ++ b)
    (fun p => if prefix "/" p then p else "/work/" ++ p)
    "/work".

Definition stamp : string := "20240101_120000".

(** Every job exits with code 0 and finds no backup file. *)
Definition all_pass (i : nat) : job_oracle :=
  mkOracle stamp (fun _ => Ok 0%Z) (fun _ => false) (fun _ => Ok tt).

(** Job 1 exits with code 1. *)
Definition second_fails (i : nat) : job_oracle :=
  mkOracle stamp (fun _ => if Nat.eqb i 1 then Ok 1%Z else Ok 0%Z)
           (fun _ => false) (fun _ => Ok tt).

(** Every job exits with code 0, finds its backup file and cannot remove
    it. *)
Definition cleanup_denied (i : nat) : job_oracle :=
  mkOracle stamp (fun _ => Ok 0%Z) (fun _ => true)
           (fun _ => Raise PermissionError).

Definition three_sims : list string :=
  ["out/Case1.sim"; "out/Case2.sim"; "out/Case3.sim"].

Definition three_javas : list string :=
  ["out/Macro_Case1.java"; "out/Macro_Case2.java"; "out/Macro_Case3.java"].

(** ** A concrete auxiliary template

    One auxiliary template next to the two required ones, and a
    configuration that gives [CaseName] a replacement text of its own. *)

Definition report_listing : list (string * bool) :=
  [("template_Macro.java", true); ("template_Report.txt", true);
   ("template_Case.sim", true); ("notes.txt", true)].

Definition report_template_text : string :=
  "report of CaseName, made from template_Report".

Definition report_world : world :=
  mkWorld
    (fun q =>
       if (q =? "tpl/template_Report.txt")%string
       then Some report_template_text
       else files fresh_world q)
    (fun _ => false) (fun _ => false) [] [].

Definition configured_rules : list (string * string) :=
  [("CaseName", "RUN-A")].

(* ================================================================== *)
(** * Part I, continued: the rest of the script                        *)
(* ================================================================== *)

(** ** What a run returns, read off the templates

    The templates of each branch of [required_template_body], and the two
    lists that a run over [N] rows appends to, row by row. *)

Definition is_sim_template (tpl : string * string) : bool :=
  endswith (fst tpl) ".sim".

Definition is_java_template (tpl : string * string) : bool :=
  negb (endswith (fst tpl) ".sim") && endswith (fst tpl) ".java".

Definition planned_sim_files (required_templates : list (string * string))
    (out : string) (N : nat) : list string :=
  flat_map
    (fun i =>
       map (fun _ => sim_output_path out (case_number N i))
           (filter is_sim_template required_templates))
    (seq 0 N).

Definition planned_java_files (required_templates : list (string * string))
    (out : string) (N : nat) : list string :=
  flat_map
    (fun i =>
       map (fun tpl => suffixed_output_path out (fst tpl) (case_number N i))
           (filter is_java_template required_templates))
    (seq 0 N).

(** The locals [(sim_files, java_files)] after one template step that
    returned. *)
Definition lists_after (out case : string) (tpl : string * string)
    (lists : list string * list string) : list string * list string :=
  if endswith (fst tpl) ".sim"
  then ((fst lists ++ [sim_output_path out case])%list, snd lists)
  else if endswith (fst tpl) ".java"
       then (fst lists,
             (snd lists ++ [suffixed_output_path out (fst tpl) case])%list)
       else lists.

(** The exceptions of the file system. *)
Definition file_error (e : exn) : bool :=
  match e with
  | SameFileError | FileNotFoundError | PermissionError => true
  | _ => false
  end.

(** What [normalize_path] does to one character. *)
Definition normalize_char (c : ascii) : ascii :=
  if Ascii.eqb c backslash then "/"%char else c.

(** ** [get_required_templates] *)

Inductive templates_event : Type :=
| Error_template_missing (display_name path : string).

(** The dict of templates, or the [exit(1)] of a missing template. *)
Inductive templates_result : Type :=
| Templates (required_templates : list (string * string))
| SystemExit (code : Z).

(** [os.path.isfile] *)
Definition is_file (w : world) (path : string) : bool :=
  match files w path with
  | Some _ => true
  | None => false
  end.

(** The literal dict [required], in its order. *)
Definition required_file_names : list (string * string) :=
  [("Macro.java", "template_Macro.java"); ("Case.sim", "template_Case.sim")].

(** The loop [for display_name, file_name in required.items()];
    [file_dir] is [os.path.dirname(__file__)]. *)
Fixpoint collect_required (os : ospath) (file_dir : string) (w : world)
    (required : list (string * string))
    (required_templates : list (string * string))
  : list templates_event * templates_result :=
  match required with
  | [] => ([], Templates required_templates)
  | (display_name, file_name) :: required' =>
      let path := normalize_path (join os file_dir file_name) in
      if negb (is_file w path)
      then ([Error_template_missing display_name path], SystemExit 1)
      else collect_required os file_dir w required'
             (dict_set display_name path required_templates)
  end.

Definition get_required_templates (os : ospath) (file_dir : string)
    (w : world) : list templates_event * templates_result :=
  collect_required os file_dir w required_file_names [].

(** ** Notions for the batch executor *)

(** [os.path.basename] gives back a name put behind a directory and a
    slash, as both flavours of [os.path] do for a name without separators. *)
Definition basename_takes_last (os : ospath) : Prop :=
  forall dir name,
    forallb_string (fun c => negb (is_sep c)) name = true ->
    basename os (dir ++ "/" ++ name) = name.

(** [os.makedirs(path, exist_ok=True)] goes through, as a test. *)
Definition can_makedirs_b (w : world) (path : string) : bool :=
  dirs w path || (negb (is_file w path) && negb (unwritable w path)).

(** ** Notions for a run of [process_custom_templates] *)

(** The path and the content generated for the auxiliary template
    [display_name] in case [i] of [N]. *)
Definition custom_output_path (out : string) (N : nat)
    (display_name : string) (i : nat) : string :=
  suffixed_output_path out display_name (case_number N i).

Definition custom_content (replace_rules : list (string * string)) (N : nat)
    (display_name : string) (i : nat) (content : string) : string :=
  custom_passes replace_rules display_name
    (suffixed_filename display_name (case_number N i))
    (case_number N i) content.

(** The steps of a run in the order of the two loops: rows outside,
    templates inside. *)
Definition custom_steps (custom_templates : list (string * string))
    (N : nat) : list (nat * (string * string)) :=
  flat_map (fun i => map (pair i) custom_templates) (seq 0 N).

Definition step_output (out : string) (N : nat)
    (step : nat * (string * string)) : string :=
  custom_output_path out N (fst (snd step)) (fst step).

Definition planned_custom_files (custom_templates : list (string * string))
    (out : string) (N : nat) : list string :=
  map (step_output out N) (custom_steps custom_templates N).

(** What one step does to the world when its template is there. *)
Definition custom_step_effect (replace_rules : list (string * string))
    (out : string) (N : nat) (step : nat * (string * string)) (w : world)
  : world :=
  match files w (snd (snd step)) with
  | Some content =>
      set_file (step_output out N step)
        (custom_content replace_rules N (fst (snd step)) (fst step) content)
        (set_file (step_output out N step) content w)
  | None => w
  end.

Definition custom_run_effect (replace_rules : list (string * string))
    (out : string) (N : nat) (steps : list (nat * (string * string)))
    (w : world) : world :=
  fold_left (fun w step => custom_step_effect replace_rules out N step w)
            steps w.

(** The world is ready for a run over [N] rows: every template exists and
    is UTF-8 text, every path to be generated can be written and is not a
    template. *)
Definition custom_ready (w : world) (custom_templates : list (string * string))
    (out : string) (N : nat) : Prop :=
  (forall tpl, In tpl custom_templates ->
     exists content,
       files w (snd tpl) = Some content /\ valid_utf8 content = true) /\
  (forall step, In step (custom_steps custom_templates N) ->
     unwritable w (step_output out N step) = false /\
     forall tpl, In tpl custom_templates ->
       snd tpl <> step_output out N step).

(** What every world met during a run has in common with the first one,
    [w0]: the templates and what can be written. *)
Definition same_inputs (custom_templates : list (string * string))
    (w0 w : world) : Prop :=
  (forall tpl, In tpl custom_templates ->
     files w (snd tpl) = files w0 (snd tpl)) /\
  unwritable w = unwritable w0.

(** ** [ParamMappingCreation] *)

(** The sheet as [pd.read_excel] hands it over: named columns, each as
    long as the frame. *)
Record dataframe : Type := mkDataFrame {
  df_columns : list (string * list pyval);
  df_len : nat
}.

(** What pandas keeps true of a frame: every column has [len(df)] cells. *)
Definition df_wf (df : dataframe) : Prop :=
  forall col, In col (df_columns df) -> List.length (snd col) = df_len df.

(** [t[k]] and [t[k] = v] for a dict with values of any type. *)
Fixpoint table_get {V : Type} (k : string) (t : list (string * V))
  : option V :=
  match t with
  | [] => None
  | (k', v') :: t' => if (k' =? k)%string then Some v' else table_get k t'
  end.

Fixpoint table_set {V : Type} (k : string) (v : V) (t : list (string * V))
  : list (string * V) :=
  match t with
  | [] => [(k, v)]
  | (k', v') :: t' =>
      if (k' =? k)%string then (k, v) :: t' else (k', v') :: table_set k v t'
  end.

(** [col in df.columns] *)
Definition df_has (df : dataframe) (column : string) : bool :=
  existsb (String.eqb column) (map fst (df_columns df)).

Inductive mapping_event : Type :=
| Error_default_file_missing (file_path : string)
| Error_read_excel (e : exn)
| Error_missing_columns (columns : list string)
| Info_mapped (param column : string)
| Warning_default_zero (param : string).

(** The dict returned, the [None] returned, or the [KeyError] of
    [df[column]]. *)
Inductive mapping_result : Type :=
| Mapping (MacroParamToReplaceValue : param_table)
| NoMapping
| MappingKeyError (column : string).

(** The loop [for param in MacroParamToReplace]. *)
Fixpoint map_params (ParamMapping : list (string * string)) (df : dataframe)
    (params : list string) (acc : param_table) (events : list mapping_event)
  : list mapping_event * mapping_result :=
  match params with
  | [] => (events, Mapping acc)
  | param :: params' =>
      match dict_get param ParamMapping with
      | Some column =>
          match table_get column (df_columns df) with
          | Some values =>
              map_params ParamMapping df params'
                (table_set param values acc)
                (events ++ [Info_mapped param column])%list
          | None => (events, MappingKeyError column)
          end
      | None =>
          map_params ParamMapping df params'
            (table_set param (repeat (PyInt 0) (df_len df)) acc)
            (events ++ [Warning_default_zero param])%list
      end
  end.

(** [read_excel] is [pd.read_excel] on the path: a frame, or what it
    raised. *)
Definition ParamMappingCreation (os : ospath) (w : world)
    (read_excel : string -> outcome dataframe)
    (MacroParamToReplace : list string) (ParamMapping : list (string * string))
  : list mapping_event * mapping_result :=
  let file_path := join os (script_dir os) "CasePlan.xlsx" in
  if negb (is_file w file_path)
  then ([Error_default_file_missing file_path], NoMapping)
  else
    match read_excel file_path with
    | Raise e => ([Error_read_excel e], NoMapping)
    | Ok df =>
        let missing_columns :=
          filter (fun col => negb (df_has df col)) (map snd ParamMapping) in
        match missing_columns with
        | _ :: _ => ([Error_missing_columns missing_columns], NoMapping)
        | [] => map_params ParamMapping df MacroParamToReplace [] []
        end
    end.

(** ** A concrete sheet *)

Definition plan_world : world :=
  mkWorld
    (fun q =>
       if (q =? "/work/CasePlan.xlsx")%string then Some "xlsx"
       else files fresh_world q)
    (fun _ => false) (fun _ => false) [] [].

Definition plan_frame : dataframe :=
  mkDataFrame
    [("Temperature", [PyInt 300; PyInt 350]);
     ("Velocity", [PyFloat "1.5"; PyFloat "2.5"])]
    2.

Definition plan_mapping : list (string * string) :=
  [("T", "Temperature"); ("V", "Velocity")].

(* ================================================================== *)
(** * Part II: properties                                               *)
(* ================================================================== *)

#[local] Arguments Nat.div : simpl never.
#[local] Arguments Nat.modulo : simpl never.
#[local] Arguments Nat.pow : simpl never.
#[local] Arguments digit_char : simpl never.

(** ** Strings *)

Section StringFacts.

Lemma append_nil_r (s : string) : s ++ "" = s.
Proof. induction s; simpl; congruence. Qed.

Lemma append_assoc (a b c : string) : (a ++ b) ++ c = a ++ (b ++ c).
Proof. induction a; simpl; congruence. Qed.

Lemma length_append (a b : string) :
  String.length (a ++ b) = String.length a + String.length b.
Proof. induction a; simpl; auto. Qed.

Lemma append_inv_head (a b c : string) : a ++ b = a ++ c -> b = c.
Proof. induction a; simpl; intros H; [assumption | injection H; auto]. Qed.

Lemma prefix_app (p t : string) : prefix p (p ++ t) = true.
Proof.
  induction p as [|c p IH]; simpl.
  - destruct t; reflexivity.
  - destruct (ascii_dec c c); [assumption | congruence].
Qed.

Lemma prefix_split (p s : string) :
  prefix p s = true -> s = p ++ drop (String.length p) s.
Proof.
  revert s; induction p as [|c p IH]; intros s H; simpl.
  - reflexivity.
  - destruct s as [|d s]; simpl in H; [discriminate|].
    destruct (ascii_dec c d); [subst | discriminate].
    simpl. f_equal. auto.
Qed.

Lemma prefix_nil (s : string) : prefix "" s = true.
Proof. destruct s; reflexivity. Qed.

Lemma prefix_cons (c d : ascii) (p s : string) :
  prefix (String c p) (String d s) = Ascii.eqb c d && prefix p s.
Proof.
  simpl. destruct (ascii_dec c d) as [->|N].
  - now rewrite Ascii.eqb_refl.
  - apply Ascii.eqb_neq in N. now rewrite N.
Qed.

Lemma length_drop (n : nat) (s : string) :
  String.length (drop n s) = String.length s - n.
Proof.
  revert s; induction n; intros [|c s]; simpl; auto.
Qed.

Lemma drop_app (a b : string) : drop (String.length a) (a ++ b) = b.
Proof. induction a; simpl; auto. Qed.

Lemma contains_cons (p : string) (c : ascii) (s : string) :
  contains p (String c s) = prefix p (String c s) || contains p s.
Proof. reflexivity. Qed.

Lemma contains_nil (p : string) : contains p "" = prefix p "".
Proof. simpl. now rewrite orb_false_r. Qed.

Lemma contains_app_r (p a s : string) :
  contains p s = true -> contains p (a ++ s) = true.
Proof.
  intros H. induction a as [|c a IH]; simpl; [assumption|].
  change (contains p (a ++ s)) with (contains p (a ++ s)).
  rewrite IH. apply orb_true_r.
Qed.

End StringFacts.

(** ** Decimal rendering *)

Section Decimal.

Lemma zeros_length (n : nat) : String.length (zeros n) = n.
Proof. induction n; simpl; auto. Qed.

Lemma zeros_snoc (n : nat) (s : string) :
  zeros n ++ String "0" s = zeros (S n) ++ s.
Proof. induction n; simpl in *; congruence. Qed.

Lemma fixed_digits_app (k n : nat) (acc : string) :
  fixed_digits k n acc = fixed_digits k n "" ++ acc.
Proof.
  revert n acc; induction k as [|k IH]; intros n acc; simpl; [reflexivity|].
  rewrite IH, (IH _ (String _ "")), append_assoc. reflexivity.
Qed.

Lemma fixed_digits_length (k n : nat) (acc : string) :
  String.length (fixed_digits k n acc) = k + String.length acc.
Proof.
  revert n acc; induction k as [|k IH]; intros n acc; simpl; [reflexivity|].
  rewrite IH. simpl. lia.
Qed.

Lemma fixed_digits_zero (j : nat) (acc : string) :
  fixed_digits j 0 acc = zeros j ++ acc.
Proof.
  revert acc; induction j as [|j IH]; intros acc; [reflexivity|].
  change (fixed_digits (S j) 0 acc)
    with (fixed_digits j 0 (String "0" acc)).
  rewrite IH. apply zeros_snoc.
Qed.

Lemma fixed_digits_small (j k n : nat) (acc : string) :
  n < 10 ^ k -> fixed_digits (j + k) n acc = zeros j ++ fixed_digits k n acc.
Proof.
  revert n acc; induction k as [|k IH]; intros n acc Hn.
  - rewrite Nat.pow_0_r in Hn. assert (n = 0) by lia. subst.
    rewrite Nat.add_0_r. apply fixed_digits_zero.
  - rewrite Nat.add_succ_r. simpl fixed_digits. apply IH.
    rewrite Nat.pow_succ_r' in Hn.
    pose proof (Nat.div_mod_eq n 10). 
    pose proof (Nat.mod_upper_bound n 10). lia.
Qed.

(** [str_digits] with enough fuel writes exactly the significant digits. *)
Lemma str_digits_fixed (fuel n : nat) (acc : string) :
  n < fuel ->
  exists k, 1 <= k /\ str_digits fuel n acc = fixed_digits k n acc /\
            n < 10 ^ k /\ (0 < n -> 10 ^ (k - 1) <= n).
Proof.
  revert n acc; induction fuel as [|fuel IH]; intros n acc Hf; [lia|].
  simpl str_digits. destruct (Nat.ltb_spec n 10) as [Hlt|Hge].
  - exists 1. change (10 ^ 1) with 10. change (10 ^ (1 - 1)) with 1.
    split; [lia|]. split; [reflexivity|]. split; [lia|]. lia.
  - pose proof (Nat.div_mod_eq n 10) as Hdm.
    pose proof (Nat.mod_upper_bound n 10) as Hmod.
    destruct (IH (n / 10) (String (digit_char (n mod 10)) acc)) as
      (k & Hk & Heq & Hub & Hlb); [lia|].
    exists (S k). split; [lia|]. split; [|split].
    + rewrite Heq. reflexivity.
    + rewrite Nat.pow_succ_r'. lia.
    + intros _. replace (S k - 1) with (S (k - 1)) by lia.
      rewrite Nat.pow_succ_r'.
      assert (10 ^ (k - 1) <= n / 10) by (apply Hlb; lia).
      lia.
Qed.

Lemma str_nat_fixed (n : nat) :
  str_nat n = fixed_digits (num_digits n) n "" /\
  1 <= num_digits n /\ n < 10 ^ num_digits n /\
  (0 < n -> 10 ^ (num_digits n - 1) <= n).
Proof.
  unfold num_digits, str_nat.
  destruct (str_digits_fixed (S n) n "") as (k & Hk & Heq & Hub & Hlb); [lia|].
  rewrite Heq, fixed_digits_length. simpl String.length.
  rewrite Nat.add_0_r. auto.
Qed.

Lemma num_digits_mono (m n : nat) : m <= n -> num_digits m <= num_digits n.
Proof.
  intros Hmn.
  destruct (str_nat_fixed m) as (_ & Hm1 & _ & Hml).
  destruct (str_nat_fixed n) as (_ & Hn1 & Hnu & _).
  destruct (Nat.eq_dec m 0) as [->|Hpos]; [change (num_digits 0) with 1; lia|].
  assert (H : 10 ^ (num_digits m - 1) < 10 ^ num_digits n) by (specialize (Hml ltac:(lia)); lia).
  apply Nat.pow_lt_mono_r_iff in H; lia.
Qed.

(** Within the width of [N], [format_0d] is the fixed-width rendering. *)
Lemma format_0d_fixed (N x : nat) :
  x <= N -> format_0d (num_digits N) x = fixed_digits (num_digits N) x "".
Proof.
  intros Hx. unfold format_0d.
  pose proof (num_digits_mono x N Hx) as Hle.
  destruct (str_nat_fixed x) as (Heq & _ & Hub & _).
  fold (num_digits x). rewrite Heq.
  replace (num_digits N) with ((num_digits N - num_digits x) + num_digits x) at 2 by lia.
  symmetry. apply fixed_digits_small. assumption.
Qed.

End Decimal.

(** ** Lexicographic order on renderings of equal width *)

Section Lexicographic.

Lemma ascii_compare_refl (c : ascii) : Ascii.compare c c = Eq.
Proof. unfold Ascii.compare. apply N.compare_refl. Qed.

Lemma compare_app_same (p u v : string) :
  String.compare (p ++ u) (p ++ v) = String.compare u v.
Proof.
  induction p as [|c p IH]; simpl; [reflexivity|].
  now rewrite ascii_compare_refl.
Qed.

Lemma string_compare_refl (s : string) : String.compare s s = Eq.
Proof.
  rewrite <- (append_nil_r s), compare_app_same. reflexivity.
Qed.

Lemma compare_app_lt (s t u v : string) :
  String.length s = String.length t ->
  String.compare s t = Lt -> String.compare (s ++ u) (t ++ v) = Lt.
Proof.
  revert t; induction s as [|c s IH]; intros [|d t] Hlen H; simpl in *;
    try discriminate.
  destruct (Ascii.compare c d); try discriminate; auto.
Qed.

Lemma nat_of_digit_char (d : nat) : d < 10 -> nat_of_ascii (digit_char d) = 48 + d.
Proof. intros Hd. unfold digit_char. apply nat_ascii_embedding. lia. Qed.

Lemma digit_char_lt (a b : nat) :
  a < b -> b < 10 -> Ascii.compare (digit_char a) (digit_char b) = Lt.
Proof.
  intros Hab Hb. unfold Ascii.compare.
  pose proof (nat_of_digit_char a ltac:(lia)) as Ha.
  pose proof (nat_of_digit_char b Hb) as Hb'.
  unfold nat_of_ascii in Ha, Hb'.
  apply N.compare_lt_iff. lia.
Qed.

Lemma fixed_digits_snoc (k n : nat) :
  fixed_digits (S k) n "" =
  fixed_digits k (n / 10) "" ++ String (digit_char (n mod 10)) "".
Proof. simpl. apply fixed_digits_app. Qed.

(** Among numbers below [10 ^ k], the [k]-digit renderings are ordered as
    the numbers are. *)
Lemma fixed_digits_lt (k a b : nat) :
  a < b -> b < 10 ^ k ->
  String.compare (fixed_digits k a "") (fixed_digits k b "") = Lt.
Proof.
  revert a b; induction k as [|k IH]; intros a b Hab Hb.
  - rewrite Nat.pow_0_r in Hb. lia.
  - rewrite !fixed_digits_snoc.
    rewrite Nat.pow_succ_r' in Hb.
    pose proof (Nat.div_mod_eq a 10). pose proof (Nat.div_mod_eq b 10).
    pose proof (Nat.mod_upper_bound a 10). pose proof (Nat.mod_upper_bound b 10).
    destruct (Nat.eq_dec (a / 10) (b / 10)) as [E|NE].
    + rewrite E, compare_app_same. cbn [String.compare].
      rewrite digit_char_lt by lia. reflexivity.
    + apply compare_app_lt.
      * now rewrite !fixed_digits_length.
      * apply IH; lia.
Qed.

Lemma digit_val_digit_char (d : nat) : d < 10 -> digit_val (digit_char d) = Some d.
Proof.
  intros Hd. unfold digit_val. rewrite nat_of_digit_char by assumption.
  destruct (Nat.leb_spec 48 (48 + d)); [|lia].
  destruct (Nat.leb_spec (48 + d) 57); [|lia].
  cbn [andb]. f_equal. lia.
Qed.

Lemma dec_value_from_app (s t : string) (acc : nat) :
  dec_value_from acc (s ++ t) =
  match dec_value_from acc s with
  | Some a => dec_value_from a t
  | None => None
  end.
Proof.
  revert acc; induction s as [|c s IH]; intros acc; simpl; [reflexivity|].
  destruct (digit_val c); auto.
Qed.

(** Reading a fixed-width rendering back gives the number. *)
Lemma dec_value_from_fixed (k n acc : nat) :
  n < 10 ^ k ->
  dec_value_from acc (fixed_digits k n "") = Some (acc * 10 ^ k + n).
Proof.
  revert n; induction k as [|k IH]; intros n Hn.
  - rewrite Nat.pow_0_r in *. cbn [fixed_digits dec_value_from]. f_equal. lia.
  - rewrite fixed_digits_snoc, dec_value_from_app.
    rewrite Nat.pow_succ_r' in *.
    pose proof (Nat.div_mod_eq n 10). pose proof (Nat.mod_upper_bound n 10).
    rewrite IH by lia. cbn [dec_value_from].
    rewrite digit_val_digit_char by lia. f_equal. lia.
Qed.

(** A decimal digit is the character of its value. *)
Lemma digit_val_inv (c : ascii) (d : nat) :
  digit_val c = Some d -> d < 10 /\ c = digit_char d.
Proof.
  unfold digit_val, digit_char.
  destruct (Nat.leb_spec 48 (nat_of_ascii c)) as [Hlo|]; [|discriminate].
  destruct (Nat.leb_spec (nat_of_ascii c) 57) as [Hhi|]; [|discriminate].
  cbn [andb]. intros H. injection H as <-. split; [lia|].
  replace (48 + (nat_of_ascii c - 48)) with (nat_of_ascii c) by lia.
  now rewrite ascii_nat_embedding.
Qed.

(** The fixed-width rendering, read from its first digit. *)
Lemma fixed_digits_first (k d x : nat) :
  d < 10 -> x < 10 ^ k ->
  fixed_digits (S k) (d * 10 ^ k + x) ""
  = String (digit_char d) (fixed_digits k x "").
Proof.
  revert x; induction k as [|k IH]; intros x Hd Hx.
  - rewrite Nat.pow_0_r in *. assert (x = 0) by lia. subst.
    cbn [fixed_digits]. rewrite Nat.mul_1_r, Nat.add_0_r.
    now rewrite Nat.mod_small by assumption.
  - rewrite fixed_digits_snoc, (fixed_digits_snoc k x).
    rewrite Nat.pow_succ_r' in *.
    pose proof (Nat.div_mod_eq x 10) as Hdm.
    pose proof (Nat.mod_upper_bound x 10 ltac:(lia)) as Hm.
    assert (Hq : (d * (10 * 10 ^ k) + x) / 10 = d * 10 ^ k + x / 10).
    { replace (d * (10 * 10 ^ k) + x) with (x + (d * 10 ^ k) * 10) by lia.
      rewrite Nat.div_add by lia. lia. }
    assert (Hr : (d * (10 * 10 ^ k) + x) mod 10 = x mod 10).
    { replace (d * (10 * 10 ^ k) + x) with (x + (d * 10 ^ k) * 10) by lia.
      now rewrite Nat.Div0.mod_add. }
    rewrite Hq, Hr, IH by lia. reflexivity.
Qed.

(** A string of digits is the fixed-width rendering of its value. *)
Lemma dec_value_from_inv (s : string) (acc m : nat) :
  dec_value_from acc s = Some m ->
  exists x, x < 10 ^ String.length s /\
            m = acc * 10 ^ String.length s + x /\
            s = fixed_digits (String.length s) x "".
Proof.
  revert acc; induction s as [|c s IH]; intros acc H.
  - cbn [dec_value_from] in H. injection H as <-. exists 0.
    cbn [String.length fixed_digits]. rewrite Nat.pow_0_r. repeat split; lia.
  - cbn [dec_value_from] in H.
    destruct (digit_val c) as [d|] eqn:Hc; [|discriminate].
    apply digit_val_inv in Hc as [Hd ->].
    destruct (IH _ H) as (x & Hx & -> & Hs).
    exists (d * 10 ^ String.length s + x).
    cbn [String.length]. rewrite Nat.pow_succ_r'.
    set (P := 10 ^ String.length s) in *.
    split; [nia|]. split; [nia|].
    unfold P. rewrite fixed_digits_first by assumption. now rewrite <- Hs.
Qed.

(** A number has one decimal numeral. *)
Lemma decimal_of_functional (n : nat) (d1 d2 : string) :
  decimal_of n d1 -> decimal_of n d2 -> d1 = d2.
Proof.
  intros (V1 & Z1 & L1) (V2 & Z2 & L2).
  destruct (Nat.eq_dec n 0) as [->|Hn]; [now rewrite Z1, Z2|].
  assert (H : forall d, dec_value d = Some n ->
                1 <= String.length d /\ n < 10 ^ String.length d /\
                d = fixed_digits (String.length d) n "").
  { intros d V. unfold dec_value in V. destruct d as [|c d]; [discriminate|].
    apply dec_value_from_inv in V as (x & Hx & E & Hd).
    cbn [Nat.mul Nat.add] in E. subst x.
    split; [cbn [String.length]; lia|]. now split. }
  destruct (H d1 V1) as (K1 & U1 & E1). destruct (H d2 V2) as (K2 & U2 & E2).
  specialize (L1 ltac:(lia)). specialize (L2 ltac:(lia)).
  assert (Hlen : String.length d1 = String.length d2).
  { destruct (Nat.lt_trichotomy (String.length d1) (String.length d2))
      as [Hlt|[E|Hlt]]; [|exact E|].
    - assert (10 ^ String.length d1 <= 10 ^ (String.length d2 - 1))
        by (apply Nat.pow_le_mono_r; lia). lia.
    - assert (10 ^ String.length d2 <= 10 ^ (String.length d1 - 1))
        by (apply Nat.pow_le_mono_r; lia). lia. }
  rewrite E1, E2, Hlen. reflexivity.
Qed.


(** [str] of a natural number is its decimal numeral. *)
Lemma str_nat_decimal (n : nat) : decimal_of n (str_nat n).
Proof.
  destruct (str_nat_fixed n) as (E & Hk & Hub & Hlb).
  split; [|split].
  - rewrite E. unfold dec_value.
    destruct (fixed_digits (num_digits n) n "") eqn:F.
    + apply (f_equal String.length) in F.
      rewrite fixed_digits_length in F. simpl in F. lia.
    + rewrite <- F. rewrite dec_value_from_fixed by assumption. f_equal.
  - intros ->. reflexivity.
  - exact Hlb.
Qed.

(** [str] of a cell value. *)
Lemma py_str_spec (v : pyval) : str_of v (py_str v).
Proof.
  destruct v as [z|s|text]; cbn [py_str]; [|constructor|constructor].
  unfold str_Z. destruct (Z.ltb_spec z 0) as [Hneg|Hpos].
  - replace (PyInt z) with (PyInt (- Z.of_nat (Z.to_nat (- z))))
      by (f_equal; lia).
    apply str_of_negative; [lia | apply str_nat_decimal].
  - replace (PyInt z) with (PyInt (Z.of_nat (Z.to_nat z))) by (f_equal; lia).
    apply str_of_nat, str_nat_decimal.
Qed.

(** A cell value has one [str]. *)
Lemma str_of_functional (v : pyval) (t1 t2 : string) :
  str_of v t1 -> str_of v t2 -> t1 = t2.
Proof.
  intros H1 H2. destruct H1 as [n d Hd|n d Hn Hd|s|text].
  - inversion H2 as [n' d' Hd' E|n' d' Hn' Hd' E| |]; subst.
    + apply Nat2Z.inj in E. subst. exact (decimal_of_functional _ _ _ Hd Hd').
    + lia.
  - inversion H2 as [n' d' Hd' E|n' d' Hn' Hd' E| |]; subst.
    + lia.
    + assert (n' = n) by lia. subst. f_equal.
      exact (decimal_of_functional _ _ _ Hd Hd').
  - now inversion H2.
  - now inversion H2.
Qed.

End Lexicographic.

(** ** Case identifiers *)

Section CaseIdentifiers.

Lemma case_number_fixed (N i : nat) :
  i < N ->
  case_number N i = "Case" ++ fixed_digits (num_digits N) (i + 1) "".
Proof.
  intros Hi. unfold case_number. now rewrite format_0d_fixed by lia.
Qed.

Lemma case_number_lt (N i j : nat) :
  i < j -> j < N ->
  String.compare (case_number N i) (case_number N j) = Lt.
Proof.
  intros Hij Hj. rewrite !case_number_fixed by lia.
  rewrite compare_app_same. apply fixed_digits_lt; [lia|].
  destruct (str_nat_fixed N) as (_ & _ & Hub & _). lia.
Qed.

Lemma case_number_inj (N i j : nat) :
  i < N -> j < N -> case_number N i = case_number N j -> i = j.
Proof.
  intros Hi Hj E.
  destruct (Nat.lt_trichotomy i j) as [L|[->|L]]; [|reflexivity|].
  - pose proof (case_number_lt N i j L Hj) as C.
    rewrite E, string_compare_refl in C. discriminate.
  - pose proof (case_number_lt N j i L Hi) as C.
    rewrite E, string_compare_refl in C. discriminate.
Qed.

(** C3.  For the [N] cases of a run, the width [w = len(str(N))] is the
    number of decimal digits of [N]; the identifier of case [i] is [Case]
    followed by exactly [w] decimal digits that read back as [i + 1], the
    decimal numeral of [i + 1] behind enough zeros; every identifier has
    the same length; two different cases have different identifiers; and
    the identifiers are in strictly ascending lexicographic order when the
    indices are. *)
Theorem case_number_zero_padded_distinct_sorted (N i j : nat) :
  i < N -> j < N ->
  (1 <= num_digits N /\
   10 ^ (num_digits N - 1) <= N /\ N < 10 ^ num_digits N) /\
  (exists digits numeral,
      case_number N i = "Case" ++ digits /\
      decimal_of (i + 1) numeral /\
      digits = zeros (num_digits N - String.length numeral) ++ numeral /\
      String.length digits = num_digits N /\
      dec_value digits = Some (i + 1)) /\
  String.length (case_number N i) = String.length (case_number N j) /\
  (i <> j -> case_number N i <> case_number N j) /\
  (i < j -> String.ltb (case_number N i) (case_number N j) = true).
Proof.
  intros Hi Hj.
  destruct (str_nat_fixed N) as (_ & Hw & Hub & Hlb).
  split; [|split; [|split; [|split]]].
  - split; [exact Hw|]. split; [apply Hlb; lia | exact Hub].
  - exists (format_0d (num_digits N) (i + 1)), (str_nat (i + 1)).
    split; [reflexivity|]. split; [apply str_nat_decimal|].
    split; [reflexivity|].
    rewrite format_0d_fixed by lia.
    rewrite fixed_digits_length. split; [simpl; lia|].
    unfold dec_value.
    destruct (fixed_digits (num_digits N) (i + 1) "") eqn:E.
    + apply (f_equal String.length) in E.
      rewrite fixed_digits_length in E. simpl in E. lia.
    + rewrite <- E. rewrite dec_value_from_fixed by lia. f_equal.
  - rewrite !case_number_fixed by assumption.
    rewrite !length_append, !fixed_digits_length. reflexivity.
  - intros Hne E. apply Hne. eapply case_number_inj; eauto.
  - intros Hij. unfold String.ltb. now rewrite case_number_lt.
Qed.

Lemma case_number_zero_padded_distinct_sorted_witness :
  (1 <= num_digits 12 /\
   10 ^ (num_digits 12 - 1) <= 12 /\ 12 < 10 ^ num_digits 12) /\
  (exists digits numeral,
      case_number 12 2 = "Case" ++ digits /\
      decimal_of (2 + 1) numeral /\
      digits = zeros (num_digits 12 - String.length numeral) ++ numeral /\
      String.length digits = num_digits 12 /\
      dec_value digits = Some (2 + 1)) /\
  String.length (case_number 12 2) = String.length (case_number 12 9) /\
  (2 <> 9 -> case_number 12 2 <> case_number 12 9) /\
  (2 < 9 -> String.ltb (case_number 12 2) (case_number 12 9) = true).
Proof.
  apply (case_number_zero_padded_distinct_sorted 12 2 9); lia.
Defined.

(** Twelve cases: two digits, and the third case is [Case03]. *)
Example case_number_of_twelve :
  num_digits 12 = 2 /\ case_number 12 2 = "Case03" /\
  case_number 12 11 = "Case12" /\ case_number 3 2 = "Case3".
Proof. repeat split; reflexivity. Qed.

End CaseIdentifiers.

(** ** [str.replace] *)

Section Replace.

Lemma intersperse_weave (new s : string) : weave new s (intersperse new s).
Proof.
  induction s as [|c s IH]; cbn [intersperse].
  - rewrite <- (append_nil_r new) at 2.
    apply (weave_ins new "" "" ""). constructor.
  - destruct (is_continuation c).
    + now apply weave_keep.
    + apply (weave_ins new "" (String c s)). now constructor.
Qed.

Lemma replace_scan_weave (old new : string) :
  old <> "" ->
  forall fuel s, String.length s <= fuel ->
    weave new s (replace_scan fuel old new s).
Proof.
  intros Hold. induction fuel as [|fuel IH]; intros s Hlen.
  - destruct s; [constructor | simpl in Hlen; lia].
  - destruct s as [|c s]; [constructor|].
    cbn [replace_scan].
    destruct (prefix old (String c s)) eqn:Hp.
    + rewrite (prefix_split _ _ Hp) at 1.
      apply weave_ins, IH. rewrite length_drop.
      destruct old; [congruence|]. simpl in *. lia.
    + apply weave_keep, IH. simpl in Hlen. lia.
Qed.

Lemma replace_scan_substituted (old new : string) :
  old <> "" ->
  forall fuel s, String.length s <= fuel ->
    substituted old new s (replace_scan fuel old new s).
Proof.
  intros Hold. induction fuel as [|fuel IH]; intros s Hlen.
  - destruct s; [constructor | simpl in Hlen; lia].
  - destruct s as [|c s]; [constructor|].
    cbn [replace_scan].
    destruct (prefix old (String c s)) eqn:Hp.
    + rewrite (prefix_split _ _ Hp) at 1.
      apply substituted_hit, IH. rewrite length_drop.
      destruct old; [congruence|]. simpl in *. lia.
    + apply substituted_skip; [exact Hp|]. apply IH. simpl in Hlen. lia.
Qed.

(** [s.replace(old, new)] replaces every copy of a non-empty [old] that the
    left-to-right scan meets. *)
Lemma replace_substituted (old new s : string) :
  old <> "" -> substituted old new s (replace old new s).
Proof.
  intros Hold. unfold replace.
  destruct (String.eqb_spec old "") as [E|_]; [congruence|].
  now apply replace_scan_substituted.
Qed.

(** Decoding, on samples: [C3 A9] and [E4 B8 AD] are one character each,
    [F0 9F 98 80] is one of four bytes; a lone continuation byte, the
    overlong [C0 80], the surrogate [ED A0 80] and the GBK bytes [D6 D0]
    are refused. *)
Example valid_utf8_samples :
  valid_utf8 "plain text" = true /\
  valid_utf8 (String (ascii_of_nat 195) (String (ascii_of_nat 169) "")) = true /\
  valid_utf8 (String (ascii_of_nat 228)
                (String (ascii_of_nat 184) (String (ascii_of_nat 173) "")))
  = true /\
  valid_utf8 (String (ascii_of_nat 240)
                (String (ascii_of_nat 159)
                   (String (ascii_of_nat 152) (String (ascii_of_nat 128) ""))))
  = true /\
  valid_utf8 (String (ascii_of_nat 169) "") = false /\
  valid_utf8 (String (ascii_of_nat 192) (String (ascii_of_nat 128) "")) = false /\
  valid_utf8 (String (ascii_of_nat 237)
                (String (ascii_of_nat 160) (String (ascii_of_nat 128) "")))
  = false /\
  valid_utf8 (String (ascii_of_nat 214) (String (ascii_of_nat 208) "")) = false.
Proof. repeat split; reflexivity. Qed.

(** The empty pattern, on samples: [new] goes around every character, and
    not between the two bytes of [C3 A9]. *)
Example replace_empty_pattern_samples :
  replace "" "-" "ab" = "-a-b-" /\
  replace "" "-" "" = "-" /\
  replace "" "-"
    ("a" ++ String (ascii_of_nat 195) (String (ascii_of_nat 169) "b"))
  = "-a-" ++ String (ascii_of_nat 195) (String (ascii_of_nat 169) "-b-").
Proof. repeat split; reflexivity. Qed.

Lemma intersperse_framed (new s : string) : framed new s (intersperse new s).
Proof.
  induction s as [|c s IH]; cbn [intersperse]; [constructor|].
  destruct (is_continuation c) eqn:E.
  - now apply framed_inside.
  - now apply framed_first.
Qed.

(** [replace] computes what [replaced] describes, for every pattern. *)
Lemma replace_replaced (old new s : string) :
  replaced old new s (replace old new s).
Proof.
  destruct old as [|c old]; cbn [replaced].
  - apply intersperse_framed.
  - apply replace_substituted. discriminate.
Qed.

(** [replaced] admits one result. *)
Lemma substituted_functional (old new s r1 r2 : string) :
  old <> "" ->
  substituted old new s r1 -> substituted old new s r2 -> r1 = r2.
Proof.
  intros Hold H1. revert r2.
  induction H1 as [|s r H1 IH|c s r Hp H1 IH]; intros r2 H2.
  - inversion H2 as [|s' r' H' E|]; [reflexivity|].
    destruct old; [congruence | discriminate].
  - inversion H2 as [E|s' r' H' E|c s' r' Hp' H' E].
    + destruct old; [congruence | discriminate].
    + apply append_inv_head in E. subst. f_equal. now apply IH.
    + rewrite E, prefix_app in Hp'. discriminate.
  - inversion H2 as [|s' r' H' E|c' s' r' Hp' H' E]; subst.
    + rewrite <- E, prefix_app in Hp. discriminate.
    + f_equal. now apply IH.
Qed.

Lemma framed_functional (new s r1 r2 : string) :
  framed new s r1 -> framed new s r2 -> r1 = r2.
Proof.
  intros H1. revert r2.
  induction H1 as [|c s r Hc H1 IH|c s r Hc H1 IH]; intros r2 H2;
    inversion H2; subst; try congruence; repeat f_equal; now apply IH.
Qed.

Lemma replaced_functional (old new s r1 r2 : string) :
  replaced old new s r1 -> replaced old new s r2 -> r1 = r2.
Proof.
  destruct old as [|c old]; cbn [replaced].
  - apply framed_functional.
  - apply substituted_functional. discriminate.
Qed.


Lemma replace_weave (old new s : string) : weave new s (replace old new s).
Proof.
  unfold replace. destruct (String.eqb_spec old "") as [->|Hne].
  - apply intersperse_weave.
  - now apply replace_scan_weave.
Qed.

Lemma clash_sym (p q : string) : clash p q = clash q p.
Proof.
  revert q; induction p as [|a p IH]; intros [|b q]; cbn [clash]; try reflexivity.
  rewrite Ascii.eqb_sym, IH. reflexivity.
Qed.

Lemma clash_prefix (p q r : string) :
  clash p q = true -> prefix p (q ++ r) = false.
Proof.
  revert q; induction p as [|a p IH]; intros [|b q] H; cbn [clash] in H;
    try discriminate.
  cbn [append]. rewrite prefix_cons.
  destruct (Ascii.eqb a b); [|reflexivity]. cbn [andb]. auto.
Qed.

Lemma weave_prefix (new : string) :
  forall s r, weave new s r ->
  forall p, suffixes_clash p new = true ->
    prefix p r = true -> prefix p s = true.
Proof.
  intros s r W. induction W as [|c s r W IH|u s r W IH]; intros p D Hp.
  - assumption.
  - destruct p as [|d p]; [reflexivity|].
    rewrite prefix_cons in *. apply andb_true_iff in Hp as [-> Hp].
    cbn [suffixes_clash] in D. apply andb_true_iff in D as [_ D].
    cbn [andb]. now apply IH.
  - destruct p as [|d p]; [apply prefix_nil|].
    cbn [suffixes_clash] in D. apply andb_true_iff in D as [D _].
    rewrite (clash_prefix _ _ r D) in Hp. discriminate.
Qed.

Lemma contains_app_clash (new p r : string) :
  suffixes_clash new p = true -> contains p (new ++ r) = contains p r.
Proof.
  induction new as [|n new IH]; intros D; [reflexivity|].
  cbn [suffixes_clash] in D. apply andb_true_iff in D as [D1 D2].
  change (String n new ++ r) with (String n (new ++ r)).
  rewrite contains_cons.
  change (String n (new ++ r)) with (String n new ++ r).
  rewrite clash_sym in D1. rewrite (clash_prefix _ _ r D1).
  cbn [orb]. auto.
Qed.

(** Putting in a text that clashes with [p] both ways never creates an
    occurrence of [p]. *)
Lemma weave_contains (new p : string) :
  suffixes_clash p new = true -> suffixes_clash new p = true ->
  forall s r, weave new s r -> contains p r = true -> contains p s = true.
Proof.
  intros D1 D2 s r W.
  induction W as [|c s r W IH|u s r W IH]; intros H.
  - assumption.
  - rewrite contains_cons in *. apply orb_true_iff in H as [H|H].
    + apply (weave_prefix new (String c s) (String c r)) in H;
        [now rewrite H | now constructor | assumption].
    + rewrite IH by assumption. apply orb_true_r.
  - rewrite contains_app_clash in H by assumption.
    apply contains_app_r; auto.
Qed.

Lemma contains_empty_pattern (s : string) : contains "" s = true.
Proof. destruct s; reflexivity. Qed.

Lemma replace_keeps_absent_clash (old new p s : string) :
  suffixes_clash p new = true -> suffixes_clash new p = true ->
  contains p s = false -> contains p (replace old new s) = false.
Proof.
  intros D1 D2 Hs.
  destruct (contains p (replace old new s)) eqn:E; [|reflexivity].
  apply (weave_contains new p D1 D2 s) in E; [congruence|].
  apply replace_weave.
Qed.

Lemma replace_scan_removes_clash (old new : string) :
  old <> "" ->
  suffixes_clash old new = true -> suffixes_clash new old = true ->
  forall fuel s, String.length s <= fuel ->
    contains old (replace_scan fuel old new s) = false.
Proof.
  intros Hold D1 D2. induction fuel as [|fuel IH]; intros s Hlen.
  - destruct s; [|simpl in Hlen; lia].
    destruct old; [congruence | reflexivity].
  - destruct s as [|c s]; [destruct old; [congruence | reflexivity]|].
    cbn [replace_scan]. destruct (prefix old (String c s)) eqn:Hp.
    + rewrite contains_app_clash by assumption. apply IH.
      rewrite length_drop. destruct old; [congruence|]. simpl in *. lia.
    + rewrite contains_cons. apply orb_false_iff. split.
      * destruct (prefix old (String c (replace_scan fuel old new s))) eqn:E;
          [|reflexivity].
        apply (weave_prefix new (String c s)) in E;
          [congruence | | assumption].
        apply weave_keep, replace_scan_weave; [assumption|].
        simpl in Hlen. lia.
      * apply IH. simpl in Hlen. lia.
Qed.

(** After [s.replace(old, new)], with [new] clashing with [old] both ways,
    no occurrence of [old] is left. *)
Lemma replace_removes_clash (old new s : string) :
  old <> "" ->
  suffixes_clash old new = true -> suffixes_clash new old = true ->
  contains old (replace old new s) = false.
Proof.
  intros Hold D1 D2. unfold replace.
  destruct (String.eqb_spec old "") as [E|_]; [congruence|].
  now apply replace_scan_removes_clash.
Qed.

(** Where [old] does not occur, [replace] changes nothing. *)
Lemma replace_scan_absent (old new : string) (fuel : nat) (s : string) :
  contains old s = false -> replace_scan fuel old new s = s.
Proof.
  revert s; induction fuel as [|fuel IH]; intros s H; [reflexivity|].
  destruct s as [|c s]; [reflexivity|].
  rewrite contains_cons in H. apply orb_false_iff in H as [H1 H2].
  cbn [replace_scan]. rewrite H1, IH by assumption. reflexivity.
Qed.

Lemma replace_absent (old new s : string) :
  contains old s = false -> replace old new s = s.
Proof.
  intros H. unfold replace. destruct (String.eqb_spec old "") as [->|_].
  - now rewrite contains_empty_pattern in H.
  - now apply replace_scan_absent.
Qed.

Lemma mem_char_false_neq (c d : ascii) (s : string) :
  mem_char c (String d s) = false -> Ascii.eqb c d = false.
Proof. cbn [mem_char]. intros H. now apply orb_false_iff in H as [H _]. Qed.

Lemma disjoint_chars_cons_r (a : string) (d : ascii) (b : string) :
  disjoint_chars a (String d b) = true ->
  mem_char d a = false /\ disjoint_chars a b = true.
Proof.
  induction a as [|c a IH]; cbn [disjoint_chars mem_char]; [auto|].
  intros H. apply andb_true_iff in H as [H1 H2].
  apply negb_true_iff, orb_false_iff in H1 as [H1 H1'].
  destruct (IH H2) as [IH1 IH2].
  rewrite Ascii.eqb_sym, H1, IH1, H1', IH2. auto.
Qed.

Lemma disjoint_suffixes_clash_l (new p : string) :
  p <> "" -> disjoint_chars new p = true -> suffixes_clash new p = true.
Proof.
  intros Hp. destruct p as [|d p]; [congruence|].
  induction new as [|n new IH]; intros D; [reflexivity|].
  cbn [suffixes_clash disjoint_chars clash] in *.
  apply andb_true_iff in D as [D1 D2]. apply negb_true_iff in D1.
  rewrite (mem_char_false_neq _ _ _ D1). cbn [andb]. auto.
Qed.

Lemma disjoint_suffixes_clash_r (new p : string) :
  new <> "" -> disjoint_chars new p = true -> suffixes_clash p new = true.
Proof.
  intros Hnew. destruct new as [|n new]; [congruence|].
  induction p as [|d p IH]; intros D; [reflexivity|].
  apply disjoint_chars_cons_r in D as [D1 D2].
  cbn [suffixes_clash clash].
  rewrite (mem_char_false_neq _ _ _ D1). cbn [andb]. auto.
Qed.

Lemma params_pass_app (t1 t2 : param_table) (i : nat) (c : string) :
  params_pass (t1 ++ t2)%list i c = params_pass t2 i (params_pass t1 i c).
Proof. apply fold_left_app. Qed.

(** What [no_overlap] excludes, in part: the empty value, and either text
    inside the other. *)
Lemma no_overlap_apart (p v : string) :
  p <> "" -> no_overlap p v = true ->
  v <> "" /\ contains p v = false /\ contains v p = false.
Proof.
  intros Hp H. apply andb_true_iff in H as [H1 H2].
  assert (Hin : forall a b, b <> "" -> suffixes_clash a b = true ->
                  contains b a = false).
  { intros a b Hb. induction a as [|c a IH]; intros D.
    - destruct b; [congruence | reflexivity].
    - cbn [suffixes_clash] in D. apply andb_true_iff in D as [D1 D2].
      rewrite contains_cons, (IH D2), orb_false_r.
      rewrite clash_sym in D1.
      rewrite <- (append_nil_r (String c a)). now apply clash_prefix. }
  assert (Hv : v <> "").
  { intros ->. destruct p; [congruence | discriminate]. }
  split; [exact Hv|]. split; [now apply Hin | now apply Hin].
Qed.

(** Two non-empty texts without a common character do not overlap. *)
Lemma disjoint_no_overlap (p v : string) :
  p <> "" -> v <> "" -> disjoint_chars v p = true -> no_overlap p v = true.
Proof.
  intros Hp Hv D. unfold no_overlap.
  now rewrite disjoint_suffixes_clash_r, disjoint_suffixes_clash_l.
Qed.

Lemma params_pass_keeps_absent (p : string) (i : nat) (t : param_table) :
  (forall kv, In kv t -> no_overlap p (cell_text (snd kv) i) = true) ->
  forall c, contains p c = false -> contains p (params_pass t i c) = false.
Proof.
  induction t as [|kv t IH]; intros Ht c Hc; [assumption|].
  cbn [params_pass fold_left]. apply IH.
  - intros kv' Hin. apply Ht. now right.
  - pose proof (Ht kv (or_introl eq_refl)) as D.
    apply andb_true_iff in D as [D1 D2].
    now apply replace_keeps_absent_clash.
Qed.

(** The parameter loop leaves no occurrence of a placeholder when no value
    substituted from its own pass on overlaps it. *)
Lemma params_pass_removes (t1 t2 : param_table) (p : string)
    (col : list pyval) (i : nat) (c : string) :
  p <> "" ->
  (forall kv, In kv ((p, col) :: t2) ->
     no_overlap p (cell_text (snd kv) i) = true) ->
  contains p (params_pass (t1 ++ (p, col) :: t2)%list i c) = false.
Proof.
  intros Hp Ht. rewrite params_pass_app.
  cbn [params_pass fold_left fst snd].
  apply params_pass_keeps_absent.
  - intros kv Hin. apply Ht. now right.
  - pose proof (Ht (p, col) (or_introl eq_refl)) as D.
    apply andb_true_iff in D as [D1 D2].
    now apply replace_removes_clash.
Qed.

End Replace.

(** ** Paths *)

Section Paths.

Lemma replace_char_nil (c : ascii) (new : string) :
  replace (String c "") new "" = "".
Proof. reflexivity. Qed.

Lemma replace_char_cons (c d : ascii) (new s : string) :
  replace (String c "") new (String d s) =
  (if Ascii.eqb c d then new else String d "") ++ replace (String c "") new s.
Proof.
  unfold replace. cbn [String.eqb String.length replace_scan].
  rewrite prefix_cons, prefix_nil, andb_true_r.
  destruct (Ascii.eqb c d); reflexivity.
Qed.

Lemma replace_char_app (c : ascii) (new a b : string) :
  replace (String c "") new (a ++ b) =
  replace (String c "") new a ++ replace (String c "") new b.
Proof.
  induction a as [|d a IH]; [reflexivity|].
  simpl append. rewrite !replace_char_cons, IH, append_assoc. reflexivity.
Qed.

Lemma replace_char_absent (c : ascii) (new s : string) :
  mem_char c s = false -> replace (String c "") new s = s.
Proof.
  induction s as [|d s IH]; [reflexivity|].
  cbn [mem_char]. intros H. apply orb_false_iff in H as [H1 H2].
  rewrite replace_char_cons, H1, IH by assumption. reflexivity.
Qed.

Lemma normalize_path_app (a b : string) :
  normalize_path (a ++ b) = normalize_path a ++ normalize_path b.
Proof. apply replace_char_app. Qed.

Lemma normalize_path_plain (s : string) :
  mem_char backslash s = false -> normalize_path s = s.
Proof. apply replace_char_absent. Qed.

Lemma forallb_string_app (f : ascii -> bool) (a b : string) :
  forallb_string f (a ++ b) = forallb_string f a && forallb_string f b.
Proof.
  induction a as [|c a IH]; simpl; [reflexivity|].
  now rewrite IH, andb_assoc.
Qed.

Lemma forallb_string_impl (f g : ascii -> bool) (s : string) :
  (forall c, f c = true -> g c = true) ->
  forallb_string f s = true -> forallb_string g s = true.
Proof.
  intros Hfg. induction s as [|c s IH]; [reflexivity|].
  cbn [forallb_string]. intros H. apply andb_true_iff in H as [H1 H2].
  now rewrite (Hfg _ H1), IH.
Qed.

Lemma is_digit_digit_char (n : nat) : is_digit (digit_char (n mod 10)) = true.
Proof.
  pose proof (Nat.mod_upper_bound n 10 ltac:(lia)) as H.
  set (d := n mod 10) in *. clearbody d.
  do 10 (destruct d as [|d]; [reflexivity|]). lia.
Qed.

Lemma is_digit_fixed_digits (k n : nat) (acc : string) :
  forallb_string is_digit acc = true ->
  forallb_string is_digit (fixed_digits k n acc) = true.
Proof.
  revert n acc; induction k as [|k IH]; intros n acc H; [assumption|].
  cbn [fixed_digits]. apply IH. cbn [forallb_string].
  now rewrite is_digit_digit_char, H.
Qed.

Lemma is_digit_zeros (n : nat) : forallb_string is_digit (zeros n) = true.
Proof.
  induction n; [reflexivity|]. cbn [zeros forallb_string]. now rewrite IHn.
Qed.

(** [format_0d] writes digits only, and at least one. *)
Lemma format_0d_digits (w x : nat) :
  forallb_string is_digit (format_0d w x) = true /\ format_0d w x <> "".
Proof.
  unfold format_0d. destruct (str_nat_fixed x) as (E & Hlen & _). split.
  - rewrite forallb_string_app, is_digit_zeros, E.
    now rewrite is_digit_fixed_digits.
  - intros H. apply (f_equal String.length) in H.
    rewrite length_append in H. fold (num_digits x) in H.
    cbn [String.length] in H. lia.
Qed.

Lemma is_digit_neq (d c : ascii) :
  is_digit d = true -> is_digit c = false -> Ascii.eqb d c = false.
Proof.
  intros Hd Hc. destruct (Ascii.eqb_spec d c) as [->|]; [congruence | reflexivity].
Qed.

Lemma is_digit_plain (c : ascii) : is_digit c = true -> plain c = true.
Proof.
  intros H. unfold plain, is_sep, is_dot.
  rewrite !(is_digit_neq c _ H) by reflexivity. reflexivity.
Qed.

Lemma plain_case_number (N i : nat) :
  forallb_string plain (case_number N i) = true.
Proof.
  unfold case_number. rewrite forallb_string_app.
  destruct (format_0d_digits (num_digits N) (i + 1)) as [H _].
  now rewrite (forallb_string_impl _ _ _ is_digit_plain H).
Qed.

Lemma plain_no_backslash (s : string) :
  forallb_string plain s = true -> mem_char backslash s = false.
Proof.
  induction s as [|c s IH]; [reflexivity|].
  cbn [forallb_string mem_char]. intros H.
  apply andb_true_iff in H as [H1 H2]. rewrite IH by assumption.
  unfold plain, is_sep in H1. apply andb_true_iff in H1 as [H1 _].
  apply negb_true_iff, orb_false_iff in H1 as [H1 _].
  rewrite Ascii.eqb_sym, H1. reflexivity.
Qed.

Lemma mem_char_app (c : ascii) (a b : string) :
  mem_char c (a ++ b) = mem_char c a || mem_char c b.
Proof.
  induction a as [|d a IH]; [reflexivity|].
  cbn [append mem_char]. now rewrite IH, orb_assoc.
Qed.

Lemma rfind_from_app (f : ascii -> bool) (a b : string) (i : nat) :
  rfind_from i f (a ++ b) =
  match rfind_from (i + String.length a) f b with
  | Some j => Some j
  | None => rfind_from i f a
  end.
Proof.
  revert i; induction a as [|c a IH]; intros i.
  - simpl. rewrite Nat.add_0_r. now destruct (rfind_from i f b).
  - cbn [append rfind_from String.length]. rewrite IH.
    replace (S i + String.length a) with (i + S (String.length a)) by lia.
    now destruct (rfind_from (i + S (String.length a)) f b).
Qed.

Lemma rfind_from_none (f : ascii -> bool) (s : string) (i : nat) :
  forallb_string (fun c => negb (f c)) s = true -> rfind_from i f s = None.
Proof.
  revert i; induction s as [|c s IH]; intros i H; [reflexivity|].
  cbn [forallb_string rfind_from] in *.
  apply andb_true_iff in H as [H1 H2]. rewrite IH by assumption.
  apply negb_true_iff in H1. now rewrite H1.
Qed.

Lemma substring_prefix (r t : string) :
  substring 0 (String.length r) (r ++ t) = r.
Proof.
  induction r as [|c r IH]; simpl.
  - destruct t; reflexivity.
  - now rewrite IH.
Qed.

(** A file name made of a plain, non-empty stem and [.java] splits at that
    dot. *)
Lemma splitext_plain_java (r : string) :
  r <> "" -> forallb_string plain r = true ->
  splitext (r ++ ".java") = (r, ".java").
Proof.
  intros Hne Hr. unfold splitext, rfind.
  assert (Hdot : rfind_from 0 is_dot (r ++ ".java") = Some (String.length r)).
  { rewrite rfind_from_app. reflexivity. }
  assert (Hsep : rfind_from 0 is_sep (r ++ ".java") = None).
  { rewrite rfind_from_app. cbn [Nat.add].
    change (rfind_from (String.length r) is_sep ".java") with (@None nat).
    apply rfind_from_none.
    eapply forallb_string_impl; [|exact Hr].
    intros c H. unfold plain in H. now apply andb_true_iff in H as [H _]. }
  rewrite Hdot, Hsep. cbn [Nat.leb]. rewrite Nat.sub_0_r, substring_prefix.
  assert (Hnd : forallb_string is_dot r = false).
  { destruct r as [|c r]; [congruence|]. cbn [forallb_string] in *.
    apply andb_true_iff in Hr as [Hc _]. unfold plain in Hc.
    apply andb_true_iff in Hc as [_ Hc]. apply negb_true_iff in Hc.
    now rewrite Hc. }
  rewrite Hnd. cbn [negb andb]. now rewrite drop_app.
Qed.

Lemma suffixed_filename_macro (case : string) :
  suffixed_filename "Macro.java" case = ("Macro_" ++ case) ++ ".java".
Proof.
  unfold suffixed_filename.
  change (splitext "Macro.java") with ("Macro", ".java").
  cbn [fst snd]. now rewrite <- !append_assoc.
Qed.

Lemma macro_base_name (N i : nat) :
  fst (splitext (suffixed_filename "Macro.java" (case_number N i))) =
  "Macro_" ++ case_number N i.
Proof.
  rewrite suffixed_filename_macro, splitext_plain_java; [reflexivity | discriminate |].
  rewrite forallb_string_app, plain_case_number. reflexivity.
Qed.

End Paths.

(** ** The monad, step by step *)

Section Steps.

Lemma bind_ok {A B} (m : M A) (k : A -> M B) (w w' : world) (a : A) :
  m w = (w', Ok a) -> bind m k w = k a w'.
Proof. unfold bind. now intros ->. Qed.

Lemma bind_raise {A B} (m : M A) (k : A -> M B) (w w' : world) (e : exn) :
  m w = (w', Raise e) -> bind m k w = (w', Raise e).
Proof. unfold bind. now intros ->. Qed.

Lemma for_each_app {X S} (l1 l2 : list X) (body : X -> S -> M S) (s : S)
    (w : world) :
  for_each (l1 ++ l2)%list body s w =
  bind (for_each l1 body s) (for_each l2 body) w.
Proof.
  revert s w; induction l1 as [|x l1 IH]; intros s w; cbn [for_each app].
  - reflexivity.
  - unfold bind. destruct (body x s w) as [w1 [s1|e]]; [|reflexivity].
    rewrite IH. reflexivity.
Qed.

Lemma shutil_copy_ok (src dst content : string) (w : world) :
  src <> dst -> files w src = Some content -> unwritable w dst = false ->
  shutil_copy src dst w = (set_file dst content w, Ok tt).
Proof.
  intros Hne Hs Hd. unfold shutil_copy.
  apply String.eqb_neq in Hne. now rewrite Hne, Hs, Hd.
Qed.

Lemma files_set_file_same (p c : string) (w : world) :
  files (set_file p c w) p = Some c.
Proof. cbn [files set_file]. now rewrite String.eqb_refl. Qed.

Lemma files_set_file_other (p q c : string) (w : world) :
  q <> p -> files (set_file p c w) q = files w q.
Proof.
  intros H. cbn [files set_file]. apply String.eqb_neq in H. now rewrite H.
Qed.

Lemma read_file_ok (p c : string) (w : world) :
  files w p = Some c -> unwritable w p = false -> valid_utf8 c = true ->
  read_file p w = (w, Ok c).
Proof. intros Hf Hu Hv. unfold read_file. now rewrite Hf, Hu, Hv. Qed.

Lemma write_file_ok (p c : string) (w : world) :
  unwritable w p = false -> write_file p c w = (set_file p c w, Ok tt).
Proof. intros Hu. unfold write_file. now rewrite Hu. Qed.

Lemma min_list_le (l : list nat) (n x : nat) :
  min_list l = Some n -> In x l -> n <= x.
Proof.
  revert n; induction l as [|y l IH]; intros n H Hin; [contradiction|].
  cbn [min_list] in H. destruct (min_list l) as [m|] eqn:E.
  - injection H as <-. destruct Hin as [->|Hin]; [lia|].
    specialize (IH m eq_refl Hin). lia.
  - injection H as <-. destruct Hin as [->|Hin]; [lia|].
    destruct l; [contradiction|]. cbn [min_list] in E.
    destruct (min_list l); discriminate.
Qed.

(** No column is shorter than the number of rows. *)
Lemma num_rows_le (table : param_table) (N : nat) (kv : string * list pyval) :
  num_rows_of table = Some N -> In kv table -> N <= List.length (snd kv).
Proof.
  intros H Hin. eapply min_list_le; [exact H|].
  apply (in_map (fun kv => List.length (snd kv))), Hin.
Qed.

Lemma cell_text_in_range (col : list pyval) (i : nat) :
  i < List.length col ->
  exists v, nth_error col i = Some v /\ cell_text col i = py_str v.
Proof.
  intros H. unfold cell_text.
  destruct (nth_error col i) as [v|] eqn:E.
  - now exists v.
  - apply nth_error_None in E. lia.
Qed.

(** Inside the rows of the table the parameter loop never raises. *)
Lemma substitute_params_ok (table : param_table) (i : nat) (c : string)
    (w : world) :
  (forall kv, In kv table -> i < List.length (snd kv)) ->
  substitute_params table i c w = (w, Ok (params_pass table i c)).
Proof.
  unfold substitute_params, params_pass.
  revert c; induction table as [|kv t IH]; intros c H; [reflexivity|].
  cbn [for_each fold_left].
  destruct (cell_text_in_range (snd kv) i (H kv (or_introl eq_refl)))
    as (v & Hv & Hc).
  unfold bind at 1, getitem, bind at 1. rewrite Hv. cbn [ret].
  rewrite Hc. apply IH. intros kv' Hin. apply H. now right.
Qed.

Lemma NoDup_map_inj_on {A B} (f : A -> B) (l : list A) :
  (forall x y, In x l -> In y l -> f x = f y -> x = y) ->
  NoDup l -> NoDup (map f l).
Proof.
  intros Hinj Hnd. induction Hnd as [|a l Ha Hnd IH]; cbn [map]; constructor.
  - intros Hin. apply in_map_iff in Hin as (y & Hy & Hin).
    assert (y = a) by (apply Hinj; [now right | now left | exact Hy]).
    subst. contradiction.
  - apply IH. intros x y Hx Hy. apply Hinj; now right.
Qed.

Lemma NoDup_app_disjoint {A} (l1 l2 : list A) :
  NoDup l1 -> NoDup l2 -> (forall a, In a l1 -> ~ In a l2) ->
  NoDup (l1 ++ l2).
Proof.
  intros H1 H2 Hd. induction H1 as [|a l Ha H1 IH]; [exact H2|].
  cbn [app]. constructor.
  - intros Hin. apply in_app_or in Hin as [Hin|Hin]; [contradiction|].
    apply (Hd a); [now left | exact Hin].
  - apply IH. intros b Hb. apply Hd. now right.
Qed.

(** Inside the rows of the table the parameter loop does what
    [params_substituted] describes. *)
Lemma params_pass_substituted (table : param_table) (i : nat) (c : string) :
  (forall kv, In kv table -> i < List.length (snd kv)) ->
  params_substituted i table c (params_pass table i c).
Proof.
  revert c; induction table as [|[k col] t IH]; intros c H; [constructor|].
  destruct (cell_text_in_range col i (H (k, col) (or_introl eq_refl)))
    as (v & Hv & Hc).
  apply (params_entry i k col t v (py_str v) c (replace k (py_str v) c)).
  - exact Hv.
  - apply py_str_spec.
  - apply replace_replaced.
  - cbn [params_pass fold_left fst snd]. rewrite Hc.
    apply IH. intros kv Hin. apply H. now right.
Qed.

(** The three fixed passes and the parameter loop do what
    [macro_passes_spec] describes. *)
Lemma macro_passes_hold (table : param_table) (i : nat)
    (case macro_base save_path content : string) :
  (forall kv, In kv table -> i < List.length (snd kv)) ->
  macro_passes_spec table i case macro_base save_path content
    (params_pass table i
       (replace "SavePath" save_path
          (replace "template_Macro" macro_base
             (replace "CaseName" case content)))).
Proof.
  intros H. unfold macro_passes_spec.
  exists (replace "CaseName" case content),
         (replace "template_Macro" macro_base
            (replace "CaseName" case content)),
         (replace "SavePath" save_path
            (replace "template_Macro" macro_base
               (replace "CaseName" case content))).
  repeat (split; [apply replace_replaced|]).
  now apply params_pass_substituted.
Qed.

(** The passes, as described, admit one result. *)
Lemma params_substituted_functional (i : nat) (table : param_table)
    (c r1 r2 : string) :
  params_substituted i table c r1 -> params_substituted i table c r2 ->
  r1 = r2.
Proof.
  intros H1. revert r2.
  induction H1 as [c|k col t v text c c' final Hv Hs Hr H1 IH]; intros r2 H2.
  - now inversion H2.
  - inversion H2 as [|k' col' t' v' text' c0 c0' final' Hv' Hs' Hr' H2' E];
      subst.
    rewrite Hv in Hv'. injection Hv' as <-.
    rewrite (str_of_functional _ _ _ Hs' Hs) in Hr'.
    rewrite (replaced_functional _ _ _ _ _ Hr' Hr) in H2'.
    now apply IH.
Qed.

Lemma macro_passes_spec_functional (table : param_table) (i : nat)
    (case macro_base save_path content r1 r2 : string) :
  macro_passes_spec table i case macro_base save_path content r1 ->
  macro_passes_spec table i case macro_base save_path content r2 ->
  r1 = r2.
Proof.
  intros (a1 & a2 & a3 & A1 & A2 & A3 & A4) (b1 & b2 & b3 & B1 & B2 & B3 & B4).
  rewrite (replaced_functional _ _ _ _ _ B1 A1) in B2.
  rewrite (replaced_functional _ _ _ _ _ B2 A2) in B3.
  rewrite (replaced_functional _ _ _ _ _ B3 A3) in B4.
  exact (params_substituted_functional _ _ _ _ _ A4 B4).
Qed.

End Steps.

(** ** One template, one row, all rows *)

Section RequiredRun.

Variables (table : param_table) (out : string) (N : nat).
Hypothesis HN : num_rows_of table = Some N.

(** The macro branch: copy, read back, substitute, write. *)
Lemma macro_template_step (display_name template_path content : string)
    (i : nat) (lists : list string * list string) (w : world) :
  endswith display_name ".sim" = false ->
  endswith display_name ".java" = true ->
  i < N ->
  let case := case_number N i in
  let output_filename := suffixed_filename display_name case in
  let output_path := normalize_path (out ++ "/" ++ output_filename) in
  template_path <> output_path ->
  files w template_path = Some content ->
  valid_utf8 content = true ->
  unwritable w output_path = false ->
  required_template_body table out i case (display_name, template_path) lists w =
  (set_file output_path
     (params_pass table i
        (replace "SavePath" (sim_output_path out case)
           (replace "template_Macro" (fst (splitext output_filename))
              (replace "CaseName" case content))))
     (set_file output_path content w),
   Ok (fst lists, (snd lists ++ [output_path])%list)).
Proof.
  intros Hsim Hjava Hi case output_filename output_path Hne Hf Hv Hu.
  unfold required_template_body. cbn [fst snd]. rewrite Hsim, Hjava.
  fold case. fold output_filename. fold output_path.
  rewrite (bind_ok _ _ _ _ _ (shutil_copy_ok _ _ _ _ Hne Hf Hu)).
  rewrite (bind_ok _ _ _ (set_file output_path content w) content).
  2:{ apply read_file_ok; [apply files_set_file_same | exact Hu | exact Hv]. }
  erewrite bind_ok.
  2:{ apply substitute_params_ok.
      intros kv Hin. pose proof (num_rows_le table N kv HN Hin). lia. }
  erewrite bind_ok by (apply write_file_ok; exact Hu).
  reflexivity.
Qed.

(** The case branch: a plain copy. *)
Lemma case_template_step (display_name template_path content : string)
    (i : nat) (lists : list string * list string) (w : world) :
  endswith display_name ".sim" = true ->
  let output_path := sim_output_path out (case_number N i) in
  template_path <> output_path ->
  files w template_path = Some content ->
  unwritable w output_path = false ->
  required_template_body table out i (case_number N i)
    (display_name, template_path) lists w =
  (set_file output_path content w,
   Ok ((fst lists ++ [output_path])%list, snd lists)).
Proof.
  intros Hsim output_path Hne Hf Hu.
  unfold required_template_body. cbn [fst snd]. rewrite Hsim.
  fold output_path.
  rewrite (bind_ok _ _ _ _ _ (shutil_copy_ok _ _ _ _ Hne Hf Hu)).
  reflexivity.
Qed.

Lemma case_output_path_shape (i : nat) :
  case_output_path out N i =
  normalize_path out ++ "/" ++ case_number N i ++ ".sim".
Proof.
  unfold case_output_path, sim_output_path.
  rewrite normalize_path_app. f_equal.
  apply normalize_path_plain.
  rewrite !mem_char_app, (plain_no_backslash _ (plain_case_number N i)).
  reflexivity.
Qed.

Lemma macro_output_path_shape (i : nat) :
  macro_output_path out N i =
  normalize_path out ++ "/" ++ "Macro_" ++ case_number N i ++ ".java".
Proof.
  unfold macro_output_path, suffixed_output_path.
  rewrite normalize_path_app, suffixed_filename_macro. f_equal.
  rewrite <- !append_assoc.
  apply normalize_path_plain.
  rewrite !mem_char_app, (plain_no_backslash _ (plain_case_number N i)).
  reflexivity.
Qed.

Lemma append_inv_tail (a b x : string) : a ++ x = b ++ x -> a = b.
Proof.
  revert b; induction a as [|c a IH]; intros [|d b] H.
  - reflexivity.
  - apply (f_equal String.length) in H. simpl in H.
    rewrite length_append in H. lia.
  - apply (f_equal String.length) in H. simpl in H.
    rewrite length_append in H. lia.
  - simpl in H. injection H as -> H. f_equal. auto.
Qed.

Lemma case_output_path_inj (i j : nat) :
  i < N -> j < N -> case_output_path out N i = case_output_path out N j -> i = j.
Proof.
  intros Hi Hj E. rewrite !case_output_path_shape in E.
  apply append_inv_head, append_inv_head, append_inv_tail in E.
  eapply case_number_inj; eauto.
Qed.

Lemma macro_output_path_inj (i j : nat) :
  i < N -> j < N -> macro_output_path out N i = macro_output_path out N j -> i = j.
Proof.
  intros Hi Hj E. rewrite !macro_output_path_shape in E.
  apply append_inv_head, append_inv_head, append_inv_head, append_inv_tail in E.
  eapply case_number_inj; eauto.
Qed.

Lemma case_macro_output_path_neq (i j : nat) :
  case_output_path out N i <> macro_output_path out N j.
Proof.
  rewrite case_output_path_shape, macro_output_path_shape. intros E.
  apply append_inv_head, append_inv_head in E. discriminate E.
Qed.

Variables (macro_path case_path mc cc : string).

Lemma ready_row_effect (i : nat) (w : world) :
  i < N ->
  ready w macro_path case_path mc cc out N ->
  ready (row_effect table out N mc cc i w) macro_path case_path mc cc out N.
Proof.
  intros Hi (Hm & Hv & Hc & Hq).
  destruct (Hq i _ Hi (or_introl eq_refl)) as (_ & Hcm & Hcc).
  destruct (Hq i _ Hi (or_intror eq_refl)) as (_ & Hmm & Hmc).
  unfold row_effect. split; [|split; [exact Hv|split]].
  - rewrite !files_set_file_other by congruence. exact Hm.
  - rewrite !files_set_file_other by congruence. exact Hc.
  - exact Hq.
Qed.

(** One row over the two templates of [get_required_templates]. *)
Lemma required_row_ok (i : nat) (lists : list string * list string)
    (w : world) :
  i < N ->
  ready w macro_path case_path mc cc out N ->
  required_row_body (required_templates_at macro_path case_path)
    table out N i lists w =
  (row_effect table out N mc cc i w,
   Ok ((fst lists ++ [case_output_path out N i])%list,
       (snd lists ++ [macro_output_path out N i])%list)).
Proof.
  intros Hi (Hm & Hv & Hc & Hq).
  destruct (Hq i _ Hi (or_introl eq_refl)) as (Hcu & Hcm & Hcc).
  destruct (Hq i _ Hi (or_intror eq_refl)) as (Hmu & Hmm & Hmc).
  unfold required_row_body, required_templates_at. cbn [for_each].
  erewrite bind_ok.
  2:{ apply (macro_template_step "Macro.java" macro_path mc);
        try reflexivity; try assumption; try (apply not_eq_sym; assumption). }
  erewrite bind_ok.
  2:{ apply (case_template_step "Case.sim" case_path cc); try reflexivity.
      - apply not_eq_sym. exact Hcc.
      - rewrite !files_set_file_other; [exact Hc | |];
          apply not_eq_sym; exact Hmc.
      - exact Hcu. }
  reflexivity.
Qed.

Lemma rows_effect_cons (i : nat) (rows : list nat) (w : world) :
  rows_effect table out N mc cc (i :: rows) w =
  rows_effect table out N mc cc rows (row_effect table out N mc cc i w).
Proof. reflexivity. Qed.

Lemma rows_effect_app (rows1 rows2 : list nat) (w : world) :
  rows_effect table out N mc cc (rows1 ++ rows2)%list w =
  rows_effect table out N mc cc rows2 (rows_effect table out N mc cc rows1 w).
Proof. apply fold_left_app. Qed.

Lemma required_rows_ok (rows : list nat) :
  (forall i, In i rows -> i < N) ->
  forall (lists : list string * list string) (w : world),
  ready w macro_path case_path mc cc out N ->
  for_each rows
    (required_row_body (required_templates_at macro_path case_path)
       table out N) lists w =
  (rows_effect table out N mc cc rows w,
   Ok ((fst lists ++ map (case_output_path out N) rows)%list,
       (snd lists ++ map (macro_output_path out N) rows)%list)).
Proof.
  induction rows as [|i rows IH]; intros Hrows lists w Hw.
  - cbn [for_each map rows_effect fold_left]. now rewrite !app_nil_r, <- surjective_pairing.
  - cbn [for_each]. erewrite bind_ok.
    2:{ apply required_row_ok; [apply Hrows; now left | exact Hw]. }
    rewrite IH.
    + rewrite rows_effect_cons. cbn [fst snd map].
      now rewrite <- !app_assoc.
    + intros j Hj. apply Hrows. now right.
    + apply ready_row_effect; [apply Hrows; now left | exact Hw].
Qed.

(** Files outside the paths generated for [rows] keep their content. *)
Lemma rows_effect_other (rows : list nat) (q : string) (w : world) :
  (forall j, In j rows ->
     q <> case_output_path out N j /\ q <> macro_output_path out N j) ->
  files (rows_effect table out N mc cc rows w) q = files w q.
Proof.
  revert w; induction rows as [|i rows IH]; intros w H; [reflexivity|].
  rewrite rows_effect_cons.
  rewrite IH by (intros j Hj; apply H; now right).
  destruct (H i (or_introl eq_refl)) as [H1 H2].
  unfold row_effect. now rewrite !files_set_file_other.
Qed.

Lemma rows_effect_unwritable (rows : list nat) (w : world) :
  unwritable (rows_effect table out N mc cc rows w) = unwritable w.
Proof.
  revert w; induction rows as [|i rows IH]; intros w; [reflexivity|].
  rewrite rows_effect_cons. now rewrite IH.
Qed.

Lemma seq_split_at (i : nat) :
  i < N -> seq 0 N = (seq 0 i ++ i :: seq (S i) (N - S i))%list.
Proof.
  intros Hi. replace N with (i + S (N - S i)) at 1 by lia.
  rewrite seq_app. reflexivity.
Qed.

(** After all rows, the two files of case [i] hold what row [i] wrote. *)
Lemma rows_effect_files (i : nat) (w : world) :
  i < N ->
  files (rows_effect table out N mc cc (seq 0 N) w) (case_output_path out N i)
    = Some cc /\
  files (rows_effect table out N mc cc (seq 0 N) w) (macro_output_path out N i)
    = Some (macro_content table out N i mc).
Proof.
  intros Hi. rewrite (seq_split_at i Hi).
  rewrite rows_effect_app, rows_effect_cons.
  set (w1 := rows_effect table out N mc cc (seq 0 i) w).
  split.
  - rewrite rows_effect_other.
    + unfold row_effect. apply files_set_file_same.
    + intros j Hj. apply in_seq in Hj. split.
      * intros E. apply case_output_path_inj in E; lia.
      * apply case_macro_output_path_neq.
  - rewrite rows_effect_other.
    + unfold row_effect. rewrite files_set_file_other.
      * apply files_set_file_same.
      * apply not_eq_sym, case_macro_output_path_neq.
    + intros j Hj. apply in_seq in Hj. split.
      * apply not_eq_sym, case_macro_output_path_neq.
      * intros E. apply macro_output_path_inj in E; lia.
Qed.

(** The whole run. *)
Lemma process_required_templates_ok (w : world) :
  ready w macro_path case_path mc cc out N ->
  process_required_templates (required_templates_at macro_path case_path)
    table out w =
  (rows_effect table out N mc cc (seq 0 N) w,
   Ok (map (case_output_path out N) (seq 0 N),
       map (macro_output_path out N) (seq 0 N))).
Proof.
  intros Hw. unfold process_required_templates, num_rows_M. rewrite HN.
  unfold bind at 1. cbn [ret].
  rewrite required_rows_ok; [reflexivity | | exact Hw].
  intros i Hi. apply in_seq in Hi. lia.
Qed.

End RequiredRun.

(** ** The required-template phase *)

Section RequiredPhase.

Lemma fresh_world_ready (N : nat) :
  ready fresh_world macro_template_path case_template_path
    macro_template_text case_template_text "out" N.
Proof.
  split; [reflexivity|]. split; [reflexivity|]. split; [reflexivity|].
  intros i q _ Hq. split; [reflexivity|].
  assert (Hshape : exists rest, q = "out/" ++ rest).
  { destruct Hq as [-> | ->].
    - rewrite case_output_path_shape. now eexists.
    - rewrite macro_output_path_shape. now eexists. }
  destruct Hshape as (rest & ->). split; discriminate.
Qed.

Lemma num_rows_of_nonempty (table : param_table) :
  table <> [] ->
  exists N, num_rows_of table = Some N /\
            (forall kv, In kv table -> N <= List.length (snd kv)) /\
            (exists kv, In kv table /\ List.length (snd kv) = N).
Proof.
  intros Hne. unfold num_rows_of.
  induction table as [|kv t IH]; [congruence|].
  cbn [map min_list]. destruct t as [|kv' t].
  - exists (List.length (snd kv)). cbn [map min_list]. split; [reflexivity|].
    split.
    + intros x [<-|[]]. lia.
    + exists kv. split; [now left | reflexivity].
  - destruct IH as (m & Hm & Hle & (x & Hx & Hlen)); [discriminate|].
    rewrite Hm. exists (Nat.min (List.length (snd kv)) m).
    split; [reflexivity|]. split.
    + intros y [<-|Hy]; [lia|]. specialize (Hle y Hy). lia.
    + destruct (Nat.le_ge_cases (List.length (snd kv)) m).
      * exists kv. split; [now left | lia].
      * exists x. split; [now right | lia].
Qed.

(** The paths of a run over the two required templates are pairwise
    distinct. *)
Lemma generated_paths_NoDup (out : string) (N : nat) :
  NoDup (map (case_output_path out N) (seq 0 N)
         ++ map (macro_output_path out N) (seq 0 N)).
Proof.
  apply NoDup_app_disjoint.
  - apply NoDup_map_inj_on; [|apply seq_NoDup].
    intros i j Hi Hj. apply in_seq in Hi, Hj.
    apply case_output_path_inj; lia.
  - apply NoDup_map_inj_on; [|apply seq_NoDup].
    intros i j Hi Hj. apply in_seq in Hi, Hj.
    apply macro_output_path_inj; lia.
  - intros q Hc Hm.
    apply in_map_iff in Hc as (i & <- & _).
    apply in_map_iff in Hm as (j & Hm & _).
    symmetry in Hm. revert Hm. apply case_macro_output_path_neq.
Qed.



(** Columns of lengths 5, 3 and 5 give three cases. *)
Example ragged_table_three_cases :
  num_rows_of ragged_table = Some 3 /\
  snd (process_required_templates standard_templates ragged_table "out"
         fresh_world)
  = Ok (["out/Case1.sim"; "out/Case2.sim"; "out/Case3.sim"],
        ["out/Macro_Case1.java"; "out/Macro_Case2.java";
         "out/Macro_Case3.java"]).
Proof. split; vm_compute; reflexivity. Qed.



(** The scenario of the specification, run. *)
Example two_cases_run :
  files (fst (process_required_templates standard_templates two_cases "out"
                fresh_world)) "out/Macro_Case1.java"
  = Some "run Macro_Case1; export Case1; save out/Case1.sim; temp = 300" /\
  files (fst (process_required_templates standard_templates two_cases "out"
                fresh_world)) "out/Macro_Case2.java"
  = Some "run Macro_Case2; export Case2; save out/Case2.sim; temp = 350".
Proof. split; vm_compute; reflexivity. Qed.




(** A value may share characters with its placeholder and still not overlap
    it: [Temp] and [1e-05] have the [e] in common, and no [Temp] is left
    in the generated macro file. *)
Example shared_character_no_overlap :
  disjoint_chars "1e-05" "Temp" = false /\
  no_overlap "Temp" "1e-05" = true /\
  files (fst (process_required_templates standard_templates temp_cases "out"
                temp_world)) "out/Macro_Case1.java"
  = Some "dt = 1e-05; save out/Case1.sim".
Proof. repeat split; vm_compute; reflexivity. Qed.

(** In a world where [out/Case2.sim] cannot be written, the run over three
    cases raises; case 1 is on disk, and case 3, whose paths are writable,
    is not generated. *)
Lemma write_failure_stops_later_cases :
  snd (process_required_templates standard_templates three_cases "out"
         locked_world)
  = Raise PermissionError /\
  files (fst (process_required_templates standard_templates three_cases "out"
                locked_world)) "out/Case1.sim"
  = Some case_template_text /\
  unwritable locked_world "out/Case3.sim" = false /\
  unwritable locked_world "out/Macro_Case3.java" = false /\
  files (fst (process_required_templates standard_templates three_cases "out"
                locked_world)) "out/Case3.sim"
  = None /\
  files (fst (process_required_templates standard_templates three_cases "out"
                locked_world)) "out/Macro_Case3.java"
  = None.
Proof. repeat split; vm_compute; reflexivity. Qed.

(** C7, amended.  Nothing in the required-template phase catches a
    failure.  A copy onto a path that cannot be written raises
    [PermissionError] out of the template step, the world as it was; and
    when the rows before [i] and, in row [i], the templates before one
    template went through and the step of that template raises, the whole
    call raises that exception, returns no file list, and ends in the world
    of the failure: nothing more is generated for case [i] or for any later
    case. *)
Theorem failure_in_one_case_aborts_the_run
    (before after : list (string * string))
    (display_name template_path : string) (table : param_table)
    (out : string) (N i : nat) (lists_i lists_s : list string * list string)
    (e : exn) (w w_i w_s w_e : world) :
  num_rows_of table = Some N ->
  i < N ->
  for_each (seq 0 i)
    (required_row_body (before ++ (display_name, template_path) :: after)%list
       table out N) ([], []) w
  = (w_i, Ok lists_i) ->
  for_each before
    (required_template_body table out i (case_number N i)) lists_i w_i
  = (w_s, Ok lists_s) ->
  required_template_body table out i (case_number N i)
    (display_name, template_path) lists_s w_s
  = (w_e, Raise e) ->
  process_required_templates
    (before ++ (display_name, template_path) :: after)%list table out w
  = (w_e, Raise e) /\
  forall d tp content lists w0,
    endswith d ".sim" = true \/ endswith d ".java" = true ->
    files w0 tp = Some content ->
    tp <> template_output_path out d (case_number N i) ->
    unwritable w0 (template_output_path out d (case_number N i)) = true ->
    required_template_body table out i (case_number N i) (d, tp) lists w0
    = (w0, Raise PermissionError).
Proof.
  intros HN Hi Hrows Hbefore Hstep. split.
  - unfold process_required_templates, num_rows_M. rewrite HN.
    unfold bind at 1. cbn [ret].
    rewrite (seq_split_at N i Hi), for_each_app.
    rewrite (bind_ok _ _ _ _ _ Hrows). cbn [for_each].
    apply bind_raise. unfold required_row_body.
    rewrite for_each_app, (bind_ok _ _ _ _ _ Hbefore). cbn [for_each].
    now apply bind_raise.
  - intros d tp content lists w0 Hext Hf Hne Hu.
    unfold template_output_path in *. unfold required_template_body.
    cbn [fst snd].
    assert (Hcopy : forall q, tp <> q -> unwritable w0 q = true ->
              shutil_copy tp q w0 = (w0, Raise PermissionError)).
    { intros q Hq Hw. unfold shutil_copy. apply String.eqb_neq in Hq.
      now rewrite Hq, Hf, Hw. }
    destruct (endswith d ".sim").
    + now rewrite (bind_raise _ _ _ _ _ (Hcopy _ Hne Hu)).
    + destruct Hext as [Hext|Hext]; [discriminate|]. rewrite Hext.
      unfold suffixed_output_path in *.
      now rewrite (bind_raise _ _ _ _ _ (Hcopy _ Hne Hu)).
Qed.

Lemma failure_in_one_case_aborts_the_run_witness :
  num_rows_of three_cases = Some 3 /\
  1 < 3 /\
  for_each (seq 0 1)
    (required_row_body
       ([("Macro.java", macro_template_path)]
        ++ ("Case.sim", case_template_path) :: [])%list
       three_cases "out" 3) ([], []) locked_world
  = (row_effect three_cases "out" 3 macro_template_text case_template_text 0
       locked_world,
     Ok (["out/Case1.sim"], ["out/Macro_Case1.java"])) /\
  for_each [("Macro.java", macro_template_path)]
    (required_template_body three_cases "out" 1 (case_number 3 1))
    (["out/Case1.sim"], ["out/Macro_Case1.java"])
    (row_effect three_cases "out" 3 macro_template_text case_template_text 0
       locked_world)
  = (fst (process_required_templates standard_templates three_cases "out"
            locked_world),
     Ok (["out/Case1.sim"], ["out/Macro_Case1.java"; "out/Macro_Case2.java"])) /\
  required_template_body three_cases "out" 1 (case_number 3 1)
    ("Case.sim", case_template_path)
    (["out/Case1.sim"], ["out/Macro_Case1.java"; "out/Macro_Case2.java"])
    (fst (process_required_templates standard_templates three_cases "out"
            locked_world))
  = (fst (process_required_templates standard_templates three_cases "out"
            locked_world),
     Raise PermissionError) /\
  process_required_templates standard_templates three_cases "out" locked_world
  = (fst (process_required_templates standard_templates three_cases "out"
            locked_world),
     Raise PermissionError).
Proof.
  assert (H0 : num_rows_of three_cases = Some 3) by reflexivity.
  assert (H1 : 1 < 3) by lia.
  assert (H2 : for_each (seq 0 1)
    (required_row_body
       ([("Macro.java", macro_template_path)]
        ++ ("Case.sim", case_template_path) :: [])%list
       three_cases "out" 3) ([], []) locked_world
  = (row_effect three_cases "out" 3 macro_template_text case_template_text 0
       locked_world,
     Ok (["out/Case1.sim"], ["out/Macro_Case1.java"])))
    by (vm_compute; reflexivity).
  assert (H3 : for_each [("Macro.java", macro_template_path)]
    (required_template_body three_cases "out" 1 (case_number 3 1))
    (["out/Case1.sim"], ["out/Macro_Case1.java"])
    (row_effect three_cases "out" 3 macro_template_text case_template_text 0
       locked_world)
  = (fst (process_required_templates standard_templates three_cases "out"
            locked_world),
     Ok (["out/Case1.sim"], ["out/Macro_Case1.java"; "out/Macro_Case2.java"])))
    by (vm_compute; reflexivity).
  assert (H4 : required_template_body three_cases "out" 1 (case_number 3 1)
    ("Case.sim", case_template_path)
    (["out/Case1.sim"], ["out/Macro_Case1.java"; "out/Macro_Case2.java"])
    (fst (process_required_templates standard_templates three_cases "out"
            locked_world))
  = (fst (process_required_templates standard_templates three_cases "out"
            locked_world),
     Raise PermissionError))
    by (vm_compute; reflexivity).
  split; [exact H0|]. split; [exact H1|]. split; [exact H2|].
  split; [exact H3|]. split; [exact H4|].
  exact (proj1 (failure_in_one_case_aborts_the_run
                  [("Macro.java", macro_template_path)] []
                  "Case.sim" case_template_path three_cases
                  "out" 3 1 _ _ PermissionError locked_world _ _ _
                  H0 H1 H2 H3 H4)).
Defined.

(** C9.  With an empty parameter table both instantiation functions raise
    the [ValueError] of [min] over an empty sequence and leave the world as
    it was; with a non-empty table the row count is computed and each
    function goes on to its loop over the rows. *)
Theorem empty_table_raises_before_any_write
    (templates : list (string * string)) (out : string)
    (replace_rules : list (string * string)) (w : world) :
  process_required_templates templates [] out w = (w, Raise ValueError) /\
  process_custom_templates templates [] out replace_rules w
    = (w, Raise ValueError) /\
  forall table, table <> [] ->
    exists N,
      num_rows_M table w = (w, Ok N) /\
      process_required_templates templates table out w =
        for_each (seq 0 N)
          (required_row_body templates table out N) ([], []) w /\
      process_custom_templates templates table out replace_rules w =
        for_each (seq 0 N)
          (fun row_index generated_files =>
             for_each templates
               (custom_template_body replace_rules out
                  (case_number N row_index))
               generated_files)
          [] w.
Proof.
  split; [reflexivity|]. split; [reflexivity|].
  intros table Hne.
  destruct (num_rows_of_nonempty table Hne) as (N & HN & _).
  exists N. unfold process_required_templates, process_custom_templates,
    num_rows_M. rewrite HN. repeat split.
Qed.

Lemma empty_table_raises_before_any_write_witness :
  three_cases <> [] /\
  exists N,
    num_rows_M three_cases fresh_world = (fresh_world, Ok N) /\
    process_required_templates standard_templates three_cases "out" fresh_world =
      for_each (seq 0 N)
        (required_row_body standard_templates three_cases "out" N) ([], [])
        fresh_world /\
    process_custom_templates standard_templates three_cases "out"
      default_replace_rules fresh_world =
      for_each (seq 0 N)
        (fun row_index generated_files =>
           for_each standard_templates
             (custom_template_body default_replace_rules "out"
                (case_number N row_index))
             generated_files)
        [] fresh_world.
Proof.
  split; [discriminate|].
  apply (proj2 (proj2 (empty_table_raises_before_any_write standard_templates
                         "out" default_replace_rules fresh_world))).
  discriminate.
Defined.

End RequiredPhase.

(** ** The batch executor *)

Section BatchExecutor.

Variables (os : ospath) (tool : nat -> job_oracle).
Variables (out : string) (np : Z).

Lemma count_successes_from (l : list job_report) (a : nat) :
  fold_left (fun success_count r =>
               if job_returned r then success_count + 1 else success_count)
            l a
  = a + List.length (filter job_returned l).
Proof.
  revert a; induction l as [|r l IH]; intros a; cbn [fold_left filter].
  - cbn [List.length]. lia.
  - rewrite IH. destruct (job_returned r); cbn [List.length]; lia.
Qed.

Lemma count_successes_filter (l : list job_report) :
  count_successes l = List.length (filter job_returned l).
Proof. unfold count_successes. now rewrite count_successes_from. Qed.

Lemma filter_Permutation {A} (f : A -> bool) (l l' : list A) :
  Permutation l l' -> Permutation (filter f l) (filter f l').
Proof.
  induction 1 as [|x l l' _ IH|x y l|l l' l'' _ IH1 _ IH2]; cbn [filter].
  - constructor.
  - destruct (f x); [now constructor | assumption].
  - destruct (f x), (f y); try apply Permutation_refl. apply perm_swap.
  - now transitivity (filter f l').
Qed.

(** The count does not depend on the order of completion. *)
Lemma count_successes_Permutation (l l' : list job_report) :
  Permutation l l' -> count_successes l = count_successes l'.
Proof.
  intros H. rewrite !count_successes_filter.
  apply Permutation_length, filter_Permutation, H.
Qed.

Lemma filter_partition_length {A} (f : A -> bool) (l : list A) :
  List.length (filter f l) + List.length (filter (fun x => negb (f x)) l)
  = List.length l.
Proof.
  induction l as [|x l IH]; [reflexivity|].
  cbn [filter]. destruct (f x); cbn [negb List.length]; lia.
Qed.

Lemma submit_all_length (log_dir : string) (k : nat)
    (jobs : list (string * string)) :
  List.length (submit_all os out log_dir np tool k jobs) = List.length jobs.
Proof.
  revert k; induction jobs as [|[sim java] jobs IH]; intros k;
    cbn [submit_all List.length]; auto.
Qed.

(** The report of job [i] is made from its own two files and its own
    oracle. *)
Lemma submit_all_nth (log_dir : string) (jobs : list (string * string))
    (k i : nat) (sim java : string) :
  nth_error jobs i = Some (sim, java) ->
  nth_error (submit_all os out log_dir np tool k jobs) i
  = Some (execute_case os out log_dir np (tool (k + i)) sim java).
Proof.
  revert k i; induction jobs as [|[s j] jobs IH]; intros k i H.
  - destruct i; discriminate.
  - destruct i as [|i]; cbn [submit_all nth_error] in *.
    + injection H as -> ->. now rewrite Nat.add_0_r.
    + rewrite (IH (S k) i H). do 3 f_equal. lia.
Qed.

Lemma combine_nth_error {A B} (l : list A) (l' : list B) (i : nat) (a : A)
    (b : B) :
  nth_error l i = Some a -> nth_error l' i = Some b ->
  nth_error (combine l l') i = Some (a, b).
Proof.
  revert l' i; induction l as [|x l IH]; intros [|y l'] [|i] Ha Hb;
    cbn [combine nth_error] in *; try discriminate.
  - congruence.
  - auto.
Qed.

(** [execute_case] returns [True] exactly when the tool exited with code 0
    and the removal of the backup file did not raise. *)
Lemma execute_case_returned (o : job_oracle) (sim java : string) :
  job_returned (execute_case os out (log_dir_of os out) np o sim java)
  = exit_code_zero os out np o sim java
    && negb (cleanup_raises os out o sim).
Proof.
  unfold execute_case, exit_code_zero, cleanup_raises, command_of,
    backup_of, case_of.
  destruct (os_system o _) as [z|e]; [|reflexivity].
  destruct (z =? 0)%Z; [|reflexivity].
  destruct (backup_exists o _); [|reflexivity].
  destruct (os_remove o _); reflexivity.
Qed.

(** What the launch raises is caught inside the job and logged there. *)
Lemma execute_case_catches (o : job_oracle) (sim java : string) (e : exn) :
  os_system o (command_of os out np o sim java) = Raise e ->
  job_returned (execute_case os out (log_dir_of os out) np o sim java) = false /\
  In (Error_case_exception sim e)
     (job_log (execute_case os out (log_dir_of os out) np o sim java)).
Proof.
  intros H. unfold execute_case. fold (case_of os sim).
  fold (log_dir_of os out). unfold command_of in H. rewrite H.
  cbn [job_returned job_log]. split; [reflexivity|].
  apply in_or_app. right. now left.
Qed.

Lemma os_makedirs_ok (path : string) (w : world) :
  can_makedirs w path ->
  exists w', os_makedirs path w = (w', Ok tt) /\
             log w' = log w /\ runs w' = runs w.
Proof.
  unfold os_makedirs. intros [H|[Hf Hu]].
  - rewrite H. now exists w.
  - destruct (dirs w path); [now exists w|].
    rewrite Hf, Hu. now exists (add_dir path w).
Qed.

End BatchExecutor.

Section BatchClaims.

(** A job whose tool exited with code 0 and whose backup file could not be
    removed has logged its success and returns [False] all the same. *)
Lemma success_logged_failure_returned (os : ospath) (out : string) (np : Z)
    (o : job_oracle) (sim java : string) :
  exit_code_zero os out np o sim java = true ->
  cleanup_raises os out o sim = true ->
  In (Info_case_ok (case_of os sim))
     (job_log (execute_case os out (log_dir_of os out) np o sim java)) /\
  job_returned (execute_case os out (log_dir_of os out) np o sim java) = false.
Proof.
  unfold execute_case, exit_code_zero, cleanup_raises, command_of, backup_of,
    case_of, log_dir_of.
  destruct (os_system o _) as [z|e]; [|discriminate].
  intros ->. destruct (backup_exists o _); [|discriminate].
  destruct (os_remove o _); [discriminate|]. intros _.
  cbn [job_log job_returned]. split; [|reflexivity].
  apply in_or_app. right. now left.
Qed.

(** C5, at a failing input.  A batch of one job: the tool exits with code
    0, the backup file is there and removing it raises [PermissionError].
    The job logs the start, the log file and the success of [Case1], then
    the exception, and returns [False]; the batch returns normally and
    reports 0 successes out of 1, where the claim counts the jobs whose
    exit code is 0 and so expects 1 out of 1. *)
Theorem exit_zero_job_counted_as_failure :
  exit_code_zero work_os "out" 1 (cleanup_denied 0)
    "out/Case1.sim" "out/Macro_Case1.java" = true /\
  process_sim_command work_os cleanup_denied (fun l => l)
    ["out/Case1.sim"] ["out/Macro_Case1.java"] "out" 1 4 fresh_world
  = (fst (process_sim_command work_os cleanup_denied (fun l => l)
            ["out/Case1.sim"] ["out/Macro_Case1.java"] "out" 1 4 fresh_world),
     Ok tt) /\
  map job_log
    (runs (fst (process_sim_command work_os cleanup_denied (fun l => l)
                  ["out/Case1.sim"] ["out/Macro_Case1.java"] "out" 1 4
                  fresh_world)))
  = [[Info_case_start "Case1";
      Info_case_log "out/execution_logs/Case1_20240101_120000.log";
      Info_case_ok "Case1";
      Error_case_exception "out/Case1.sim" PermissionError]] /\
  map job_returned
    (runs (fst (process_sim_command work_os cleanup_denied (fun l => l)
                  ["out/Case1.sim"] ["out/Macro_Case1.java"] "out" 1 4
                  fresh_world)))
  = [false] /\
  log (fst (process_sim_command work_os cleanup_denied (fun l => l)
              ["out/Case1.sim"] ["out/Macro_Case1.java"] "out" 1 4
              fresh_world))
  = [Info_count_match 1 1; Info_batch_done 0 1].
Proof. repeat split; vm_compute; reflexivity. Qed.

Lemma fresh_world_can_makedirs (path : string) :
  files fresh_world path = None -> can_makedirs fresh_world path.
Proof. intros H. right. split; [exact H | reflexivity]. Qed.

(** C6.  When the two lists differ in length, [process_sim_command] logs
    the mismatch and returns without raising: no job is run, no directory is
    made, no file is touched, no line about a case is logged; whatever
    follows the call, the auxiliary templates for one, runs next. *)
Theorem count_mismatch_returns_without_running
    (os : ospath) (tool : nat -> job_oracle)
    (as_completed : list job_report -> list job_report)
    (sim_files java_files : list string) (out : string)
    (np max_threads : Z) (w : world) :
  List.length sim_files <> List.length java_files ->
  exists w',
    process_sim_command os tool as_completed sim_files java_files out np
      max_threads w = (w', Ok tt) /\
    runs w' = runs w /\
    dirs w' = dirs w /\
    files w' = files w /\
    log w' =
      (log w ++ [Error_count_mismatch (List.length sim_files)
                   (List.length java_files)])%list /\
    forall custom_templates table replace_rules,
      bind (process_sim_command os tool as_completed sim_files java_files
              out np max_threads)
           (fun _ => process_custom_templates custom_templates table out
                       replace_rules) w
      = process_custom_templates custom_templates table out replace_rules w'.
Proof.
  intros Hne.
  exists (add_log (Error_count_mismatch (List.length sim_files)
                     (List.length java_files)) w).
  assert (Hrun : process_sim_command os tool as_completed sim_files java_files
                   out np max_threads w
                 = (add_log (Error_count_mismatch (List.length sim_files)
                               (List.length java_files)) w, Ok tt)).
  { unfold process_sim_command. apply Nat.eqb_neq in Hne. now rewrite Hne. }
  repeat (split; [first [exact Hrun | reflexivity]|]).
  intros custom_templates table replace_rules.
  now rewrite (bind_ok _ _ _ _ _ Hrun).
Qed.

Lemma count_mismatch_returns_without_running_witness :
  List.length three_sims <> List.length ["out/Macro_Case1.java"] /\
  exists w',
    process_sim_command work_os all_pass (fun l => l) three_sims
      ["out/Macro_Case1.java"] "out" 1 4 fresh_world = (w', Ok tt) /\
    runs w' = runs fresh_world /\
    dirs w' = dirs fresh_world /\
    files w' = files fresh_world /\
    log w' = (log fresh_world ++ [Error_count_mismatch 3 1])%list.
Proof.
  split; [discriminate|].
  destruct (count_mismatch_returns_without_running work_os all_pass
              (fun l => l) three_sims ["out/Macro_Case1.java"] "out" 1 4
              fresh_world)
    as (w' & H1 & H2 & H3 & H4 & H5 & _); [discriminate|].
  exists w'. repeat (split; [assumption|]). exact H5.
Defined.

End BatchClaims.

(** ** The output folder *)

Section OutputFolder.

Variable os : ospath.

Lemma CreatOutputFolder_empty (w : world) :
  CreatOutputFolder os "" w = (after_empty_path os w, Ok None).
Proof. reflexivity. Qed.

Lemma CreatOutputFolder_returns (p : string) (w : world) :
  exists w' r, CreatOutputFolder os p w = (w', Ok r).
Proof.
  unfold CreatOutputFolder, bind, logging, try_except.
  destruct (negb (p =? "")%string); cbn [ret raise].
  - unfold os_makedirs. cbn [dirs files unwritable add_log].
    destruct (dirs w (abspath os p)); [now eexists _, _|].
    destruct (files w (abspath os p)); [now eexists _, _|].
    destruct (unwritable w (abspath os p)); now eexists _, _.
  - now eexists _, _.
Qed.

Lemma CreatOutputFolder_some (p q : string) (w w' : world) :
  CreatOutputFolder os p w = (w', Ok (Some q)) ->
  p <> "" /\ q = abspath os p /\ dirs w' q = true.
Proof.
  unfold CreatOutputFolder, bind, logging, try_except.
  destruct (String.eqb_spec p "") as [->|Hne]; cbn [negb ret raise].
  - discriminate.
  - unfold os_makedirs. cbn [dirs files unwritable add_log].
    destruct (dirs w (abspath os p)) eqn:Hd.
    + intros H. injection H as <- <-. cbn [dirs add_log]. auto.
    + destruct (files w (abspath os p)); [discriminate|].
      destruct (unwritable w (abspath os p)); [discriminate|].
      intros H. injection H as <- <-. cbn [dirs add_log add_dir].
      rewrite String.eqb_refl. auto.
Qed.

Lemma CreatOutputFolder_creates (p : string) (w : world) :
  p <> "" ->
  can_makedirs w (abspath os p) ->
  exists w', CreatOutputFolder os p w = (w', Ok (Some (abspath os p))) /\
             dirs w' (abspath os p) = true /\
             (forall q, dirs w q = true -> dirs w' q = true).
Proof.
  intros Hne Hmk. unfold CreatOutputFolder, bind, logging, try_except.
  apply String.eqb_neq in Hne. rewrite Hne. cbn [negb ret raise].
  unfold os_makedirs. cbn [dirs files unwritable add_log].
  destruct (dirs w (abspath os p)) eqn:Hd.
  - eexists. split; [reflexivity|]. cbn [dirs add_log]. auto.
  - destruct Hmk as [Hmk|[Hf Hu]]; [congruence|]. rewrite Hf, Hu.
    eexists. split; [reflexivity|]. cbn [dirs add_log add_dir].
    rewrite String.eqb_refl. split; [reflexivity|].
    intros q Hq. rewrite Hq. apply orb_true_r.
Qed.

End OutputFolder.

(** C10.  Called with the empty path, [CreatOutputFolder] logs the default
    folder, fails on the unbound local inside [try], logs the failure and
    returns [None]: no directory is made, the default folder included.  It
    never raises.  Whenever it returns a path, the path given was not
    empty, the result is its absolute path and that directory exists; with
    a non-empty path whose directory exists or can be made it does return
    that path, and a second call returns it again and makes nothing new. *)
Theorem empty_output_path_returns_none (os : ospath) (w : world) :
  CreatOutputFolder os "" w = (after_empty_path os w, Ok None) /\
  log (after_empty_path os w) =
    (log w ++ [Info_output_header;
               Info_default_output (join os (script_dir os) "batch_cases");
               Error_output_failed UnboundLocalError;
               Error_check_path])%list /\
  dirs (after_empty_path os w) = dirs w /\
  files (after_empty_path os w) = files w /\
  (forall p, exists w' r, CreatOutputFolder os p w = (w', Ok r)) /\
  (forall p q w', CreatOutputFolder os p w = (w', Ok (Some q)) ->
     p <> "" /\ q = abspath os p /\ dirs w' q = true) /\
  (forall p, p <> "" -> can_makedirs w (abspath os p) ->
     exists w' w'',
       CreatOutputFolder os p w = (w', Ok (Some (abspath os p))) /\
       dirs w' (abspath os p) = true /\
       CreatOutputFolder os p w' = (w'', Ok (Some (abspath os p))) /\
       dirs w'' = dirs w').
Proof.
  split; [reflexivity|].
  split; [cbn [after_empty_path log add_log]; now rewrite <- !app_assoc|].
  split; [reflexivity|]. split; [reflexivity|].
  split; [intros p; apply CreatOutputFolder_returns|].
  split; [intros p q w'; apply CreatOutputFolder_some|].
  intros p Hne Hmk.
  destruct (CreatOutputFolder_creates os p w Hne Hmk) as (w' & Hrun & Hd & _).
  exists w'.
  assert (H2 : CreatOutputFolder os p w' =
               (add_log (Info_output_confirmed (abspath os p))
                  (add_log (Info_user_output (abspath os p))
                     (add_log (Info_default_output
                                 (join os (script_dir os) "batch_cases"))
                        (add_log Info_output_header w'))),
                Ok (Some (abspath os p)))).
  { unfold CreatOutputFolder, bind, logging, try_except.
    apply String.eqb_neq in Hne. rewrite Hne. cbn [negb ret raise].
    unfold os_makedirs. cbn [dirs files unwritable add_log].
    now rewrite Hd. }
  eexists. split; [exact Hrun|]. split; [exact Hd|].
  split; [exact H2 | reflexivity].
Qed.

Lemma empty_output_path_returns_none_witness :
  "batch_out" <> "" /\
  can_makedirs fresh_world (abspath work_os "batch_out") /\
  exists w' w'',
    CreatOutputFolder work_os "batch_out" fresh_world
      = (w', Ok (Some "/work/batch_out")) /\
    dirs w' "/work/batch_out" = true /\
    CreatOutputFolder work_os "batch_out" w'
      = (w'', Ok (Some "/work/batch_out")) /\
    dirs w'' = dirs w'.
Proof.
  split; [discriminate|].
  split; [apply fresh_world_can_makedirs; reflexivity|].
  apply (proj2 (proj2 (proj2 (proj2 (proj2 (proj2
           (empty_output_path_returns_none work_os fresh_world))))))
           "batch_out").
  - discriminate.
  - apply fresh_world_can_makedirs; reflexivity.
Defined.

(** The empty path, run: nothing is made at the default folder. *)
Example empty_output_path_run :
  snd (CreatOutputFolder work_os "" fresh_world) = Ok None /\
  dirs (fst (CreatOutputFolder work_os "" fresh_world)) "/work/batch_cases"
  = false.
Proof. split; reflexivity. Qed.

(** ** Auxiliary templates *)

Section CustomTemplates.

(** C8, at a failing input.  With a configured rule for [CaseName],
    [get_custom_templates] returns a rule set in which the configured text
    has taken the place of [CASE_NUMBER]; yet the generated auxiliary file
    has the case identifier, not the configured text, where the template
    had [CaseName]. *)
Lemma configured_case_name_rule_ignored :
  get_custom_templates report_listing (fun f => "tpl/" ++ f)
    (Some configured_rules)
  = ([("Report.txt", "tpl/template_Report.txt")], [("CaseName", "RUN-A")]) /\
  process_custom_templates [("Report.txt", "tpl/template_Report.txt")]
    two_cases "out" [("CaseName", "RUN-A")] report_world
  = (fst (process_custom_templates [("Report.txt", "tpl/template_Report.txt")]
            two_cases "out" [("CaseName", "RUN-A")] report_world),
     Ok ["out/Report_Case1.txt"; "out/Report_Case2.txt"]) /\
  files (fst (process_custom_templates
                [("Report.txt", "tpl/template_Report.txt")]
                two_cases "out" [("CaseName", "RUN-A")] report_world))
        "out/Report_Case1.txt"
  = Some "report of Case1, made from Report_Case1" /\
  replace "CaseName" "RUN-A" report_template_text
  = "report of RUN-A, made from template_Report".
Proof. repeat split; vm_compute; reflexivity. Qed.

(** Without configuration the rule set is the default one, and it maps
    [CaseName] to the case identifier. *)
Example default_rule_run :
  get_custom_templates report_listing (fun f => "tpl/" ++ f) None
  = ([("Report.txt", "tpl/template_Report.txt")],
     [("CaseName", "CASE_NUMBER")]) /\
  apply_rules default_replace_rules "Case01" "id: CaseName"
  = "id: Case01".
Proof. split; vm_compute; reflexivity. Qed.

Lemma digits_clash_case_name (D : string) :
  forallb_string is_digit D = true -> suffixes_clash D "CaseName" = true.
Proof.
  induction D as [|d D IH]; [reflexivity|].
  cbn [forallb_string]. intros H. apply andb_true_iff in H as [Hd HD].
  cbn [suffixes_clash clash].
  rewrite (is_digit_neq d "C" Hd) by reflexivity. cbn [andb]. auto.
Qed.

(** A case identifier and [CaseName] clash both ways: they part at the
    first digit. *)
Lemma case_number_clash (N i : nat) :
  suffixes_clash "CaseName" (case_number N i) = true /\
  suffixes_clash (case_number N i) "CaseName" = true.
Proof.
  unfold case_number.
  destruct (format_0d_digits (num_digits N) (i + 1)) as [HD Hne].
  destruct (format_0d (num_digits N) (i + 1)) as [|d D]; [congruence|].
  cbn [forallb_string] in HD. apply andb_true_iff in HD as [Hd HD].
  assert (HN : Ascii.eqb "N" d = false)
    by (rewrite Ascii.eqb_sym; now apply is_digit_neq).
  assert (HN' : Ascii.eqb d "N" = false) by now apply is_digit_neq.
  assert (HC : Ascii.eqb d "C" = false) by now apply is_digit_neq.
  split.
  - cbn [append suffixes_clash clash]. rewrite HN. reflexivity.
  - cbn [append suffixes_clash clash]. rewrite HN', HC.
    rewrite (digits_clash_case_name D HD). reflexivity.
Qed.

(** Once [CaseName] has been replaced by the case identifier, a further
    replacement of [CaseName] finds nothing to act on. *)
Lemma second_case_name_pass_idle (N i : nat) (new c : string) :
  replace "CaseName" new (replace "CaseName" (case_number N i) c)
  = replace "CaseName" (case_number N i) c.
Proof.
  destruct (case_number_clash N i) as [H1 H2].
  apply replace_absent, replace_removes_clash; [discriminate | assumption..].
Qed.

Lemma dict_update_keeps_head (rules l : list (string * string)) (a : string) :
  exists v l', dict_update (("CaseName", a) :: l) rules = ("CaseName", v) :: l'.
Proof.
  unfold dict_update. revert a l; induction rules as [|[k v] rules IH];
    intros a l; cbn [fold_left fst snd dict_set].
  - now exists a, l.
  - destruct (String.eqb_spec "CaseName" k) as [<-|_]; apply IH.
Qed.

(** Whatever text the configuration gives [CaseName], and whatever the
    other rules are, the rule for [CaseName] has no effect on the content
    generated for any case of a run: the rule set always starts with it,
    and the content is the same as without it. *)
Lemma case_name_rule_never_applies
    (configured : list (string * string)) (N i : nat)
    (display_name output_filename content : string) :
  exists text others,
    dict_update default_replace_rules configured
      = ("CaseName", text) :: others /\
    custom_passes (dict_update default_replace_rules configured)
      display_name output_filename (case_number N i) content
    = custom_passes others display_name output_filename (case_number N i)
        content.
Proof.
  destruct (dict_update_keeps_head configured [] "CASE_NUMBER")
    as (text & others & E).
  exists text, others. split; [exact E|].
  unfold default_replace_rules. rewrite E.
  unfold custom_passes, apply_rules. cbn [fold_left fst snd].
  now rewrite second_case_name_pass_idle.
Qed.

End CustomTemplates.

(* ================================================================== *)
(** * Part III: the rest of the script                                  *)
(* ================================================================== *)

(** ** [normalize_path] *)

Section NormalizePath.

Lemma normalize_path_cons (c : ascii) (p : string) :
  normalize_path (String c p) = String (normalize_char c) (normalize_path p).
Proof.
  unfold normalize_path, normalize_char. rewrite replace_char_cons.
  rewrite (Ascii.eqb_sym c backslash).
  destruct (Ascii.eqb backslash c); reflexivity.
Qed.

Lemma normalize_char_not_backslash (c : ascii) :
  Ascii.eqb backslash (normalize_char c) = false.
Proof.
  unfold normalize_char. destruct (Ascii.eqb c backslash) eqn:E.
  - reflexivity.
  - now rewrite Ascii.eqb_sym.
Qed.

(** X1.  [normalize_path] changes each backslash into a forward slash and
    nothing else, position by position: the length is kept, no backslash is
    left, a path without backslashes is returned as it is, and normalizing
    twice is normalizing once. *)
Theorem normalize_path_only_turns_backslashes (p : string) :
  (forall n, String.get n (normalize_path p)
             = option_map normalize_char (String.get n p)) /\
  String.length (normalize_path p) = String.length p /\
  mem_char backslash (normalize_path p) = false /\
  (mem_char backslash p = false -> normalize_path p = p) /\
  normalize_path (normalize_path p) = normalize_path p.
Proof.
  assert (Hnb : forall q, mem_char backslash (normalize_path q) = false).
  { induction q as [|c q IH]; [reflexivity|].
    rewrite normalize_path_cons. cbn [mem_char].
    now rewrite normalize_char_not_backslash, IH. }
  split; [|split; [|split; [|split]]].
  - induction p as [|c p IH]; intros n; [reflexivity|].
    rewrite normalize_path_cons. destruct n as [|n]; [reflexivity|].
    cbn [String.get]. apply IH.
  - induction p as [|c p IH]; [reflexivity|].
    rewrite normalize_path_cons. cbn [String.length]. now rewrite IH.
  - apply Hnb.
  - apply normalize_path_plain.
  - apply normalize_path_plain, Hnb.
Qed.

End NormalizePath.

(** ** What [process_required_templates] returns and raises, in any world *)

Section RunShape.

Lemma bind_ok_inv {A B} (m : M A) (k : A -> M B) (w w' : world) (b : B) :
  bind m k w = (w', Ok b) ->
  exists w1 a, m w = (w1, Ok a) /\ k a w1 = (w', Ok b).
Proof.
  unfold bind. destruct (m w) as [w1 [a|e]]; intros H; [|discriminate].
  now exists w1, a.
Qed.

Lemma bind_raise_inv {A B} (m : M A) (k : A -> M B) (w w' : world) (e : exn) :
  bind m k w = (w', Raise e) ->
  m w = (w', Raise e) \/
  exists w1 a, m w = (w1, Ok a) /\ k a w1 = (w', Raise e).
Proof.
  unfold bind. destruct (m w) as [w1 [a|e1]]; intros H.
  - right. now exists w1, a.
  - left. now injection H as -> ->.
Qed.

(** A loop that returned has run its body on every element; when the body
    changes the locals by [g], the loop changes them by the fold of [g]. *)
Lemma for_each_ok_fold {X S} (g : X -> S -> S) (body : X -> S -> M S)
    (l : list X) :
  (forall x s w w' s', In x l -> body x s w = (w', Ok s') -> s' = g x s) ->
  forall s w w' s',
    for_each l body s w = (w', Ok s') ->
    s' = fold_left (fun s x => g x s) l s.
Proof.
  induction l as [|x l IH]; intros Hg s w w' s' H; cbn [for_each fold_left] in *.
  - unfold ret in H. now injection H as _ <-.
  - apply bind_ok_inv in H as (w1 & s1 & H1 & H2).
    apply (Hg x s w w1 s1 (or_introl eq_refl)) in H1. subst s1.
    eapply IH; [|exact H2]. intros y t u u' t' Hy. apply Hg. now right.
Qed.

(** A loop that raised did so in the body, at one of its elements. *)
Lemma for_each_raise_inv {X S} (body : X -> S -> M S) (l : list X) :
  forall s w w' e,
    for_each l body s w = (w', Raise e) ->
    exists x s0 w0, In x l /\ body x s0 w0 = (w', Raise e).
Proof.
  induction l as [|x l IH]; intros s w w' e H; cbn [for_each] in H.
  - discriminate.
  - apply bind_raise_inv in H as [H|(w1 & s1 & _ & H)].
    + exists x, s, w. split; [now left | exact H].
    + destruct (IH _ _ _ _ H) as (y & s0 & w0 & Hy & Hb).
      exists y, s0, w0. split; [now right | exact Hb].
Qed.

Lemma required_template_body_lists (table : param_table) (out : string)
    (i : nat) (case : string) (tpl : string * string)
    (lists lists' : list string * list string) (w w' : world) :
  required_template_body table out i case tpl lists w = (w', Ok lists') ->
  lists' = lists_after out case tpl lists.
Proof.
  unfold required_template_body, lists_after, suffixed_output_path.
  destruct (endswith (fst tpl) ".sim").
  - intros H. apply bind_ok_inv in H as (w1 & [] & _ & H).
    unfold ret in H. now injection H as _ <-.
  - destruct (endswith (fst tpl) ".java").
    + intros H. apply bind_ok_inv in H as (w1 & [] & _ & H).
      apply bind_ok_inv in H as (w2 & c & _ & H).
      apply bind_ok_inv in H as (w3 & c' & _ & H).
      apply bind_ok_inv in H as (w4 & [] & _ & H).
      unfold ret in H. now injection H as _ <-.
    + unfold ret. intros H. now injection H as _ <-.
Qed.

Lemma lists_after_fold (out case : string) (tpls : list (string * string))
    (lists : list string * list string) :
  fold_left (fun s tpl => lists_after out case tpl s) tpls lists
  = ((fst lists
      ++ map (fun _ => sim_output_path out case)
             (filter is_sim_template tpls))%list,
     (snd lists
      ++ map (fun tpl => suffixed_output_path out (fst tpl) case)
             (filter is_java_template tpls))%list).
Proof.
  revert lists; induction tpls as [|tpl tpls IH]; intros lists.
  - cbn [fold_left filter map]. now rewrite !app_nil_r, <- surjective_pairing.
  - cbn [fold_left filter]. rewrite IH.
    unfold lists_after, is_sim_template, is_java_template.
    destruct (endswith (fst tpl) ".sim"); cbn [negb andb fst snd map].
    + now rewrite <- app_assoc.
    + destruct (endswith (fst tpl) ".java"); cbn [fst snd map];
        [now rewrite <- app_assoc | reflexivity].
Qed.

Lemma rows_fold (tpls : list (string * string)) (out : string) (N : nat)
    (rows : list nat) (lists : list string * list string) :
  fold_left
    (fun s i =>
       fold_left (fun s tpl => lists_after out (case_number N i) tpl s) tpls s)
    rows lists
  = ((fst lists
      ++ flat_map
           (fun i => map (fun _ => sim_output_path out (case_number N i))
                         (filter is_sim_template tpls)) rows)%list,
     (snd lists
      ++ flat_map
           (fun i =>
              map (fun tpl =>
                     suffixed_output_path out (fst tpl) (case_number N i))
                  (filter is_java_template tpls)) rows)%list).
Proof.
  revert lists; induction rows as [|i rows IH]; intros lists.
  - cbn [fold_left flat_map]. now rewrite !app_nil_r, <- surjective_pairing.
  - cbn [fold_left flat_map]. rewrite IH, lists_after_fold. cbn [fst snd].
    now rewrite <- !app_assoc.
Qed.

Lemma length_flat_map_const {A B} (f : A -> list B) (l : list A) (k : nat) :
  (forall a, List.length (f a) = k) ->
  List.length (flat_map f l) = List.length l * k.
Proof.
  intros Hf. induction l as [|a l IH]; [reflexivity|].
  cbn [flat_map List.length]. rewrite length_app, Hf, IH. lia.
Qed.

Lemma returned_lists_shape
    (required_templates : list (string * string)) (table : param_table)
    (out : string) (w w' : world) (sim_files java_files : list string) :
  process_required_templates required_templates table out w
  = (w', Ok (sim_files, java_files)) ->
  exists N,
    num_rows_of table = Some N /\
    sim_files = planned_sim_files required_templates out N /\
    java_files = planned_java_files required_templates out N /\
    List.length sim_files
    = N * List.length (filter is_sim_template required_templates) /\
    List.length java_files
    = N * List.length (filter is_java_template required_templates).
Proof.
  unfold process_required_templates, num_rows_M. intros H.
  destruct (num_rows_of table) as [N|]; [|discriminate].
  unfold bind at 1 in H. cbn [ret] in H.
  exists N. split; [reflexivity|].
  apply (for_each_ok_fold
           (fun i s =>
              fold_left (fun s tpl => lists_after out (case_number N i) tpl s)
                        required_templates s)) in H.
  - rewrite rows_fold in H. cbn [fst snd app] in H.
    injection H as -> ->. unfold planned_sim_files, planned_java_files.
    split; [reflexivity|]. split; [reflexivity|].
    split; (erewrite length_flat_map_const;
            [rewrite length_seq; reflexivity
            | intros a; now rewrite length_map]).
  - intros i s u u' s' _ Hrow. unfold required_row_body in Hrow.
    apply (for_each_ok_fold
             (fun tpl s => lists_after out (case_number N i) tpl s)) in Hrow;
      [exact Hrow|].
    intros tpl t v v' t' _ Hb. eapply required_template_body_lists, Hb.
Qed.

(** X2.  Whenever [process_required_templates] returns, in whatever world
    and for whatever dict of templates, its two lists are fixed by the
    templates and the row count [N] alone: row by row, one case path per
    [.sim] template and one suffixed path per [.java] template, so their
    lengths are [N] times the number of templates of each kind. *)
Theorem returned_lists_follow_templates_and_rows
    (required_templates : list (string * string)) (table : param_table)
    (out : string) (w w' : world) (sim_files java_files : list string) :
  process_required_templates required_templates table out w
  = (w', Ok (sim_files, java_files)) ->
  exists N,
    num_rows_of table = Some N /\
    sim_files = planned_sim_files required_templates out N /\
    java_files = planned_java_files required_templates out N /\
    List.length sim_files
    = N * List.length (filter is_sim_template required_templates) /\
    List.length java_files
    = N * List.length (filter is_java_template required_templates).
Proof. apply returned_lists_shape. Qed.

Lemma returned_lists_follow_templates_and_rows_witness :
  process_required_templates standard_templates ragged_table "out" fresh_world
  = (fst (process_required_templates standard_templates ragged_table "out"
            fresh_world),
     Ok (["out/Case1.sim"; "out/Case2.sim"; "out/Case3.sim"],
         ["out/Macro_Case1.java"; "out/Macro_Case2.java";
          "out/Macro_Case3.java"])) /\
  exists N,
    num_rows_of ragged_table = Some N /\
    List.length ["out/Case1.sim"; "out/Case2.sim"; "out/Case3.sim"]
    = N * List.length (filter is_sim_template standard_templates).
Proof.
  assert (H : process_required_templates standard_templates ragged_table "out"
                fresh_world
              = (fst (process_required_templates standard_templates
                        ragged_table "out" fresh_world),
                 Ok (["out/Case1.sim"; "out/Case2.sim"; "out/Case3.sim"],
                     ["out/Macro_Case1.java"; "out/Macro_Case2.java";
                      "out/Macro_Case3.java"])))
    by (vm_compute; reflexivity).
  split; [exact H|].
  destruct (returned_lists_follow_templates_and_rows _ _ _ _ _ _ _ H)
    as (N & HN & _ & _ & Hlen & _).
  exists N. split; [exact HN | exact Hlen].
Defined.

Lemma num_rows_of_none (table : param_table) :
  num_rows_of table = None -> table = [].
Proof.
  destruct table as [|kv t]; [reflexivity|]. intros H.
  destruct (num_rows_of_nonempty (kv :: t)) as (N & HN & _); [discriminate|].
  congruence.
Qed.

Lemma shutil_copy_raises (src dst : string) (w w' : world) (e : exn) :
  shutil_copy src dst w = (w', Raise e) -> file_error e = true /\ w' = w.
Proof.
  unfold shutil_copy. destruct (src =? dst)%string.
  - intros H. now injection H as <- <-.
  - destruct (files w src); [destruct (unwritable w dst)|];
      intros H; try discriminate; now injection H as <- <-.
Qed.

Lemma read_file_raises (path : string) (w w' : world) (e : exn) :
  read_file path w = (w', Raise e) ->
  w' = w /\
  (file_error e = true \/
   (e = UnicodeDecodeError /\
    exists content,
      files w path = Some content /\ valid_utf8 content = false)).
Proof.
  unfold read_file. destruct (files w path) as [content|].
  - destruct (unwritable w path).
    + intros H. injection H as <- <-. split; [reflexivity | now left].
    + destruct (valid_utf8 content) eqn:Hv; [discriminate|].
      intros H. injection H as <- <-. split; [reflexivity|].
      right. split; [reflexivity|]. now exists content.
  - intros H. injection H as <- <-. split; [reflexivity | now left].
Qed.

Lemma write_file_raises (path content : string) (w w' : world) (e : exn) :
  write_file path content w = (w', Raise e) -> file_error e = true.
Proof.
  unfold write_file. destruct (unwritable w path);
    intros H; try discriminate; now injection H as _ <-.
Qed.



End RunShape.

(** ** Generated paths never collide; generating twice changes nothing *)

Section GeneratedFiles.

(** X4.  The [2 N] paths that a run over the two required templates
    generates are pairwise distinct, whatever the output folder: no case
    file and no macro file is written over by another case. *)
Theorem generated_paths_pairwise_distinct (out : string) (N : nat) :
  NoDup (map (case_output_path out N) (seq 0 N)
         ++ map (macro_output_path out N) (seq 0 N)).
Proof.
  apply NoDup_app_disjoint.
  - apply NoDup_map_inj_on; [|apply seq_NoDup].
    intros i j Hi Hj. apply in_seq in Hi, Hj.
    apply case_output_path_inj; lia.
  - apply NoDup_map_inj_on; [|apply seq_NoDup].
    intros i j Hi Hj. apply in_seq in Hi, Hj.
    apply macro_output_path_inj; lia.
  - intros q Hc Hm.
    apply in_map_iff in Hc as (i & <- & _).
    apply in_map_iff in Hm as (j & Hm & _).
    symmetry in Hm. revert Hm. apply case_macro_output_path_neq.
Qed.

Lemma ready_rows_effect (table : param_table)
    (out macro_path case_path mc cc : string) (N : nat) (rows : list nat) :
  (forall i, In i rows -> i < N) ->
  forall w, ready w macro_path case_path mc cc out N ->
    ready (rows_effect table out N mc cc rows w)
      macro_path case_path mc cc out N.
Proof.
  induction rows as [|i rows IH]; intros Hrows w Hw; [exact Hw|].
  rewrite rows_effect_cons. apply IH.
  - intros j Hj. apply Hrows. now right.
  - apply ready_row_effect; [apply Hrows; now left | exact Hw].
Qed.

Lemma generated_or_not (out : string) (N : nat) (q : string) :
  (exists i, i < N /\
             (q = case_output_path out N i \/ q = macro_output_path out N i)) \/
  (forall i, i < N ->
     q <> case_output_path out N i /\ q <> macro_output_path out N i).
Proof.
  assert (H : forall k, k <= N ->
    (exists i, i < k /\
               (q = case_output_path out N i \/ q = macro_output_path out N i)) \/
    (forall i, i < k ->
       q <> case_output_path out N i /\ q <> macro_output_path out N i)).
  { induction k as [|k IH]; intros Hk.
    - right. intros i Hi. lia.
    - destruct IH as [(i & Hi & Hq)|IH]; [lia | left; exists i; split; [lia | exact Hq] |].
      destruct (string_dec q (case_output_path out N k)) as [E|NE];
        [left; exists k; split; [lia | now left]|].
      destruct (string_dec q (macro_output_path out N k)) as [E|NE'];
        [left; exists k; split; [lia | now right]|].
      right. intros i Hi. destruct (Nat.eq_dec i k) as [->|]; [now split|].
      apply IH. lia. }
  apply H. lia.
Qed.



End GeneratedFiles.

(** ** From the templates to the batch *)

Section TemplatesToBatch.

Lemma get_required_templates_dict (os : ospath) (file_dir : string)
    (w : world) (events : list templates_event)
    (required_templates : list (string * string)) :
  get_required_templates os file_dir w = (events, Templates required_templates) ->
  events = [] /\
  required_templates
  = required_templates_at
      (normalize_path (join os file_dir "template_Macro.java"))
      (normalize_path (join os file_dir "template_Case.sim")) /\
  is_file w (normalize_path (join os file_dir "template_Macro.java")) = true /\
  is_file w (normalize_path (join os file_dir "template_Case.sim")) = true.
Proof.
  unfold get_required_templates, required_file_names.
  cbn [collect_required].
  destruct (is_file w (normalize_path (join os file_dir "template_Macro.java")));
    cbn [negb]; [|discriminate].
  destruct (is_file w (normalize_path (join os file_dir "template_Case.sim")));
    cbn [negb]; [|discriminate].
  intros H. injection H as <- <-. repeat split.
Qed.

Lemma process_sim_command_log_head (os : ospath) (tool : nat -> job_oracle)
    (as_completed : list job_report -> list job_report)
    (sim_files java_files : list string) (out : string)
    (np max_threads : Z) (w : world) :
  List.length sim_files = List.length java_files ->
  exists rest,
    log (fst (process_sim_command os tool as_completed sim_files java_files
                out np max_threads w))
    = (log w ++ Info_count_match (List.length sim_files)
                  (List.length java_files) :: rest)%list.
Proof.
  intros Hlen. unfold process_sim_command.
  apply Nat.eqb_eq in Hlen. rewrite Hlen. cbn [negb].
  unfold bind, logging, os_makedirs, raise, ret.
  cbn [dirs files unwritable add_log].
  destruct (dirs w _).
  - destruct (max_threads <=? 0)%Z; cbn [fst log add_log add_runs].
    + now exists [].
    + eexists. rewrite <- app_assoc. reflexivity.
  - destruct (files w _); [now exists []|].
    destruct (unwritable w _); [now exists []|].
    destruct (max_threads <=? 0)%Z; cbn [fst log add_log add_runs add_dir].
    + now exists [].
    + eexists. rewrite <- app_assoc. reflexivity.
Qed.

(** X6.  The dict that [get_required_templates] returns has one macro and
    one case template, so whenever [process_required_templates] returns on
    it the two lists have the same length, the row count; handed to
    [process_sim_command] they pass its count check, and the mismatch
    branch is never taken on this path. *)
Theorem required_templates_give_matched_lists
    (os : ospath) (file_dir : string) (w0 : world)
    (events : list templates_event)
    (required_templates : list (string * string)) (table : param_table)
    (out : string) (w w' : world) (sim_files java_files : list string)
    (tool : nat -> job_oracle)
    (as_completed : list job_report -> list job_report)
    (np max_threads : Z) :
  get_required_templates os file_dir w0 = (events, Templates required_templates) ->
  process_required_templates required_templates table out w
  = (w', Ok (sim_files, java_files)) ->
  num_rows_of table = Some (List.length sim_files) /\
  List.length java_files = List.length sim_files /\
  exists rest,
    log (fst (process_sim_command os tool as_completed sim_files java_files
                out np max_threads w'))
    = (log w' ++ Info_count_match (List.length sim_files)
                   (List.length sim_files) :: rest)%list.
Proof.
  intros Hget Hrun.
  apply get_required_templates_dict in Hget as (_ & -> & _).
  destruct (returned_lists_shape _ _ _ _ _ _ _ Hrun)
    as (N & HN & _ & _ & Hs & Hj).
  cbn in Hs, Hj. rewrite Nat.mul_1_r in Hs, Hj.
  split; [now rewrite Hs|]. split; [now rewrite Hs, Hj|].
  destruct (process_sim_command_log_head os tool as_completed sim_files
              java_files out np max_threads w') as (rest & Hlog);
    [now rewrite Hs, Hj|].
  exists rest. rewrite Hlog. do 3 f_equal. now rewrite Hs, Hj.
Qed.

Lemma required_templates_give_matched_lists_witness :
  get_required_templates work_os "tpl" fresh_world
  = ([], Templates standard_templates) /\
  process_required_templates standard_templates two_cases "out" fresh_world
  = (fst (process_required_templates standard_templates two_cases "out"
            fresh_world),
     Ok (["out/Case1.sim"; "out/Case2.sim"],
         ["out/Macro_Case1.java"; "out/Macro_Case2.java"])) /\
  num_rows_of two_cases
  = Some (List.length ["out/Case1.sim"; "out/Case2.sim"]) /\
  List.length ["out/Macro_Case1.java"; "out/Macro_Case2.java"]
  = List.length ["out/Case1.sim"; "out/Case2.sim"].
Proof.
  assert (H1 : get_required_templates work_os "tpl" fresh_world
               = ([], Templates standard_templates)) by reflexivity.
  assert (H2 : process_required_templates standard_templates two_cases "out"
                 fresh_world
               = (fst (process_required_templates standard_templates
                         two_cases "out" fresh_world),
                  Ok (["out/Case1.sim"; "out/Case2.sim"],
                      ["out/Macro_Case1.java"; "out/Macro_Case2.java"])))
    by (vm_compute; reflexivity).
  split; [exact H1|]. split; [exact H2|].
  destruct (required_templates_give_matched_lists work_os "tpl" fresh_world
              [] standard_templates two_cases "out" fresh_world _ _ _
              all_pass (fun l => l) 1 4 H1 H2) as (Ha & Hb & _).
  split; [exact Ha | exact Hb].
Defined.

End TemplatesToBatch.

(** ** The batch executor, further *)

Section BatchFurther.

(** X7.  [process_sim_command] raises only before any job is submitted:
    either the log directory cannot be made, or the pool is refused a size
    that is not positive, the directory then already made.  In both cases
    the lists had matched, the count line is the only line logged and no
    job has run. *)
Theorem batch_raises_before_any_job
    (os : ospath) (tool : nat -> job_oracle)
    (as_completed : list job_report -> list job_report)
    (sim_files java_files : list string) (out : string)
    (np max_threads : Z) (w w' : world) (e : exn) :
  process_sim_command os tool as_completed sim_files java_files out np
    max_threads w = (w', Raise e) ->
  List.length sim_files = List.length java_files /\
  runs w' = runs w /\
  log w' = (log w ++ [Info_count_match (List.length sim_files)
                        (List.length java_files)])%list /\
  ((e = ValueError /\ (max_threads <= 0)%Z /\
    dirs w' (log_dir_of os out) = true) \/
   ((e = FileExistsError \/ e = PermissionError) /\
    can_makedirs_b w (log_dir_of os out) = false /\ dirs w' = dirs w)).
Proof.
  unfold process_sim_command, can_makedirs_b, is_file.
  fold (log_dir_of os out).
  destruct (Nat.eqb_spec (List.length sim_files) (List.length java_files))
    as [Hlen|Hne]; cbn [negb]; [|discriminate].
  unfold bind, logging, os_makedirs, raise, ret.
  cbn [dirs files unwritable add_log].
  destruct (dirs w (log_dir_of os out)) eqn:Hd.
  - destruct (Z.leb_spec max_threads 0) as [Hle|Hgt]; [|discriminate].
    intros H. injection H as <- <-. cbn [runs log dirs add_log].
    repeat split; try assumption. left. repeat split; assumption.
  - destruct (files w (log_dir_of os out)).
    + intros H. injection H as <- <-. cbn [runs log dirs add_log negb andb orb].
      repeat split; try assumption. right. repeat split. now left.
    + destruct (unwritable w (log_dir_of os out)).
      * intros H. injection H as <- <-.
        cbn [runs log dirs add_log negb andb orb].
        repeat split; try assumption. right. repeat split. now right.
      * destruct (Z.leb_spec max_threads 0) as [Hle|Hgt]; [|discriminate].
        intros H. injection H as <- <-.
        cbn [runs log dirs add_log add_dir].
        repeat split; try assumption. left.
        rewrite String.eqb_refl. repeat split; assumption.
Qed.

Lemma batch_raises_before_any_job_witness :
  process_sim_command work_os all_pass (fun l => l) three_sims three_javas
    "out" 1 0 fresh_world
  = (add_dir "out/execution_logs" (add_log (Info_count_match 3 3) fresh_world),
     Raise ValueError) /\
  runs (add_dir "out/execution_logs"
          (add_log (Info_count_match 3 3) fresh_world))
  = runs fresh_world.
Proof.
  assert (H : process_sim_command work_os all_pass (fun l => l) three_sims
                three_javas "out" 1 0 fresh_world
              = (add_dir "out/execution_logs"
                   (add_log (Info_count_match 3 3) fresh_world),
                 Raise ValueError)) by reflexivity.
  split; [exact H|].
  exact (proj1 (proj2 (batch_raises_before_any_job _ _ _ _ _ _ _ _ _ _ _ H))).
Defined.

(** X8.  A job removes the backup file [<case>.sim~] only after the tool
    exited with code 0, and then only when the file is there and the
    removal does not raise; after any other exit code or a launch that
    raised, nothing is removed.  The command it hands to the shell and the
    first two lines of its log are the same in every branch. *)
Theorem backup_removed_only_after_success
    (os : ospath) (out : string) (np : Z) (o : job_oracle)
    (sim java : string) :
  job_removed (execute_case os out (log_dir_of os out) np o sim java)
  = (if exit_code_zero os out np o sim java
        && backup_exists o (backup_of os out sim)
        && negb (cleanup_raises os out o sim)
     then Some (backup_of os out sim) else None) /\
  job_command (execute_case os out (log_dir_of os out) np o sim java)
  = command_of os out np o sim java /\
  firstn 2 (job_log (execute_case os out (log_dir_of os out) np o sim java))
  = [Info_case_start (case_of os sim);
     Info_case_log
       (join os (log_dir_of os out)
          (case_of os sim ++ "_" ++ timestamp o ++ ".log"))] /\
  (forall exit_code,
     os_system o (command_of os out np o sim java) = Ok exit_code ->
     exit_code <> 0%Z ->
     job_log (execute_case os out (log_dir_of os out) np o sim java)
     = [Info_case_start (case_of os sim);
        Info_case_log
          (join os (log_dir_of os out)
             (case_of os sim ++ "_" ++ timestamp o ++ ".log"));
        Error_case_exit (case_of os sim) exit_code]).
Proof.
  unfold execute_case, exit_code_zero, cleanup_raises, command_of,
    backup_of, case_of.
  destruct (os_system o _) as [z|e].
  - destruct (Z.eqb_spec z 0) as [->|Hz].
    + destruct (backup_exists o _); [destruct (os_remove o _)|];
        repeat split; intros z' Hz' Hne; injection Hz' as <-; congruence.
    + repeat split. intros z' Hz' _. now injection Hz' as <-.
  - repeat split. intros z' Hz'. discriminate.
Qed.

Lemma splitext_plain_sim (r : string) :
  r <> "" -> forallb_string plain r = true ->
  splitext (r ++ ".sim") = (r, ".sim").
Proof.
  intros Hne Hr. unfold splitext, rfind.
  assert (Hdot : rfind_from 0 is_dot (r ++ ".sim") = Some (String.length r)).
  { rewrite rfind_from_app. reflexivity. }
  assert (Hsep : rfind_from 0 is_sep (r ++ ".sim") = None).
  { rewrite rfind_from_app. cbn [Nat.add].
    change (rfind_from (String.length r) is_sep ".sim") with (@None nat).
    apply rfind_from_none.
    eapply forallb_string_impl; [|exact Hr].
    intros c H. unfold plain in H. now apply andb_true_iff in H as [H _]. }
  rewrite Hdot, Hsep. cbn [Nat.leb]. rewrite Nat.sub_0_r, substring_prefix.
  assert (Hnd : forallb_string is_dot r = false).
  { destruct r as [|c r]; [congruence|]. cbn [forallb_string] in *.
    apply andb_true_iff in Hr as [Hc _]. unfold plain in Hc.
    apply andb_true_iff in Hc as [_ Hc]. apply negb_true_iff in Hc.
    now rewrite Hc. }
  rewrite Hnd. cbn [negb andb]. now rewrite drop_app.
Qed.

Lemma case_number_nonempty (N i : nat) : case_number N i <> "".
Proof. unfold case_number. discriminate. Qed.

Lemma plain_no_sep (s : string) :
  forallb_string plain s = true ->
  forallb_string (fun c => negb (is_sep c)) s = true.
Proof.
  apply forallb_string_impl. intros c H. unfold plain in H.
  now apply andb_true_iff in H as [H _].
Qed.

(** X9.  The case name that a job reads back from a generated case file,
    [splitext(basename(sim_file))[0]], is the identifier under which the
    file was generated; so the log file and the backup file of the job
    carry that identifier, and the two names in its command line are the
    generated file names. *)
Theorem job_reads_back_case_identifier
    (os : ospath) (out : string) (N i : nat) :
  basename_takes_last os ->
  case_of os (case_output_path out N i) = case_number N i /\
  basename os (case_output_path out N i) = case_number N i ++ ".sim" /\
  basename os (macro_output_path out N i)
  = "Macro_" ++ case_number N i ++ ".java" /\
  forall out',
    backup_of os out' (case_output_path out N i)
    = join os out' (case_number N i ++ ".sim~").
Proof.
  intros Hbase.
  assert (Hb : basename os (case_output_path out N i)
               = case_number N i ++ ".sim").
  { rewrite case_output_path_shape. apply Hbase.
    rewrite forallb_string_app, (plain_no_sep _ (plain_case_number N i)).
    reflexivity. }
  assert (Hc : case_of os (case_output_path out N i) = case_number N i).
  { unfold case_of. rewrite Hb, splitext_plain_sim;
      [reflexivity | apply case_number_nonempty | apply plain_case_number]. }
  split; [exact Hc|]. split; [exact Hb|]. split.
  - rewrite macro_output_path_shape. apply Hbase.
    rewrite !forallb_string_app, (plain_no_sep _ (plain_case_number N i)).
    reflexivity.
  - intros out'. unfold backup_of. now rewrite Hc.
Qed.

Lemma work_os_basename_takes_last : basename_takes_last work_os.
Proof.
  intros dir name Hname. cbn [basename work_os]. unfold rfind.
  rewrite rfind_from_app. cbn [Nat.add append rfind_from].
  rewrite (rfind_from_none is_sep name _ Hname).
  change (is_sep "/") with true. cbn iota.
  change (String "/" name) with ("/" ++ name).
  rewrite <- (append_assoc dir "/" name).
  replace (S (String.length dir)) with (String.length (dir ++ "/")).
  - apply drop_app.
  - rewrite length_append. cbn [String.length]. lia.
Qed.

Lemma job_reads_back_case_identifier_witness :
  basename_takes_last work_os /\
  case_of work_os (case_output_path "out" 12 2) = case_number 12 2.
Proof.
  split; [exact work_os_basename_takes_last|].
  exact (proj1 (job_reads_back_case_identifier work_os "out" 12 2
                  work_os_basename_takes_last)).
Defined.

End BatchFurther.

(** ** The output folder, further *)

Section OutputFolderFurther.

Lemma snoc_snoc {A : Type} (l : list A) (a b : A) :
  ((l ++ [a]) ++ [b] = l ++ [a; b])%list.
Proof. now rewrite <- app_assoc. Qed.

(** X10.  [CreatOutputFolder] returns [None] exactly when the path is empty
    or its directory neither exists nor can be made; in that case no
    directory is made and the last two log lines are the two error lines.
    In every other case it returns the absolute path. *)
Theorem output_folder_none_iff_not_makeable
    (os : ospath) (p : string) (w : world) :
  (snd (CreatOutputFolder os p w) = Ok None <->
   p = "" \/ can_makedirs_b w (abspath os p) = false) /\
  (snd (CreatOutputFolder os p w) = Ok None ->
   dirs (fst (CreatOutputFolder os p w)) = dirs w /\
   exists e before,
     log (fst (CreatOutputFolder os p w))
     = (before ++ [Error_output_failed e; Error_check_path])%list) /\
  (snd (CreatOutputFolder os p w) <> Ok None ->
   snd (CreatOutputFolder os p w) = Ok (Some (abspath os p))).
Proof.
  unfold CreatOutputFolder, bind, logging, try_except, can_makedirs_b, is_file.
  destruct (String.eqb_spec p "") as [->|Hne]; cbn [negb ret raise].
  - cbn [fst snd dirs log add_log]. split; [|split].
    + split; [now left | reflexivity].
    + intros _. split; [reflexivity|].
      exists UnboundLocalError. eexists.
      cbn [fst ret log add_log]. apply snoc_snoc.
    + intros H. now exfalso; apply H.
  - unfold os_makedirs. cbn [dirs files unwritable add_log].
    destruct (dirs w (abspath os p)) eqn:Hd; cbn [orb].
    + cbn [fst snd]. split; [|split].
      * split; [discriminate | intros [E|E]; [contradiction | discriminate]].
      * discriminate.
      * reflexivity.
    + destruct (files w (abspath os p)) eqn:Hf; cbn [negb andb].
      * cbn [fst snd dirs log add_log]. split; [|split].
        -- split; [now right | reflexivity].
        -- intros _. split; [reflexivity|].
           exists FileExistsError. eexists.
           cbn [fst ret log add_log]. apply snoc_snoc.
        -- intros H. now exfalso; apply H.
      * destruct (unwritable w (abspath os p)) eqn:Hu; cbn [negb].
        -- cbn [fst snd dirs log add_log]. split; [|split].
           ++ split; [now right | reflexivity].
           ++ intros _. split; [reflexivity|].
              exists PermissionError. eexists.
              cbn [fst ret log add_log]. apply snoc_snoc.
           ++ intros H. now exfalso; apply H.
        -- cbn [fst snd]. split; [|split].
           ++ split; [discriminate | intros [E|E]; [contradiction | discriminate]].
           ++ discriminate.
           ++ reflexivity.
Qed.

End OutputFolderFurther.

(** ** [get_custom_templates] *)

Section CustomTemplateDiscovery.

Lemma dict_get_set_same (k v : string) (d : list (string * string)) :
  dict_get k (dict_set k v d) = Some v.
Proof.
  induction d as [|[k' v'] d IH]; cbn [dict_set dict_get].
  - now rewrite String.eqb_refl.
  - destruct (String.eqb_spec k' k) as [->|Hne]; cbn [dict_get].
    + now rewrite String.eqb_refl.
    + apply String.eqb_neq in Hne. now rewrite Hne.
Qed.

Lemma dict_get_set_other (k k0 v : string) (d : list (string * string)) :
  k0 <> k -> dict_get k0 (dict_set k v d) = dict_get k0 d.
Proof.
  intros Hne. induction d as [|[k' v'] d IH]; cbn [dict_set dict_get].
  - apply not_eq_sym, String.eqb_neq in Hne. now rewrite Hne.
  - destruct (String.eqb_spec k' k) as [->|Hk]; cbn [dict_get].
    + apply not_eq_sym, String.eqb_neq in Hne. now rewrite Hne.
    + now rewrite IH.
Qed.

Lemma in_dict_set (k v : string) (d : list (string * string))
    (kv : string * string) :
  In kv (dict_set k v d) -> kv = (k, v) \/ In kv d.
Proof.
  induction d as [|[k' v'] d IH]; cbn [dict_set].
  - intros [<-|[]]. now left.
  - destruct (k' =? k)%string.
    + intros [<-|H]; [now left | right; now right].
    + intros [<-|H]; [right; now left|].
      destruct (IH H) as [->|H']; [now left | right; now right].
Qed.

Lemma keys_dict_set (k v : string) (d : list (string * string)) (x : string) :
  In x (map fst (dict_set k v d)) <-> x = k \/ In x (map fst d).
Proof.
  induction d as [|[k' v'] d IH]; cbn [dict_set map fst In].
  - intuition.
  - destruct (String.eqb_spec k' k) as [->|Hne]; cbn [map fst In].
    + intuition.
    + rewrite IH. intuition.
Qed.

Lemma NoDup_dict_set (k v : string) (d : list (string * string)) :
  NoDup (map fst d) -> NoDup (map fst (dict_set k v d)).
Proof.
  induction d as [|[k' v'] d IH]; cbn [dict_set map fst]; intros H.
  - constructor; [intros [] | constructor].
  - inversion H as [|? ? Hk' Hd]; subst.
    destruct (String.eqb_spec k' k) as [->|Hne]; cbn [map fst].
    + now constructor.
    + constructor; [|auto]. rewrite keys_dict_set. intros [E|Hin]; congruence.
Qed.

(** One step of the scan of the script directory. *)
Local Notation scan_step template_abspath :=
  (fun acc entry =>
     if existsb (String.eqb (fst entry)) required_template_names then acc
     else if prefix "template_" (fst entry) && snd entry
          then dict_set (drop 9 (fst entry)) (template_abspath (fst entry)) acc
          else acc).

Lemma scan_sound (template_abspath : string -> string)
    (listing : list (string * bool)) :
  forall l acc,
    incl l listing ->
    (NoDup (map fst acc) /\
     forall d path, In (d, path) acc ->
       exists filename,
         In (filename, true) listing /\ filename = "template_" ++ d /\
         ~ In filename required_template_names /\
         path = template_abspath filename) ->
    let found := fold_left (scan_step template_abspath) l acc in
    NoDup (map fst found) /\
    forall d path, In (d, path) found ->
      exists filename,
        In (filename, true) listing /\ filename = "template_" ++ d /\
        ~ In filename required_template_names /\
        path = template_abspath filename.
Proof.
  induction l as [|[f isf] l IH]; intros acc Hincl Hacc; [exact Hacc|].
  cbn [fold_left fst snd]. apply IH.
  - intros x Hx. apply Hincl. now right.
  - destruct Hacc as [Hnd Hacc].
    destruct (existsb (String.eqb f) required_template_names) eqn:Hreq;
      [now split|].
    destruct (prefix "template_" f) eqn:Hp; cbn [andb]; [|now split].
    destruct isf; [|now split]. split; [now apply NoDup_dict_set|].
    intros d path Hin. apply in_dict_set in Hin as [E|Hin]; [|now apply Hacc].
    injection E as -> ->. exists f.
    split; [apply Hincl; now left|].
    split; [exact (prefix_split _ _ Hp)|]. split; [|reflexivity].
    intros Hin. assert (existsb (String.eqb f) required_template_names = true).
    { apply existsb_exists. exists f. split; [exact Hin | apply String.eqb_refl]. }
    congruence.
Qed.

Lemma scan_complete (template_abspath : string -> string) (f : string) :
  prefix "template_" f = true ->
  ~ In f required_template_names ->
  forall l acc,
    In (f, true) l \/ In (drop 9 f) (map fst acc) ->
    In (drop 9 f) (map fst (fold_left (scan_step template_abspath) l acc)).
Proof.
  intros Hp Hreq. induction l as [|[g isg] l IH]; intros acc H.
  - destruct H as [[]|H]; exact H.
  - cbn [fold_left fst snd]. apply IH.
    destruct H as [[E|H]|H]; [|now left|].
    + injection E as -> ->. right.
      destruct (existsb (String.eqb f) required_template_names) eqn:Hex.
      * apply existsb_exists in Hex as (x & Hx & Hfx).
        apply String.eqb_eq in Hfx. subst. contradiction.
      * rewrite Hp. cbn [andb]. apply keys_dict_set. now left.
    + right.
      destruct (existsb (String.eqb g) required_template_names); [exact H|].
      destruct (prefix "template_" g && isg); [|exact H].
      apply keys_dict_set. now right.
Qed.

(** X11.  The auxiliary templates that [get_custom_templates] returns are
    the listed regular files whose name starts with [template_], the two
    required templates left out: each display name is the file name without
    that prefix and is kept once, its path is the absolute path of the
    file, and no such file is missed.  When there is none, the rule set
    returned is empty too, whatever was configured. *)
Theorem custom_templates_are_the_prefixed_files
    (listing : list (string * bool)) (template_abspath : string -> string)
    (replace_rules : option (list (string * string))) :
  NoDup (map fst (fst (get_custom_templates listing template_abspath
                         replace_rules))) /\
  (forall d path,
     In (d, path)
        (fst (get_custom_templates listing template_abspath replace_rules)) ->
     exists filename,
       In (filename, true) listing /\ filename = "template_" ++ d /\
       ~ In filename required_template_names /\
       path = template_abspath filename) /\
  (forall f,
     In (f, true) listing -> prefix "template_" f = true ->
     ~ In f required_template_names ->
     In (drop 9 f)
        (map fst (fst (get_custom_templates listing template_abspath
                         replace_rules)))) /\
  (fst (get_custom_templates listing template_abspath replace_rules) = [] ->
   snd (get_custom_templates listing template_abspath replace_rules) = []).
Proof.
  unfold get_custom_templates.
  pose proof (scan_sound template_abspath listing listing []
                (incl_refl _)) as Hsound.
  cbn zeta in Hsound.
  destruct Hsound as [Hnd Hin]; [split; [constructor | intros ? ? []]|].
  assert (Hcomplete : forall f,
            In (f, true) listing -> prefix "template_" f = true ->
            ~ In f required_template_names ->
            In (drop 9 f)
               (map fst (fold_left (scan_step template_abspath) listing []))).
  { intros f Hf Hp Hreq. apply scan_complete; auto. }
  destruct (fold_left (scan_step template_abspath) listing []) as [|t ts] eqn:E.
  - cbn [fst snd map]. split; [constructor|]. split; [intros ? ? []|].
    split; [exact Hcomplete | reflexivity].
  - cbn [fst snd]. split; [exact Hnd|]. split; [exact Hin|].
    split; [exact Hcomplete | discriminate].
Qed.

Lemma dict_update_get (d other : list (string * string)) (k : string) :
  NoDup (map fst other) ->
  dict_get k (dict_update d other)
  = match dict_get k other with
    | Some v => Some v
    | None => dict_get k d
    end.
Proof.
  unfold dict_update. revert d; induction other as [|[k' v'] other IH];
    intros d Hnd; cbn [fold_left fst snd dict_get map] in *; [reflexivity|].
  inversion Hnd as [|? ? Hk' Hnd']; subst.
  rewrite IH by assumption.
  destruct (String.eqb_spec k' k) as [->|Hne].
  - assert (Hnone : dict_get k other = None).
    { clear - Hk'. induction other as [|[a b] other IH]; [reflexivity|].
      cbn [dict_get map fst In] in *.
      destruct (String.eqb_spec a k) as [->|]; [exfalso; auto | auto]. }
    rewrite Hnone. apply dict_get_set_same.
  - destruct (dict_get k other); [reflexivity|].
    apply dict_get_set_other. congruence.
Qed.

(** X12.  When there is an auxiliary template, the rule set that
    [get_custom_templates] returns answers every key with the configured
    text when the configuration has the key, and otherwise with the
    default, which knows [CaseName] only; without a configuration it is the
    default rule set. *)
Theorem rule_set_is_default_overridden
    (listing : list (string * bool)) (template_abspath : string -> string)
    (configured : list (string * string)) (k : string) :
  NoDup (map fst configured) ->
  fst (get_custom_templates listing template_abspath (Some configured)) <> [] ->
  dict_get k (snd (get_custom_templates listing template_abspath
                     (Some configured)))
  = match dict_get k configured with
    | Some text => Some text
    | None => if (k =? "CaseName")%string then Some "CASE_NUMBER" else None
    end /\
  snd (get_custom_templates listing template_abspath None)
  = default_replace_rules.
Proof.
  unfold get_custom_templates. intros Hnd.
  destruct (fold_left _ listing []) as [|t ts]; cbn [fst snd]; intros Hne;
    [congruence|].
  split; [|reflexivity].
  rewrite dict_update_get by assumption.
  destruct (dict_get k configured); [reflexivity|].
  unfold default_replace_rules. cbn [dict_get].
  now rewrite String.eqb_sym.
Qed.

Lemma rule_set_is_default_overridden_witness :
  NoDup (map fst configured_rules) /\
  fst (get_custom_templates report_listing (fun f => "tpl/" ++ f)
         (Some configured_rules)) <> [] /\
  dict_get "CaseName"
    (snd (get_custom_templates report_listing (fun f => "tpl/" ++ f)
            (Some configured_rules)))
  = Some "RUN-A".
Proof.
  assert (H1 : NoDup (map fst configured_rules))
    by (repeat constructor; intros []).
  assert (H2 : fst (get_custom_templates report_listing (fun f => "tpl/" ++ f)
                      (Some configured_rules)) <> []) by discriminate.
  split; [exact H1|]. split; [exact H2|].
  exact (proj1 (rule_set_is_default_overridden report_listing
                  (fun f => "tpl/" ++ f) configured_rules "CaseName" H1 H2)).
Defined.

End CustomTemplateDiscovery.

(** ** A run of [process_custom_templates] *)

Section CustomRun.

Lemma for_each_map {X Y S} (g : X -> Y) (l : list X) (body : Y -> S -> M S)
    (s : S) (w : world) :
  for_each (map g l) body s w = for_each l (fun x => body (g x)) s w.
Proof.
  revert s w; induction l as [|x l IH]; intros s w; cbn [map for_each];
    [reflexivity|].
  unfold bind. destruct (body (g x) s w) as [w1 [s1|e]]; [apply IH | reflexivity].
Qed.

Lemma for_each_flat_map {X Y S} (f : X -> list Y) (l : list X)
    (body : Y -> S -> M S) (s : S) (w : world) :
  for_each (flat_map f l) body s w
  = for_each l (fun x s => for_each (f x) body s) s w.
Proof.
  revert s w; induction l as [|x l IH]; intros s w; cbn [flat_map for_each];
    [reflexivity|].
  rewrite for_each_app. unfold bind.
  destruct (for_each (f x) body s w) as [w1 [s1|e]]; [apply IH | reflexivity].
Qed.

Lemma apply_rules_substituted (rules : list (string * string))
    (case content : string) :
  rules_substituted case rules content (apply_rules rules case content).
Proof.
  revert content; induction rules as [|[old new] rules IH]; intros content;
    [constructor|].
  apply (rules_entry case old new rules content
           (replace old (if (new =? "CASE_NUMBER")%string then case else new)
              content)).
  - apply replace_replaced.
  - apply IH.
Qed.

(** The passes over an auxiliary template do what [custom_passes_spec]
    describes. *)
Lemma custom_passes_hold (rules : list (string * string))
    (display_name case content : string) :
  custom_passes_spec rules display_name case content
    (custom_passes rules display_name (suffixed_filename display_name case)
       case content).
Proof.
  unfold custom_passes_spec, custom_passes.
  exists (replace "CaseName" case content),
         (apply_rules rules case (replace "CaseName" case content)).
  split; [apply replace_replaced|].
  split; [apply apply_rules_substituted | apply replace_replaced].
Qed.

Variables (replace_rules : list (string * string)) (out : string) (N : nat).

(** The loops of [process_custom_templates] as one loop over the steps. *)
Lemma custom_loops_flat (custom_templates : list (string * string))
    (generated : list string) (w : world) :
  for_each (seq 0 N)
    (fun row_index generated_files =>
       for_each custom_templates
         (custom_template_body replace_rules out (case_number N row_index))
         generated_files)
    generated w
  = for_each (custom_steps custom_templates N)
      (fun step =>
         custom_template_body replace_rules out (case_number N (fst step))
           (snd step))
      generated w.
Proof.
  unfold custom_steps. rewrite for_each_flat_map.
  generalize (seq 0 N) as rows. intros rows. revert generated w.
  induction rows as [|i rows IH]; intros generated w; cbn [for_each];
    [reflexivity|].
  unfold bind. rewrite for_each_map. cbn [fst snd].
  change (fun x : string * string =>
            custom_template_body replace_rules out (case_number N i) x)
    with (custom_template_body replace_rules out (case_number N i)).
  destruct (for_each custom_templates _ generated w) as [w1 [s1|e]];
    [apply IH | reflexivity].
Qed.

Lemma custom_run_effect_cons (step : nat * (string * string))
    (steps : list (nat * (string * string))) (w : world) :
  custom_run_effect replace_rules out N (step :: steps) w
  = custom_run_effect replace_rules out N steps
      (custom_step_effect replace_rules out N step w).
Proof. reflexivity. Qed.

Lemma custom_step_ok (step : nat * (string * string)) (content : string)
    (generated : list string) (w : world) :
  files w (snd (snd step)) = Some content ->
  valid_utf8 content = true ->
  unwritable w (step_output out N step) = false ->
  snd (snd step) <> step_output out N step ->
  custom_template_body replace_rules out (case_number N (fst step))
    (snd step) generated w
  = (custom_step_effect replace_rules out N step w,
     Ok (generated ++ [step_output out N step])%list).
Proof.
  intros Hf Hv Hu Hne. unfold custom_template_body, custom_step_effect.
  rewrite Hf. unfold step_output, custom_output_path, suffixed_output_path in *.
  erewrite bind_ok by (apply shutil_copy_ok; eassumption).
  erewrite bind_ok
    by (apply read_file_ok; [apply files_set_file_same | exact Hu | exact Hv]).
  erewrite bind_ok by (apply write_file_ok; exact Hu).
  reflexivity.
Qed.

Variable custom_templates : list (string * string).
Variable w0 : world.
Hypothesis Hready : custom_ready w0 custom_templates out N.

Lemma same_inputs_step (step : nat * (string * string)) (w : world) :
  In step (custom_steps custom_templates N) ->
  same_inputs custom_templates w0 w ->
  same_inputs custom_templates w0
    (custom_step_effect replace_rules out N step w).
Proof.
  intros Hstep [Hf Hu]. unfold custom_step_effect.
  destruct (files w (snd (snd step))); [|now split].
  split; [|exact Hu]. intros tpl Htpl.
  destruct Hready as [_ Hout]. destruct (Hout step Hstep) as [_ Hne].
  rewrite !files_set_file_other by (apply Hne, Htpl). now apply Hf.
Qed.

Lemma step_template_in (step : nat * (string * string)) :
  In step (custom_steps custom_templates N) ->
  In (snd step) custom_templates /\ fst step < N.
Proof.
  unfold custom_steps. intros H. apply in_flat_map in H as (i & Hi & H).
  apply in_map_iff in H as (tpl & <- & Htpl). apply in_seq in Hi.
  cbn [fst snd]. split; [exact Htpl | lia].
Qed.

Lemma custom_steps_run (steps : list (nat * (string * string))) :
  incl steps (custom_steps custom_templates N) ->
  forall generated w, same_inputs custom_templates w0 w ->
    for_each steps
      (fun step =>
         custom_template_body replace_rules out (case_number N (fst step))
           (snd step))
      generated w
    = (custom_run_effect replace_rules out N steps w,
       Ok (generated ++ map (step_output out N) steps)%list) /\
    same_inputs custom_templates w0
      (custom_run_effect replace_rules out N steps w).
Proof.
  induction steps as [|step steps IH]; intros Hincl generated w Hw.
  - cbn [for_each map custom_run_effect fold_left]. rewrite app_nil_r.
    now split.
  - assert (Hstep : In step (custom_steps custom_templates N))
      by (apply Hincl; now left).
    destruct (step_template_in step Hstep) as [Htpl _].
    destruct Hready as [Hex Hout]. destruct (Hout step Hstep) as [Hu Hne].
    destruct Hw as [Hwf Hwu].
    destruct (Hex _ Htpl) as (content & Hf & Hv).
    rewrite <- (Hwf _ Htpl) in Hf.
    cbn [for_each]. erewrite bind_ok.
    2:{ apply (custom_step_ok step content);
          [exact Hf | exact Hv | | apply Hne, Htpl].
        now rewrite Hwu. }
    destruct (IH (fun x Hx => Hincl x (or_intror Hx))
                 (generated ++ [step_output out N step])%list
                 (custom_step_effect replace_rules out N step w))
      as [Hrun Hsame].
    { apply same_inputs_step; [exact Hstep | now split]. }
    split; [|exact Hsame].
    rewrite Hrun, custom_run_effect_cons. cbn [map].
    now rewrite <- app_assoc.
Qed.

Lemma custom_run_effect_other (steps : list (nat * (string * string)))
    (q : string) (w : world) :
  ~ In q (map (step_output out N) steps) ->
  files (custom_run_effect replace_rules out N steps w) q = files w q.
Proof.
  revert w; induction steps as [|step steps IH]; intros w Hq; [reflexivity|].
  rewrite custom_run_effect_cons.
  rewrite IH by (intros H; apply Hq; now right).
  unfold custom_step_effect. destruct (files w (snd (snd step))); [|reflexivity].
  rewrite !files_set_file_other; [reflexivity | |];
    intros ->; apply Hq; now left.
Qed.

Lemma custom_run_effect_files (steps : list (nat * (string * string))) :
  incl steps (custom_steps custom_templates N) ->
  NoDup (map (step_output out N) steps) ->
  forall w step content,
    same_inputs custom_templates w0 w -> In step steps ->
    files w0 (snd (snd step)) = Some content ->
    files (custom_run_effect replace_rules out N steps w)
          (step_output out N step)
    = Some (custom_content replace_rules N (fst (snd step)) (fst step) content).
Proof.
  induction steps as [|s steps IH]; intros Hincl Hnd w step content Hw Hin Hc;
    [contradiction|].
  cbn [map] in Hnd. inversion Hnd as [|? ? Hfresh Hnd']; subst.
  assert (Hs : In s (custom_steps custom_templates N)) by (apply Hincl; now left).
  rewrite custom_run_effect_cons.
  destruct Hin as [->|Hin].
  - rewrite custom_run_effect_other by exact Hfresh.
    unfold custom_step_effect. destruct Hw as [Hwf _].
    destruct (step_template_in step Hs) as [Htpl _].
    rewrite (Hwf _ Htpl), Hc. apply files_set_file_same.
  - apply IH; try assumption.
    + intros x Hx. apply Hincl. now right.
    + now apply same_inputs_step.
Qed.

End CustomRun.


Lemma report_world_custom_ready :
  custom_ready report_world [("Report.txt", "tpl/template_Report.txt")]
    "out" 2.
Proof.
  split.
  - intros tpl [<-|[]]. now exists report_template_text.
  - intros step Hstep. split; [reflexivity|].
    intros tpl [<-|[]].
    cbn in Hstep. destruct Hstep as [<-|[<-|[]]]; vm_compute; discriminate.
Qed.


(** ** [ParamMappingCreation] *)

Section ParamMapping.

Lemma table_get_set_same {V} (k : string) (v : V) (t : list (string * V)) :
  table_get k (table_set k v t) = Some v.
Proof.
  induction t as [|[k' v'] t IH]; cbn [table_set table_get].
  - now rewrite String.eqb_refl.
  - destruct (String.eqb_spec k' k) as [->|Hne]; cbn [table_get].
    + now rewrite String.eqb_refl.
    + apply String.eqb_neq in Hne. now rewrite Hne.
Qed.

Lemma table_get_set_other {V} (k k0 : string) (v : V)
    (t : list (string * V)) :
  k0 <> k -> table_get k0 (table_set k v t) = table_get k0 t.
Proof.
  intros Hne. induction t as [|[k' v'] t IH]; cbn [table_set table_get].
  - apply not_eq_sym, String.eqb_neq in Hne. now rewrite Hne.
  - destruct (String.eqb_spec k' k) as [->|Hk]; cbn [table_get].
    + apply not_eq_sym, String.eqb_neq in Hne. now rewrite Hne.
    + now rewrite IH.
Qed.

Lemma table_set_keys {V} (k : string) (v : V) (t : list (string * V))
    (x : string) :
  In x (map fst (table_set k v t)) <-> x = k \/ In x (map fst t).
Proof.
  induction t as [|[k' v'] t IH]; cbn [table_set map fst In].
  - intuition.
  - destruct (String.eqb_spec k' k) as [->|Hne]; cbn [map fst In].
    + intuition.
    + rewrite IH. intuition.
Qed.

Lemma table_set_NoDup {V} (k : string) (v : V) (t : list (string * V)) :
  NoDup (map fst t) -> NoDup (map fst (table_set k v t)).
Proof.
  induction t as [|[k' v'] t IH]; cbn [table_set map fst]; intros H.
  - constructor; [intros [] | constructor].
  - inversion H as [|? ? Hk' Ht]; subst.
    destruct (String.eqb_spec k' k) as [->|Hne]; cbn [map fst].
    + now constructor.
    + constructor; [|auto]. rewrite table_set_keys. intros [E|Hin]; congruence.
Qed.

Lemma table_set_in {V} (k : string) (v : V) (t : list (string * V))
    (kv : string * V) :
  In kv (table_set k v t) -> kv = (k, v) \/ In kv t.
Proof.
  induction t as [|[k' v'] t IH]; cbn [table_set].
  - intros [<-|[]]. now left.
  - destruct (k' =? k)%string.
    + intros [<-|H]; [now left | right; now right].
    + intros [<-|H]; [right; now left|].
      destruct (IH H) as [->|H']; [now left | right; now right].
Qed.

Lemma table_get_in {V} (k : string) (v : V) (t : list (string * V)) :
  table_get k t = Some v -> In (k, v) t.
Proof.
  induction t as [|[k' v'] t IH]; cbn [table_get]; [discriminate|].
  destruct (String.eqb_spec k' k) as [->|Hne].
  - intros H. injection H as ->. now left.
  - intros H. right. auto.
Qed.

Lemma df_has_get (df : dataframe) (column : string) :
  df_has df column = true ->
  exists values, table_get column (df_columns df) = Some values.
Proof.
  unfold df_has. induction (df_columns df) as [|[k v] cols IH];
    cbn [map fst existsb table_get]; [discriminate|].
  rewrite String.eqb_sym. destruct (k =? column)%string; [now exists v|].
  exact IH.
Qed.

Lemma dict_get_in_values (k v : string) (d : list (string * string)) :
  dict_get k d = Some v -> In v (map snd d).
Proof.
  induction d as [|[k' v'] d IH]; cbn [dict_get map snd In]; [discriminate|].
  destruct (k' =? k)%string; [intros H; injection H as ->; now left|].
  intros H. right. auto.
Qed.

(** The value that the loop writes for one placeholder. *)
Lemma map_params_spec (ParamMapping : list (string * string))
    (df : dataframe) :
  (forall col, In col (map snd ParamMapping) -> df_has df col = true) ->
  forall params acc events,
  exists t events',
    map_params ParamMapping df params acc events = (events', Mapping t) /\
    (forall p, In p (map fst t) <-> In p params \/ In p (map fst acc)) /\
    (NoDup (map fst acc) -> NoDup (map fst t)) /\
    (forall p, In p params ->
       table_get p t
       = match dict_get p ParamMapping with
         | Some column => table_get column (df_columns df)
         | None => Some (repeat (PyInt 0) (df_len df))
         end) /\
    (forall p, ~ In p params -> table_get p t = table_get p acc).
Proof.
  intros Hcols. induction params as [|param params IH]; intros acc events.
  - exists acc, events. cbn [map_params In]. repeat split; intuition.
  - cbn [map_params].
    assert (Hval : exists values,
              match dict_get param ParamMapping with
              | Some column => table_get column (df_columns df)
              | None => Some (repeat (PyInt 0) (df_len df))
              end = Some values).
    { destruct (dict_get param ParamMapping) as [column|] eqn:E;
        [|now eexists].
      apply df_has_get, Hcols. eapply dict_get_in_values, E. }
    destruct Hval as (values & Hval).
    assert (Hstep : exists ev,
              match dict_get param ParamMapping with
              | Some column =>
                  match table_get column (df_columns df) with
                  | Some values =>
                      map_params ParamMapping df params
                        (table_set param values acc)
                        (events ++ [Info_mapped param column])%list
                  | None => (events, MappingKeyError column)
                  end
              | None =>
                  map_params ParamMapping df params
                    (table_set param (repeat (PyInt 0) (df_len df)) acc)
                    (events ++ [Warning_default_zero param])%list
              end
              = map_params ParamMapping df params
                  (table_set param values acc) ev).
    { destruct (dict_get param ParamMapping) as [column|].
      - rewrite Hval. now eexists.
      - injection Hval as <-. now eexists. }
    destruct Hstep as (ev & ->).
    destruct (IH (table_set param values acc) ev)
      as (t & events' & Hrun & Hkeys & Hnd & Hin & Hout).
    exists t, events'. split; [exact Hrun|]. split; [|split; [|split]].
    + intros p. rewrite Hkeys, table_set_keys. cbn [In]. intuition.
    + intros H. now apply Hnd, table_set_NoDup.
    + intros p [<-|Hp].
      * destruct (in_dec string_dec param params) as [Hi|Hni];
          [now apply Hin|].
        rewrite (Hout _ Hni), table_get_set_same. now rewrite Hval.
      * now apply Hin.
    + intros p Hp. cbn [In] in Hp.
      rewrite Hout by intuition. apply table_get_set_other. intuition.
Qed.

Lemma min_list_constant (l : list nat) (n : nat) :
  l <> [] -> (forall x, In x l -> x = n) -> min_list l = Some n.
Proof.
  induction l as [|x l IH]; intros Hne Hall; [congruence|].
  cbn [min_list]. destruct l as [|y l].
  - cbn [min_list]. f_equal. apply Hall. now left.
  - rewrite IH; [|discriminate | intros z Hz; apply Hall; now right].
    f_equal. rewrite (Hall x (or_introl eq_refl)). apply Nat.min_id.
Qed.

(** X14.  [ParamMappingCreation] returns a table exactly when the sheet
    file exists, reading it does not raise, and every column named in the
    mapping is in the sheet, the columns of entries that no placeholder
    uses included; in every other case it returns [None].  The lookup of a
    column in the frame never fails. *)
Theorem mapping_returned_iff_sheet_has_all_columns
    (os : ospath) (w : world) (read_excel : string -> outcome dataframe)
    (MacroParamToReplace : list string)
    (ParamMapping : list (string * string)) :
  ((exists t,
      snd (ParamMappingCreation os w read_excel MacroParamToReplace
             ParamMapping) = Mapping t) <->
   is_file w (join os (script_dir os) "CasePlan.xlsx") = true /\
   exists df,
     read_excel (join os (script_dir os) "CasePlan.xlsx") = Ok df /\
     forall col, In col (map snd ParamMapping) -> df_has df col = true) /\
  ((exists t,
      snd (ParamMappingCreation os w read_excel MacroParamToReplace
             ParamMapping) = Mapping t) \/
   snd (ParamMappingCreation os w read_excel MacroParamToReplace
          ParamMapping) = NoMapping).
Proof.
  unfold ParamMappingCreation.
  destruct (is_file w (join os (script_dir os) "CasePlan.xlsx")); cbn [negb].
  2:{ split; [|now right].
      split; [intros (t & H); discriminate | intros [H _]; discriminate]. }
  destruct (read_excel (join os (script_dir os) "CasePlan.xlsx")) as [df|e].
  2:{ split; [|now right].
      split; [intros (t & H); discriminate
             | intros (_ & df & H & _); discriminate]. }
  destruct (filter (fun col => negb (df_has df col)) (map snd ParamMapping))
    as [|c cs] eqn:Hmiss.
  - assert (Hcols : forall col, In col (map snd ParamMapping) ->
                                df_has df col = true).
    { intros col Hin. destruct (df_has df col) eqn:E; [reflexivity|].
      assert (Hf : In col (filter (fun col => negb (df_has df col))
                             (map snd ParamMapping)))
        by (apply filter_In; split; [exact Hin | now rewrite E]).
      rewrite Hmiss in Hf. contradiction. }
    destruct (map_params_spec ParamMapping df Hcols MacroParamToReplace [] [])
      as (t & events & Hrun & _).
    rewrite Hrun. cbn [snd]. split; [|left; now exists t].
    split; [intros _ | intros _; now exists t].
    split; [reflexivity|]. now exists df.
  - cbn [snd]. split; [|now right].
    split; [intros (t & H); discriminate|].
    intros (_ & df' & Hdf & Hcols). injection Hdf as <-.
    assert (Hc : In c (filter (fun col => negb (df_has df col))
                         (map snd ParamMapping)))
      by (rewrite Hmiss; now left).
    apply filter_In in Hc as [Hin Hneg]. rewrite (Hcols c Hin) in Hneg.
    discriminate.
Qed.

Lemma mapping_table_shape
    (os : ospath) (w : world) (read_excel : string -> outcome dataframe)
    (MacroParamToReplace : list string)
    (ParamMapping : list (string * string))
    (events : list mapping_event) (t : param_table) (df : dataframe) :
  ParamMappingCreation os w read_excel MacroParamToReplace ParamMapping
  = (events, Mapping t) ->
  read_excel (join os (script_dir os) "CasePlan.xlsx") = Ok df ->
  df_wf df ->
  NoDup (map fst t) /\
  (forall p, In p (map fst t) <-> In p MacroParamToReplace) /\
  (forall p, In p MacroParamToReplace ->
     table_get p t
     = match dict_get p ParamMapping with
       | Some column => table_get column (df_columns df)
       | None => Some (repeat (PyInt 0) (df_len df))
       end) /\
  (forall kv, In kv t -> List.length (snd kv) = df_len df) /\
  (MacroParamToReplace <> [] -> num_rows_of t = Some (df_len df)).
Proof.
  unfold ParamMappingCreation. intros Hrun Hdf Hwf.
  destruct (is_file w _); cbn [negb] in Hrun; [|discriminate].
  rewrite Hdf in Hrun.
  destruct (filter _ (map snd ParamMapping)) as [|c cs] eqn:Hmiss;
    [|discriminate].
  assert (Hcols : forall col, In col (map snd ParamMapping) ->
                              df_has df col = true).
  { intros col Hin. destruct (df_has df col) eqn:E; [reflexivity|].
    assert (Hf : In col (filter (fun col => negb (df_has df col))
                           (map snd ParamMapping)))
      by (apply filter_In; split; [exact Hin | now rewrite E]).
    rewrite Hmiss in Hf. contradiction. }
  destruct (map_params_spec ParamMapping df Hcols MacroParamToReplace [] [])
    as (t' & events' & Hrun' & Hkeys & Hnd & Hin & _).
  rewrite Hrun' in Hrun. injection Hrun as -> ->.
  assert (Hlen : forall kv, In kv t -> List.length (snd kv) = df_len df).
  { intros [p values] Hkv.
    assert (Hp : In p MacroParamToReplace).
    { apply (in_map fst) in Hkv. apply Hkeys in Hkv as [H|[]]. exact H. }
    assert (Hget : table_get p t = Some values).
    { specialize (Hnd (NoDup_nil _)). clear - Hkv Hnd.
      induction t as [|[k v] t IH]; [contradiction|].
      cbn [map fst] in Hnd. inversion Hnd as [|? ? Hk Hnd']; subst.
      cbn [table_get]. destruct Hkv as [E|Hkv].
      - injection E as -> ->. now rewrite String.eqb_refl.
      - destruct (String.eqb_spec k p) as [->|_]; [|auto].
        exfalso. apply Hk. apply (in_map fst) in Hkv. exact Hkv. }
    rewrite (Hin p Hp) in Hget. cbn [snd].
    destruct (dict_get p ParamMapping) as [column|].
    - apply table_get_in in Hget. exact (Hwf _ Hget).
    - injection Hget as <-. apply repeat_length. }
  split; [apply Hnd; constructor|]. split; [|split; [exact Hin|split]].
  - intros p. rewrite Hkeys. cbn [map In]. intuition.
  - exact Hlen.
  - intros Hne. unfold num_rows_of. apply min_list_constant.
    + destruct MacroParamToReplace as [|p ps]; [congruence|].
      assert (Hp : In p (map fst t)) by (apply Hkeys; left; now left).
      destruct t; [contradiction | discriminate].
    + intros x Hx. apply in_map_iff in Hx as (kv & <- & Hkv). now apply Hlen.
Qed.

(** X15.  The table that [ParamMappingCreation] returns has one entry per
    placeholder of the configuration and no other: the column of the sheet
    for a mapped placeholder, [len(df)] zeros for an unmapped one.  Every
    entry has [len(df)] values, so with at least one placeholder the row
    count of the table is the number of rows of the sheet. *)
Theorem mapping_has_one_full_column_per_placeholder
    (os : ospath) (w : world) (read_excel : string -> outcome dataframe)
    (MacroParamToReplace : list string)
    (ParamMapping : list (string * string))
    (events : list mapping_event) (t : param_table) (df : dataframe) :
  ParamMappingCreation os w read_excel MacroParamToReplace ParamMapping
  = (events, Mapping t) ->
  read_excel (join os (script_dir os) "CasePlan.xlsx") = Ok df ->
  df_wf df ->
  NoDup (map fst t) /\
  (forall p, In p (map fst t) <-> In p MacroParamToReplace) /\
  (forall p, In p MacroParamToReplace ->
     table_get p t
     = match dict_get p ParamMapping with
       | Some column => table_get column (df_columns df)
       | None => Some (repeat (PyInt 0) (df_len df))
       end) /\
  (forall kv, In kv t -> List.length (snd kv) = df_len df) /\
  (MacroParamToReplace <> [] -> num_rows_of t = Some (df_len df)).
Proof.
  intros Hrun Hdf Hwf.
  exact (mapping_table_shape os w read_excel MacroParamToReplace ParamMapping
           events t df Hrun Hdf Hwf).
Qed.

Lemma mapping_has_one_full_column_per_placeholder_witness :
  ParamMappingCreation work_os plan_world (fun _ => Ok plan_frame)
    ["T"; "V"; "P"] plan_mapping
  = ([Info_mapped "T" "Temperature"; Info_mapped "V" "Velocity";
      Warning_default_zero "P"],
     Mapping [("T", [PyInt 300; PyInt 350]);
              ("V", [PyFloat "1.5"; PyFloat "2.5"]);
              ("P", [PyInt 0; PyInt 0])]) /\
  df_wf plan_frame /\
  num_rows_of [("T", [PyInt 300; PyInt 350]);
               ("V", [PyFloat "1.5"; PyFloat "2.5"]);
               ("P", [PyInt 0; PyInt 0])] = Some (df_len plan_frame).
Proof.
  assert (H1 : ParamMappingCreation work_os plan_world (fun _ => Ok plan_frame)
                 ["T"; "V"; "P"] plan_mapping
               = ([Info_mapped "T" "Temperature"; Info_mapped "V" "Velocity";
                   Warning_default_zero "P"],
                  Mapping [("T", [PyInt 300; PyInt 350]);
                           ("V", [PyFloat "1.5"; PyFloat "2.5"]);
                           ("P", [PyInt 0; PyInt 0])]))
    by reflexivity.
  assert (H2 : df_wf plan_frame).
  { intros col [<-|[<-|[]]]; reflexivity. }
  split; [exact H1|]. split; [exact H2|].
  apply (mapping_has_one_full_column_per_placeholder work_os plan_world
           (fun _ => Ok plan_frame) ["T"; "V"; "P"] plan_mapping _ _
           plan_frame H1 eq_refl H2).
  discriminate.
Defined.

End ParamMapping.

(** ** From the sheet to the jobs *)

Section SheetToJobs.

Lemma rows_effect_dirs (table : param_table) (out : string) (N : nat)
    (mc cc : string) (rows : list nat) (w : world) :
  dirs (rows_effect table out N mc cc rows w) = dirs w /\
  runs (rows_effect table out N mc cc rows w) = runs w.
Proof.
  revert w; induction rows as [|i rows IH]; intros w; [now split|].
  rewrite rows_effect_cons. destruct (IH (row_effect table out N mc cc i w))
    as [-> ->]. now split.
Qed.

Lemma process_sim_command_ok (os : ospath) (tool : nat -> job_oracle)
    (as_completed : list job_report -> list job_report)
    (sim_files java_files : list string) (out : string)
    (np max_threads : Z) (w : world) :
  List.length sim_files = List.length java_files ->
  (0 < max_threads)%Z ->
  can_makedirs w (log_dir_of os out) ->
  exists w',
    process_sim_command os tool as_completed sim_files java_files out np
      max_threads w = (w', Ok tt) /\
    runs w' =
      (runs w ++ as_completed
                   (batch_reports os tool sim_files java_files out np))%list.
Proof.
  intros Hlen Hthreads Hdir.
  destruct (os_makedirs_ok (log_dir_of os out)
              (add_log (Info_count_match (List.length sim_files)
                          (List.length java_files)) w))
    as (w1 & Hmk & _ & Hruns1); [exact Hdir|].
  eexists. split.
  - unfold process_sim_command. apply Nat.eqb_eq in Hlen. rewrite Hlen.
    cbn [negb]. unfold bind at 1, logging at 1.
    fold (log_dir_of os out). unfold bind at 1. rewrite Hmk.
    destruct (Z.leb_spec max_threads 0); [lia|]. reflexivity.
  - cbn [runs add_log add_runs]. now rewrite Hruns1.
Qed.



End SheetToJobs.

(** ** Generated file names; a table without rows *)

Section NamesAndEmptyColumns.

Lemma substring_drop (k : nat) (p : string) :
  substring 0 k p ++ drop k p = p.
Proof.
  revert p; induction k as [|k IH]; intros [|c p]; cbn [substring drop append];
    try reflexivity.
  now rewrite IH.
Qed.

Lemma rfind_from_some (f : ascii -> bool) (s : string) (i j : nat) :
  rfind_from i f s = Some j ->
  i <= j /\ exists c rest, drop (j - i) s = String c rest /\ f c = true.
Proof.
  revert i; induction s as [|c s IH]; intros i; cbn [rfind_from];
    [discriminate|].
  destruct (rfind_from (S i) f s) as [j'|] eqn:E.
  - intros H. injection H as <-. destruct (IH _ E) as (Hle & d & rest & Hd & Hf).
    split; [lia|]. exists d, rest. split; [|exact Hf].
    replace (j' - i) with (S (j' - S i)) by lia. exact Hd.
  - destruct (f c) eqn:Hc; [|discriminate].
    intros H. injection H as <-. split; [lia|].
    exists c, s. rewrite Nat.sub_diag. now split.
Qed.

(** [splitext] cuts the path in two; the second part is empty or begins
    with the dot. *)
Lemma splitext_parts (p : string) :
  fst (splitext p) ++ snd (splitext p) = p /\
  (snd (splitext p) = "" \/ exists e, snd (splitext p) = String "." e).
Proof.
  unfold splitext. destruct (rfind is_dot p) as [k|] eqn:Hk.
  - match goal with |- context [if ?b then _ else _] => destruct b end;
      cbn [fst snd].
    + split; [apply substring_drop|]. right.
      apply rfind_from_some in Hk as (_ & c & rest & Hd & Hc).
      rewrite Nat.sub_0_r in Hd. rewrite Hd. exists rest.
      unfold is_dot in Hc. apply Ascii.eqb_eq in Hc. now subst.
    + split; [apply append_nil_r | now left].
  - cbn [fst snd]. split; [apply append_nil_r | now left].
Qed.

(** X17.  The name of a generated macro or auxiliary file is the display
    name of its template with [_<case>] put in before the extension:
    taking that out gives the display name back, the extension (empty, or
    beginning with the dot) is kept at the end, and the name is longer than
    the display name by one more than the length of the case identifier. *)
Theorem generated_name_inserts_case_before_extension
    (display_name case : string) :
  exists root ext,
    display_name = root ++ ext /\
    suffixed_filename display_name case = root ++ "_" ++ case ++ ext /\
    (ext = "" \/ exists e, ext = String "." e) /\
    String.length (suffixed_filename display_name case)
    = String.length display_name + 1 + String.length case.
Proof.
  destruct (splitext_parts display_name) as [Hjoin Hext].
  exists (fst (splitext display_name)), (snd (splitext display_name)).
  split; [now rewrite Hjoin|]. split; [reflexivity|]. split; [exact Hext|].
  unfold suffixed_filename. rewrite <- Hjoin at 3.
  rewrite !length_append. cbn [String.length]. lia.
Qed.

Lemma min_list_zero (l : list nat) : In 0 l -> min_list l = Some 0.
Proof.
  induction l as [|x l IH]; [contradiction|].
  cbn [min_list]. intros [->|Hin].
  - destruct (min_list l); reflexivity.
  - rewrite (IH Hin). now rewrite Nat.min_0_r.
Qed.

(** X18.  When one placeholder of the table has no value at all, the row
    count is 0: both instantiation functions return empty lists and leave
    the world as it was, whatever the templates and the other columns. *)
Theorem empty_column_generates_nothing
    (required_templates custom_templates : list (string * string))
    (table : param_table) (out : string)
    (replace_rules : list (string * string)) (w : world) :
  (exists column_name, In (column_name, []) table) ->
  num_rows_of table = Some 0 /\
  process_required_templates required_templates table out w
  = (w, Ok ([], [])) /\
  process_custom_templates custom_templates table out replace_rules w
  = (w, Ok []).
Proof.
  intros (name & Hin).
  assert (HN : num_rows_of table = Some 0).
  { unfold num_rows_of. apply min_list_zero.
    apply (in_map (fun kv => List.length (snd kv))) in Hin. exact Hin. }
  split; [exact HN|].
  unfold process_required_templates, process_custom_templates, num_rows_M.
  rewrite HN. split; reflexivity.
Qed.

Lemma empty_column_generates_nothing_witness :
  (exists column_name,
      In (column_name, []) [("T", [PyInt 300]); ("K", [])]) /\
  process_required_templates standard_templates
    [("T", [PyInt 300]); ("K", [])] "out" fresh_world
  = (fresh_world, Ok ([], [])).
Proof.
  assert (H : exists column_name,
             In (column_name, []) [("T", [PyInt 300]); ("K", @nil pyval)])
    by (exists "K"; right; now left).
  split; [exact H|].
  exact (proj1 (proj2 (empty_column_generates_nothing standard_templates []
                         [("T", [PyInt 300]); ("K", [])] "out" []
                         fresh_world H))).
Defined.

End NamesAndEmptyColumns.

(** ** The batch as a whole *)

Section BatchAsAWhole.

(** X19.  For [K] submitted jobs, with the log directory made and a pool of
    positive size: the call returns normally whatever the jobs did; the
    report of each job is made from its own two files and its own oracle;
    an exception raised by the launch is caught in the job, logged for that
    case and turned into [False]; a job returns [True] only if its exit
    code is 0; the final count is the number of jobs that returned [True],
    in whatever order the pool hands the jobs back; and the jobs that
    returned [True] and those that returned [False] add up to [K]. *)
Theorem batch_isolates_jobs_and_counts_returns
    (os : ospath) (tool : nat -> job_oracle)
    (as_completed : list job_report -> list job_report)
    (sim_files java_files : list string) (out : string)
    (np max_threads : Z) (w : world) :
  List.length sim_files = List.length java_files ->
  (0 < max_threads)%Z ->
  can_makedirs w (log_dir_of os out) ->
  (forall l, Permutation l (as_completed l)) ->
  exists w',
    process_sim_command os tool as_completed sim_files java_files out np
      max_threads w = (w', Ok tt) /\
    List.length (batch_reports os tool sim_files java_files out np)
      = List.length sim_files /\
    (forall i sim java,
       nth_error sim_files i = Some sim ->
       nth_error java_files i = Some java ->
       nth_error (batch_reports os tool sim_files java_files out np) i
         = Some (execute_case os out (log_dir_of os out) np (tool i) sim java) /\
       (job_returned
          (execute_case os out (log_dir_of os out) np (tool i) sim java)
          = true ->
        exit_code_zero os out np (tool i) sim java = true) /\
       forall e,
         os_system (tool i) (command_of os out np (tool i) sim java) = Raise e ->
         job_returned
           (execute_case os out (log_dir_of os out) np (tool i) sim java)
           = false /\
         In (Error_case_exception sim e)
            (job_log
               (execute_case os out (log_dir_of os out) np (tool i) sim java))) /\
    runs w' =
      (runs w ++ as_completed
                   (batch_reports os tool sim_files java_files out np))%list /\
    log w' =
      (log w ++
       [Info_count_match (List.length sim_files) (List.length java_files);
        Info_batch_done
          (List.length
             (filter job_returned
                (batch_reports os tool sim_files java_files out np)))
          (List.length sim_files)])%list /\
    List.length
      (filter job_returned (batch_reports os tool sim_files java_files out np))
    + List.length
        (filter (fun r => negb (job_returned r))
           (batch_reports os tool sim_files java_files out np))
    = List.length sim_files.
Proof.
  intros Hlen Hthreads Hdir Hperm.
  assert (HK : List.length (batch_reports os tool sim_files java_files out np)
               = List.length sim_files).
  { unfold batch_reports. rewrite submit_all_length, length_combine. lia. }
  destruct (os_makedirs_ok (log_dir_of os out)
              (add_log (Info_count_match (List.length sim_files)
                          (List.length java_files)) w))
    as (w1 & Hmk & Hlog1 & Hruns1); [exact Hdir|].
  exists (add_log
            (Info_batch_done
               (count_successes
                  (as_completed
                     (batch_reports os tool sim_files java_files out np)))
               (List.length sim_files))
            (add_runs
               (as_completed
                  (batch_reports os tool sim_files java_files out np)) w1)).
  split; [|split; [exact HK|split; [|split; [|split]]]].
  - unfold process_sim_command. apply Nat.eqb_eq in Hlen. rewrite Hlen.
    cbn [negb]. unfold bind at 1, logging at 1.
    fold (log_dir_of os out). unfold bind at 1. rewrite Hmk.
    destruct (Z.leb_spec max_threads 0); [lia|]. reflexivity.
  - intros i sim java Hs Hj. split; [|split].
    + unfold batch_reports.
      apply (submit_all_nth os tool out np _ _ 0 i sim java).
      now apply combine_nth_error.
    + rewrite execute_case_returned. intros H.
      now apply andb_true_iff in H as [H _].
    + intros e He. now apply execute_case_catches.
  - cbn [runs add_log add_runs]. now rewrite Hruns1.
  - cbn [log add_log add_runs]. rewrite Hlog1. cbn [log add_log].
    rewrite <- app_assoc. cbn [app].
    rewrite <- (count_successes_Permutation _ _ (Hperm _)).
    now rewrite count_successes_filter.
  - rewrite filter_partition_length. exact HK.
Qed.

Lemma batch_isolates_jobs_and_counts_returns_witness :
  List.length three_sims = List.length three_javas /\
  (0 < 4)%Z /\
  can_makedirs fresh_world (log_dir_of work_os "out") /\
  (forall l, Permutation l (@rev job_report l)) /\
  exists w',
    process_sim_command work_os second_fails (@rev job_report)
      three_sims three_javas "out" 1 4 fresh_world = (w', Ok tt) /\
    log w' = [Info_count_match 3 3; Info_batch_done 2 3].
Proof.
  split; [reflexivity|]. split; [lia|].
  split; [apply fresh_world_can_makedirs; reflexivity|].
  split; [intros l; apply Permutation_rev|].
  destruct (batch_isolates_jobs_and_counts_returns work_os second_fails
              (@rev job_report) three_sims three_javas "out" 1 4 fresh_world)
    as (w' & Hrun & _ & _ & _ & Hlog & _).
  - reflexivity.
  - lia.
  - apply fresh_world_can_makedirs; reflexivity.
  - intros l; apply Permutation_rev.
  - exists w'. split; [exact Hrun|]. rewrite Hlog. reflexivity.
Defined.

End BatchAsAWhole.
